(** * Legion Python bindings ([bindings/python/legion.py]): ownership,
      registration and launch protocol

    A shallow embedding of the resource-handle, context, future,
    task-registration and index-launch layer of [legion.py], and the
    properties of it that the specification states.

    Conventions of the embedding.
    - A Python exception is a value of [PyError]; a call that may raise
      returns a [result].  Code that mutates the module's globals, the
      thread-local context or talks to the engine runs in the monad [M],
      a state monad in which the state survives an exception, as the
      interpreter's state does.
    - The engine (the C library reached through [c.legion_...]) is an
      external collaborator.  Every call to it is appended to the
      [engine_calls] trace of the state; the handles it returns are taken
      from the [Engine] record of reply functions.
    - A [__slots__] attribute that the code removes with [del] is an
      [option]: [None] is the unset slot, reading it raises
      [AttributeError].
    - Python objects compared by identity carry an object id ([oid]).
    - Integers are Python's unbounded integers ([Z]); [xrange] is the
      [range] of Python 3.  An integer that is handed to the engine as a
      C integer of fixed width is converted at the call, as cffi does:
      one that does not fit raises [OverflowError] before the engine is
      entered ([store_coord], [pass_uint32]).
    - Garbage collection is not part of the embedding: [__del__], which
      destroys an owned handle that has not escaped, the handle of a
      Future or the argument map of a launcher when the wrapper is
      collected, is not run, and the engine calls that it would make are
      not in the trace. *)

From Stdlib Require Import ZArith List Bool Lia Sorting.Sorted.
From stdpp Require Import base option list sorting strings gmap.

Open Scope Z_scope.

(** ** Exceptions and results *)

Inductive PyError : Type :=
| AssertionError
| AttributeError
| NameError
| OverflowError
| TypeError
| PyException (msg : string).

Inductive result (A : Type) : Type :=
| Ok (a : A)
| Raise (e : PyError).
Arguments Ok {A} a.
Arguments Raise {A} e.

Definition rbind {A B} (r : result A) (k : A -> result B) : result B :=
  match r with
  | Ok a => k a
  | Raise e => Raise e
  end.

Definition is_ok {A} (r : result A) : bool :=
  match r with Ok _ => true | Raise _ => false end.

(** [assert cond] *)
Definition py_assert (cond : bool) : result unit :=
  if cond then Ok tt else Raise AssertionError.

(** Reading a slot that may have been deleted. *)
Definition get_slot {A} (slot : option A) : result A :=
  match slot with
  | Some a => Ok a
  | None => Raise AttributeError
  end.

Fixpoint rmapM {A B} (f : A -> result B) (l : list A) : result (list B) :=
  match l with
  | [] => Ok []
  | x :: l' =>
      rbind (f x) (fun y => rbind (rmapM f l') (fun ys => Ok (y :: ys)))
  end.

(** ** Domain and DomainPoint *)

(** [coord_t] is a signed 64-bit integer: storing a Python integer outside
    its range into a cffi field raises [OverflowError]. *)
Definition coord_min : Z := - 2 ^ 63.
Definition coord_max : Z := 2 ^ 63 - 1.

Definition coord_ok (z : Z) : bool := (coord_min <=? z) && (z <=? coord_max).

Definition store_coord (z : Z) : result Z :=
  if coord_ok z then Ok z else Raise OverflowError.

(** [legion_field_id_t] and [legion_task_id_t] are unsigned 32-bit
    integers: a Python integer outside their range, passed as an argument
    of that type, raises [OverflowError] when the call is made, before the
    engine is entered. *)
Definition uint32_max : Z := 2 ^ 32 - 1.

Definition uint32_ok (z : Z) : bool := (0 <=? z) && (z <=? uint32_max).

Definition pass_uint32 (z : Z) : result Z :=
  if uint32_ok z then Ok z else Raise OverflowError.

Arguments uint32_ok : simpl never.

(** [legion_domain_point_t]: [dim] and the first [dim] entries of
    [point_data] (the unused tail of the C array is not represented, so
    [dim] is the length of [point_data]). *)
Record legion_domain_point_t : Type := {
  point_data : list Z
}.

Record DomainPoint : Type := {
  dp_handle : legion_domain_point_t
}.

Definition point_dim (p : DomainPoint) : nat := length (point_data (dp_handle p)).

(** A value that is either a sequence or a scalar that [len()] rejects:
    [try: len(values) except TypeError: values = [values]]. *)
Inductive IntOrSeq : Type :=
| Scalar (z : Z)
| Seq (l : list Z).

Definition as_seq (v : IntOrSeq) : list Z :=
  match v with
  | Scalar z => [z]
  | Seq l => l
  end.

Section Dimension.

(** [_max_dim = int(os.environ.get('MAX_DIM', 3))] *)
Variable _max_dim : nat.

Definition dim_in_range (n : nat) : bool :=
  (1 <=? n)%nat && (n <=? _max_dim)%nat.

(** [DomainPoint.create] *)
Definition DomainPoint_create (values : IntOrSeq) : result DomainPoint :=
  let values := as_seq values in
  rbind (py_assert (dim_in_range (length values))) (fun _ =>
  rbind (rmapM store_coord values) (fun data =>
  Ok {| dp_handle := {| point_data := data |} |})).

(** [DomainPoint.__eq__] on two DomainPoints *)
Definition DomainPoint_eq (p q : DomainPoint) : bool :=
  bool_decide (point_data (dp_handle p) = point_data (dp_handle q)).

(** [legion_domain_t]: [dim] and [rect_data], the low corner in entries
    [0 .. dim-1] and the high corner (inclusive) in [dim .. 2*dim-1]. *)
Record legion_domain_t : Type := {
  dim : nat;
  rect_data : list Z
}.

Record Domain : Type := {
  d_handle : legion_domain_t
}.

(** Modelled from the spec: the engine's [legion_domain_from_rect_{n}d],
    which is not part of the binding's source.  It turns the rectangle
    with corners [lo] and [hi] into a Domain handle, in the layout that
    [Domain.__iter__] reads back: [rect_data[i]] is the low and
    [rect_data[i+dim]] the high bound of axis [i]. *)
Definition legion_domain_from_rect (lo hi : list Z) : legion_domain_t :=
  {| dim := length lo; rect_data := lo ++ hi |}.

(** Modelled from the spec: the engine's [legion_domain_get_volume], which
    is not part of the binding's source: the number of integer points of
    the rectangle, zero when some axis is empty. *)
Definition legion_domain_get_volume (h : legion_domain_t) : Z :=
  fold_right Z.mul 1
    (map (fun i => Z.max 0 (nth (i + dim h) (rect_data h) 0
                            - nth i (rect_data h) 0 + 1))
         (seq 0 (dim h))).

(** [Domain.volume] *)
Definition Domain_volume (d : Domain) : Z :=
  legion_domain_get_volume (d_handle d).

(** The loop of [Domain.create] that fills the rectangle. *)
Fixpoint fill_rect (start extent : list Z) : result (list Z * list Z) :=
  match start, extent with
  | s :: start', e :: extent' =>
      rbind (store_coord s) (fun lo =>
      rbind (store_coord (s + e - 1)) (fun hi =>
      rbind (fill_rect start' extent') (fun rest =>
      Ok (lo :: fst rest, hi :: snd rest))))
  | _, _ => Ok ([], [])
  end.

(** [Domain.create] *)
Definition Domain_create (extent : IntOrSeq) (start : option IntOrSeq)
  : result Domain :=
  let extent := as_seq extent in
  rbind (match start with
         | Some start =>
             let start := as_seq start in
             rbind (py_assert (bool_decide (length start = length extent)))
                   (fun _ => Ok start)
         | None => Ok (map (fun _ => 0) extent)
         end) (fun start =>
  rbind (py_assert (dim_in_range (length extent))) (fun _ =>
  rbind (fill_rect start extent) (fun rect =>
  Ok {| d_handle := legion_domain_from_rect (fst rect) (snd rect) |}))).

(** [xrange(lo, hi)] *)
Definition xrange (lo hi : Z) : list Z :=
  map (fun k => lo + Z.of_nat k) (seq 0 (Z.to_nat (hi - lo))).

(** [itertools.product] of a list of ranges: the last range varies
    fastest. *)
Fixpoint product (ranges : list (list Z)) : list (list Z) :=
  match ranges with
  | [] => [[]]
  | r :: ranges' =>
      flat_map (fun x => map (cons x) (product ranges')) r
  end.

Definition domain_ranges (h : legion_domain_t) : list (list Z) :=
  map (fun i => xrange (nth i (rect_data h) 0)
                       (nth (i + dim h) (rect_data h) 0 + 1))
      (seq 0 (dim h)).

(** [Domain.__iter__] *)
Definition Domain_iter (d : Domain) : result (list DomainPoint) :=
  rmapM (fun t => DomainPoint_create (Seq t))
        (product (domain_ranges (d_handle d))).

End Dimension.

(** Row-major (lexicographic) order on coordinate tuples of one length. *)
Fixpoint lex_ltb (p q : list Z) : bool :=
  match p, q with
  | x :: p', y :: q' => (x <? y) || ((x =? y) && lex_ltb p' q')
  | _, _ => false
  end.

Definition lex_lt (p q : list Z) : Prop := lex_ltb p q = true.

(** The integer points of the rectangle [start, start + extent). *)
Definition in_rect (start extent p : list Z) : Prop :=
  Forall3 (fun x s e => s <= x < s + e) p start extent.

Definition coords (pts : list DomainPoint) : list (list Z) :=
  map (fun p => point_data (dp_handle p)) pts.

Definition mk_point (t : list Z) : DomainPoint :=
  {| dp_handle := {| point_data := t |} |}.

(** The [start] that [Domain.create] uses: the one given, or the origin. *)
Definition start_of (extent : IntOrSeq) (start : option IntOrSeq) : list Z :=
  match start with
  | Some s => as_seq s
  | None => map (fun _ => 0) (as_seq extent)
  end.

(** ** Types and privileges *)

(** The numpy scalar types of the pre-defined [Type]s, with the
    [itemsize] of their dtype. *)
Inductive NumpyType : Type :=
| np_float16 | np_float32 | np_float64
| np_int8 | np_int16 | np_int32 | np_int64
| np_uint8 | np_uint16 | np_uint32 | np_uint64.

Definition itemsize (t : NumpyType) : Z :=
  match t with
  | np_int8 | np_uint8 => 1
  | np_float16 | np_int16 | np_uint16 => 2
  | np_float32 | np_int32 | np_uint32 => 4
  | np_float64 | np_int64 | np_uint64 => 8
  end.

(** [class Type]: [numpy_type] and [cffi_type] are both [None] ([void]) or
    both set: [Type.__init__] asserts it before it sets any slot, so these
    are all the [Type] objects there are. *)
Inductive Type_ : Type :=
| TVoid
| TData (numpy_type : NumpyType) (cffi_type : string).

Definition Type_numpy_type (t : Type_) : option NumpyType :=
  match t with TVoid => None | TData n _ => Some n end.

Definition Type_cffi_type (t : Type_) : option string :=
  match t with TVoid => None | TData _ c => Some c end.

Definition Type_size (t : Type_) : Z :=
  match t with TVoid => 0 | TData n _ => itemsize n end.

(** [Type.__init__] *)
Definition Type_init (numpy_type : option NumpyType) (cffi_type : option string)
  : result Type_ :=
  rbind (py_assert (eqb (bool_decide (numpy_type = None))
                        (bool_decide (cffi_type = None)))) (fun _ =>
  match numpy_type, cffi_type with
  | Some n, Some c => Ok (TData n c)
  | _, _ => Ok TVoid
  end).

(** [Type.__reduce__]: the arguments handed back to [Type]. *)
Definition Type_reduce (t : Type_) : option NumpyType * option string :=
  (Type_numpy_type t, Type_cffi_type t).

Definition Type_loads (p : option NumpyType * option string) : result Type_ :=
  Type_init (fst p) (snd p).

Definition void : Type_ := TVoid.
Definition int64 : Type_ := TData np_int64 "int64_t".
Definition uint64 : Type_ := TData np_uint64 "uint64_t".
Definition float64 : Type_ := TData np_float64 "double".

(** [class Privilege]; a [PrivilegeFields] is a Privilege with [fields]
    set. *)
Record Privilege : Type := {
  read : bool;
  write : bool;
  discard : bool;
  fields : option (list string)
}.

Definition Privilege_init (read write discard : bool) : Privilege :=
  {| read := read; write := write; discard := discard; fields := None |}.

(** [Privilege.__eq__]: by the triple. *)
Definition Privilege_eq (p q : Privilege) : bool :=
  bool_decide ((read p, write p, discard p) = (read q, write q, discard q)).

Definition N : Privilege := Privilege_init false false false.
Definition R : Privilege := Privilege_init true false false.
Definition RO : Privilege := Privilege_init true false false.
Definition RW : Privilege := Privilege_init true true false.
Definition WD : Privilege := Privilege_init false true true.

(** ** Engine handles and the call trace *)

Record legion_index_space_t : Type := {
  is_tid : Z;
  is_id : Z;
  is_type_tag : Z
}.

Record legion_field_space_t : Type := {
  fs_id : Z
}.

Record legion_logical_region_t : Type := {
  tree_id : Z;
  index_space : legion_index_space_t;
  field_space : legion_field_space_t
}.

Record legion_index_partition_t : Type := {
  ip_id : Z;
  ip_tid : Z;
  ip_type_tag : Z
}.

Record legion_logical_partition_t : Type := {
  lp_tree_id : Z;
  index_partition : legion_index_partition_t;
  lp_field_space : legion_field_space_t
}.

(** A phase barrier handle names a barrier and one of its generations;
    [legion_phase_barrier_advance] returns the handle of the next one. *)
Record legion_phase_barrier_t : Type := {
  pb_id : Z;
  pb_generation : nat
}.

(** The value an engine future holds. *)
Record legion_future_t : Type := {
  payload : Z
}.

Record legion_task_config_options_t : Type := {
  opt_leaf : bool;
  opt_inner : bool;
  opt_idempotent : bool;
  opt_replicable : bool
}.

(** ** Pickles

    What [__reduce__] hands to the byte codec: the arguments with which
    the unpickle function of the class is called on the other side.  The
    objects among the arguments are pickled by their own [__reduce__]. *)

(** The arguments of [_Ispace_unpickle], as [Ispace.__reduce__] returns
    them. *)
Record PIspace : Type := {
  p_ispace_tid : Z;
  p_ispace_id : Z;
  p_ispace_type_tag : Z;
  p_ispace_owned : bool
}.

(** The arguments of [_Fspace_unpickle]. *)
Record PFspace : Type := {
  p_fspace_id : Z;
  p_field_ids : list (string * Z);
  p_field_types : list (string * (option NumpyType * option string));
  p_fspace_owned : bool
}.

(** The arguments of [_Region_unpickle]. *)
Record PRegion : Type := {
  p_tree_id : Z;
  p_ispace : PIspace;
  p_fspace : PFspace;
  p_region_owned : bool
}.

(** The arguments [Future.__reduce__] hands back to [Future]: the value
    [None], the value type and the argument number. *)
Record PFuture : Type := {
  p_value_type : option (option NumpyType * option string);
  p_argument_number : nat
}.

(** What the byte codec makes of one task argument: pickling follows the
    [__reduce__] of DomainPoint, Region and Future; a plain value is kept
    as it is. *)
Inductive PArg : Type :=
| PNone
| PValue (v : Z)
| PPoint (values : list Z)
| PRegionArg (p : PRegion)
| PRegionFieldArg (field_name : string)
| PFutureArg (p : PFuture).

(** [legion_task_argument_t]: the pickled argument tuple of a task with
    the Python calling convention, or no arguments at all. *)
Inductive TaskArgument : Type :=
| PickledArgs (args : list PArg)
| NullArgs.

(** One constructor per engine entry point that the embedded code calls,
    with the arguments that the binding computes (the runtime and context
    handles, which every call passes along, are left out). *)
Inductive EngineCall : Type :=
| legion_index_space_create_domain (d : legion_domain_t)
| legion_index_space_destroy (h : legion_index_space_t)
| legion_field_space_create
| legion_field_allocator_create (h : legion_field_space_t)
| legion_field_allocator_allocate_field (h : legion_field_space_t)
    (size : Z) (field_id : Z)
| legion_field_id_attach_name (h : legion_field_space_t) (field_id : Z)
    (name : string)
| legion_field_allocator_destroy (h : legion_field_space_t)
| legion_field_space_destroy (h : legion_field_space_t)
| legion_logical_region_create (i : legion_index_space_t)
    (f : legion_field_space_t)
| legion_logical_region_destroy (h : legion_logical_region_t)
| legion_index_partition_get_index_subspace_domain_point
    (h : legion_index_partition_t) (p : legion_domain_point_t)
| legion_index_partition_destroy (h : legion_index_partition_t)
| legion_logical_partition_get_logical_subregion_by_color_domain_point
    (h : legion_logical_partition_t) (p : legion_domain_point_t)
| legion_logical_partition_destroy (h : legion_logical_partition_t)
| legion_execution_constraint_set_create
| legion_execution_constraint_set_add_processor_constraint
| legion_task_layout_constraint_set_create
| legion_phase_barrier_arrive (b : legion_phase_barrier_t) (count : Z)
| legion_phase_barrier_advance (b : legion_phase_barrier_t)
| legion_phase_barrier_wait (b : legion_phase_barrier_t)
| legion_runtime_get_runtime
| legion_runtime_register_task_variant_python_source_qualname
    (task_id : Z) (task_name : option string) (global : bool)
    (options : legion_task_config_options_t)
    (module_name : string) (qualname : list string)
| legion_execution_constraint_set_destroy
| legion_task_layout_constraint_set_destroy
| legion_task_get_future (argument_number : nat)
| legion_future_copy (h : legion_future_t)
| legion_argument_map_create
| legion_argument_map_set_point (map : Z) (p : legion_domain_point_t)
    (args : TaskArgument)
| legion_predicate_true
| legion_index_launcher_create (task_id : Z) (d : legion_domain_t) (map : Z)
| legion_index_launcher_add_future (h : legion_future_t)
| legion_index_launcher_execute
| legion_index_launcher_destroy
| legion_future_map_copy (h : Z)
| legion_future_map_destroy (h : Z).

(** The handles that the engine returns.  A reply may depend on everything
    the engine has been asked before: each function takes the trace of
    the earlier calls. *)
Record Engine : Type := {
  index_space_create_domain_reply :
    list EngineCall -> legion_domain_t -> legion_index_space_t;
  field_space_create_reply : list EngineCall -> legion_field_space_t;
  allocate_field_reply :
    list EngineCall -> legion_field_space_t -> Z -> Z -> Z;
  logical_region_create_reply :
    list EngineCall -> legion_index_space_t -> legion_field_space_t ->
    legion_logical_region_t;
  index_subspace_reply :
    list EngineCall -> legion_index_partition_t -> legion_domain_point_t ->
    legion_index_space_t;
  logical_subregion_reply :
    list EngineCall -> legion_logical_partition_t -> legion_domain_point_t ->
    legion_logical_region_t;
  task_get_future_reply : list EngineCall -> nat -> legion_future_t;
  future_copy_reply : list EngineCall -> legion_future_t -> legion_future_t;
  argument_map_create_reply : list EngineCall -> Z;
  index_launcher_execute_reply : list EngineCall -> Z;
  future_map_copy_reply : list EngineCall -> Z -> Z
}.

(** ** The context and the interpreter state *)

(** [class Context].  [owned_objects] holds weak references, here the
    object ids of the tracked objects; [current_launch] is the object id
    of the active IndexLaunch. *)
Record Context : Type := {
  context : Z;
  runtime : Z;
  task : Z;
  regions : list Z;
  owned_objects : list nat;
  current_launch : option nat
}.

(** [Context.__init__] *)
Definition Context_init (context runtime task : Z) (regions : list Z)
  : Context :=
  {| context := context; runtime := runtime; task := task;
     regions := regions; owned_objects := []; current_launch := None |}.

(** [Context.track_object] *)
Definition Context_track_object (self : Context) (obj : nat) : Context :=
  {| context := context self; runtime := runtime self; task := task self;
     regions := regions self;
     owned_objects := owned_objects self ++ [obj];
     current_launch := current_launch self |}.

Definition set_current_launch (self : Context) (l : option nat) : Context :=
  {| context := context self; runtime := runtime self; task := task self;
     regions := regions self; owned_objects := owned_objects self;
     current_launch := l |}.

(** [Context.begin_launch]; [launch] is the object id of the launch, or
    [None] for Python's [None]. *)
Definition Context_begin_launch (self : Context) (launch : option nat)
  : result Context :=
  rbind (py_assert (bool_decide (current_launch self = None))) (fun _ =>
  Ok (set_current_launch self launch)).

(** [Context.end_launch] *)
Definition Context_end_launch (self : Context) (launch : option nat)
  : result Context :=
  rbind (py_assert (bool_decide (current_launch self = launch))) (fun _ =>
  Ok (set_current_launch self None)).

(** The module's mutable globals, the thread-local [_my.ctx], the trace of
    the engine calls made so far, and the next fresh object id. *)
Record State : Type := {
  my_ctx : option Context;
  next_legion_task_id : Z;
  global_task_registration_barrier : option legion_phase_barrier_t;
  engine_calls : list EngineCall;
  next_oid : nat
}.

Definition M (A : Type) : Type := State -> result A * State.

Definition ret {A} (a : A) : M A := fun s => (Ok a, s).

Definition raise {A} (e : PyError) : M A := fun s => (Raise e, s).

Definition lift {A} (r : result A) : M A := fun s => (r, s).

Definition bind {A B} (m : M A) (k : A -> M B) : M B :=
  fun s =>
    match m s with
    | (Ok a, s') => k a s'
    | (Raise e, s') => (Raise e, s')
    end.

Notation "'let*' x ':=' m 'in' k" := (bind m (fun x => k))
  (at level 10, x name, m at level 100, k at level 200).

Fixpoint forM_ {A} (l : list A) (f : A -> M unit) : M unit :=
  match l with
  | [] => ret tt
  | x :: l' => let* _ := f x in forM_ l' f
  end.

Definition set_my_ctx (c : option Context) : M unit :=
  fun s => (Ok tt, {| my_ctx := c;
                      next_legion_task_id := next_legion_task_id s;
                      global_task_registration_barrier :=
                        global_task_registration_barrier s;
                      engine_calls := engine_calls s;
                      next_oid := next_oid s |}).

(** Reading [_my.ctx]: an [AttributeError] outside a task body. *)
Definition get_ctx : M Context :=
  fun s => (get_slot (my_ctx s), s).

(** A new Python object: its identity. *)
Definition new_object : M nat :=
  fun s => (Ok (next_oid s),
            {| my_ctx := my_ctx s;
               next_legion_task_id := next_legion_task_id s;
               global_task_registration_barrier :=
                 global_task_registration_barrier s;
               engine_calls := engine_calls s;
               next_oid := S (next_oid s) |}).

(** A call into the engine: recorded in the trace. *)
Definition engine_call (call : EngineCall) : M unit :=
  fun s => (Ok tt,
            {| my_ctx := my_ctx s;
               next_legion_task_id := next_legion_task_id s;
               global_task_registration_barrier :=
                 global_task_registration_barrier s;
               engine_calls := engine_calls s ++ [call];
               next_oid := next_oid s |}).

Definition get_trace : M (list EngineCall) :=
  fun s => (Ok (engine_calls s), s).

(** [_my.ctx.track_object(obj)] *)
Definition track_object (obj : nat) : M unit :=
  let* ctx := get_ctx in
  set_my_ctx (Some (Context_track_object ctx obj)).

Fixpoint rfoldM {A B} (f : B -> A -> result B) (l : list A) (b : B)
  : result B :=
  match l with
  | [] => Ok b
  | x :: l' => rbind (f b x) (rfoldM f l')
  end.

Fixpoint foldM {A B} (f : B -> A -> M B) (l : list A) (b : B) : M B :=
  match l with
  | [] => ret b
  | x :: l' => let* b' := f b x in foldM f l' b'
  end.

(** ** Ordered dictionaries

    An [OrderedDict] with string keys: the items in insertion order. *)

Definition dict_keys {V} (d : list (string * V)) : list string := map fst d.

(** [d[k] = v] *)
Fixpoint dict_set {V} (k : string) (v : V) (d : list (string * V))
  : list (string * V) :=
  match d with
  | [] => [(k, v)]
  | (k', v') :: d' =>
      if decide (k = k') then (k, v) :: d' else (k', v') :: dict_set k v d'
  end.

(** ** Index spaces *)

Record Ispace : Type := {
  i_oid : nat;
  i_handle : option legion_index_space_t;
  i_owned : bool;
  i_escaped : bool
}.


(** [Ispace.__init__] *)
Definition Ispace_init (handle : legion_index_space_t) (owned : bool)
  : M Ispace :=
  let* oid := new_object in
  let* _ := (if owned then track_object oid else ret tt) in
  ret {| i_oid := oid; i_handle := Some handle;
         i_owned := owned; i_escaped := false |}.

(** [Ispace.__reduce__] *)
Definition Ispace_reduce (self : Ispace) : result PIspace :=
  rbind (get_slot (i_handle self)) (fun h =>
  Ok {| p_ispace_tid := is_tid h; p_ispace_id := is_id h;
        p_ispace_type_tag := is_type_tag h;
        p_ispace_owned := i_owned self && i_escaped self |}).

(** [_Ispace_unpickle] *)
Definition _Ispace_unpickle (ispace_tid ispace_id ispace_type_tag : Z)
  (owned : bool) : M Ispace :=
  Ispace_init {| is_tid := ispace_tid; is_id := ispace_id;
                 is_type_tag := ispace_type_tag |}
              owned.

(** [pickle.loads] of the pickle of an Ispace. *)
Definition Ispace_loads (p : PIspace) : M Ispace :=
  _Ispace_unpickle (p_ispace_tid p) (p_ispace_id p) (p_ispace_type_tag p)
                   (p_ispace_owned p).

(** [Ispace.destroy] *)
Definition Ispace_destroy (self : Ispace) : M Ispace :=
  let* _ := lift (py_assert (i_owned self && negb (i_escaped self))) in
  let* _ := get_ctx in
  let* h := lift (get_slot (i_handle self)) in
  let* _ := engine_call (legion_index_space_destroy h) in
  ret {| i_oid := i_oid self; i_handle := None;
         i_owned := i_owned self; i_escaped := i_escaped self |}.

(** ** Field spaces *)

Record Fspace : Type := {
  f_oid : nat;
  f_handle : option legion_field_space_t;
  field_ids : option (list (string * Z));
  field_types : option (list (string * Type_));
  f_owned : bool;
  f_escaped : bool
}.


(** [Fspace.__init__] *)
Definition Fspace_init (handle : legion_field_space_t)
  (ids : list (string * Z)) (types : list (string * Type_)) (owned : bool)
  : M Fspace :=
  let* oid := new_object in
  let* _ := (if owned then track_object oid else ret tt) in
  ret {| f_oid := oid; f_handle := Some handle;
         field_ids := Some ids; field_types := Some types;
         f_owned := owned; f_escaped := false |}.

(** [Fspace.__reduce__]; the [Type] values of [field_types] are reduced
    by [Type.__reduce__]. *)
Definition Fspace_reduce (self : Fspace) : result PFspace :=
  rbind (get_slot (f_handle self)) (fun h =>
  rbind (get_slot (field_ids self)) (fun ids =>
  rbind (get_slot (field_types self)) (fun types =>
  Ok {| p_fspace_id := fs_id h;
        p_field_ids := ids;
        p_field_types := map (fun kv => (fst kv, Type_reduce (snd kv))) types;
        p_fspace_owned := f_owned self && f_escaped self |}))).

(** [_Fspace_unpickle] *)
Definition _Fspace_unpickle (fspace_id : Z) (field_ids : list (string * Z))
  (field_types : list (string * Type_)) (owned : bool) : M Fspace :=
  Fspace_init {| fs_id := fspace_id |} field_ids field_types owned.

(** [pickle.loads] of the pickle of an Fspace: the [Type] values are
    rebuilt first. *)
Definition Fspace_loads (p : PFspace) : M Fspace :=
  let* types := lift (rmapM (fun kv => rbind (Type_loads (snd kv))
                                         (fun t => Ok (fst kv, t)))
                            (p_field_types p)) in
  _Fspace_unpickle (p_fspace_id p) (p_field_ids p) types (p_fspace_owned p).

(** [Fspace.destroy] *)
Definition Fspace_destroy (self : Fspace) : M Fspace :=
  let* _ := lift (py_assert (f_owned self && negb (f_escaped self))) in
  let* _ := get_ctx in
  let* h := lift (get_slot (f_handle self)) in
  let* _ := engine_call (legion_field_space_destroy h) in
  let* _ := lift (get_slot (field_ids self)) in
  let* _ := lift (get_slot (field_types self)) in
  ret {| f_oid := f_oid self; f_handle := None;
         field_ids := None; field_types := None;
         f_owned := f_owned self; f_escaped := f_escaped self |}.

(** ** Regions *)

(** [class RegionField]: the numpy view of one field of a region. *)
Record RegionField : Type := {
  rf_region : nat;
  rf_field_name : string
}.

#[local] Unset Elimination Schemes.
Inductive Region : Type := mkRegion {
  r_oid : nat;
  r_handle : option legion_logical_region_t;
  r_ispace : option Ispace;
  r_fspace : option Fspace;
  r_parent : option (option Region);
  instances : option (gmap string Z);
  privileges : gmap string Privilege;
  instance_wrappers : option (gmap string RegionField);
  r_owned : bool;
  r_escaped : bool
}.
#[local] Set Elimination Schemes.


Definition Region_with_privileges (self : Region)
  (privs : gmap string Privilege) : Region :=
  {| r_oid := r_oid self; r_handle := r_handle self;
     r_ispace := r_ispace self; r_fspace := r_fspace self;
     r_parent := r_parent self; instances := instances self;
     privileges := privs; instance_wrappers := instance_wrappers self;
     r_owned := r_owned self; r_escaped := r_escaped self |}.

(** [Region._set_privilege] *)
Definition Region_set_privilege (self : Region) (field_name : string)
  (privilege : Privilege) : result Region :=
  rbind (get_slot (r_parent self)) (fun parent =>
  rbind (py_assert (bool_decide (parent = None))) (fun _ =>
  rbind (py_assert (bool_decide (privileges self !! field_name = None)))
        (fun _ =>
  Ok (Region_with_privileges self
        (<[field_name := privilege]> (privileges self)))))).

(** [Region.__init__] *)
Definition Region_init (handle : legion_logical_region_t) (ispace : Ispace)
  (fspace : Fspace) (parent : option Region) (owned : bool) : M Region :=
  let* oid := new_object in
  let self :=
    {| r_oid := oid; r_handle := Some handle;
       r_ispace := Some ispace; r_fspace := Some fspace;
       r_parent := Some parent; instances := Some ∅;
       privileges := ∅; instance_wrappers := Some ∅;
       r_owned := owned; r_escaped := false |} in
  if owned then
    let* _ := track_object oid in
    let* ids := lift (get_slot (field_ids fspace)) in
    lift (rfoldM (fun self field_name =>
                    Region_set_privilege self field_name RW)
                 (dict_keys ids) self)
  else ret self.

(** [Region.__reduce__]; the index space and the field space of the tuple
    are reduced by their own [__reduce__]. *)
Definition Region_reduce (self : Region) : result PRegion :=
  rbind (get_slot (r_handle self)) (fun h =>
  rbind (get_slot (r_ispace self)) (fun ispace =>
  rbind (get_slot (r_fspace self)) (fun fspace =>
  rbind (Ispace_reduce ispace) (fun pi =>
  rbind (Fspace_reduce fspace) (fun pf =>
  Ok {| p_tree_id := tree_id h; p_ispace := pi; p_fspace := pf;
        p_region_owned := r_owned self && r_escaped self |}))))).

(** [_Region_unpickle] *)
Definition _Region_unpickle (tree_id : Z) (ispace : Ispace) (fspace : Fspace)
  (owned : bool) : M Region :=
  let* ih := lift (get_slot (i_handle ispace)) in
  let* fh := lift (get_slot (f_handle fspace)) in
  Region_init {| tree_id := tree_id; index_space := ih; field_space := fh |}
              ispace fspace None owned.

(** [pickle.loads] of the pickle of a Region: the index space and the
    field space are rebuilt first, in the order of the tuple. *)
Definition Region_loads (p : PRegion) : M Region :=
  let* ispace := Ispace_loads (p_ispace p) in
  let* fspace := Fspace_loads (p_fspace p) in
  _Region_unpickle (p_tree_id p) ispace fspace (p_region_owned p).

(** [Region.destroy] *)
Definition Region_destroy (self : Region) : M Region :=
  let* _ := lift (py_assert (r_owned self && negb (r_escaped self))) in
  let* _ := get_ctx in
  let* h := lift (get_slot (r_handle self)) in
  let* _ := engine_call (legion_logical_region_destroy h) in
  let* _ := lift (get_slot (r_parent self)) in
  let* _ := lift (get_slot (instance_wrappers self)) in
  let* _ := lift (get_slot (instances self)) in
  let* _ := lift (get_slot (r_ispace self)) in
  let* _ := lift (get_slot (r_fspace self)) in
  ret {| r_oid := r_oid self; r_handle := None;
         r_ispace := None; r_fspace := None;
         r_parent := None; instances := None;
         privileges := privileges self; instance_wrappers := None;
         r_owned := r_owned self; r_escaped := r_escaped self |}.

(** ** Partitions *)

Record Ipartition : Type := {
  ipart_handle : option legion_index_partition_t;
  ipart_parent : option Ispace;
  ipart_color_space : option Ispace
}.

Record Partition : Type := {
  part_handle : option legion_logical_partition_t;
  part_parent : option Region;
  part_ipartition : option Ipartition
}.

(** [Ipartition.__init__] *)
Definition Ipartition_init (handle : legion_index_partition_t)
  (parent color_space : Ispace) : Ipartition :=
  {| ipart_handle := Some handle; ipart_parent := Some parent;
     ipart_color_space := Some color_space |}.

(** [_Ipartition_unpickle], after [parent] and [color_space] have been
    rebuilt. *)
Definition _Ipartition_unpickle (id : Z) (parent color_space : Ispace)
  : result Ipartition :=
  rbind (get_slot (i_handle parent)) (fun ph =>
  Ok (Ipartition_init {| ip_id := id; ip_tid := is_tid ph;
                         ip_type_tag := is_type_tag ph |}
                      parent color_space)).

(** [Ipartition.destroy] *)
Definition Ipartition_destroy (self : Ipartition) : M Ipartition :=
  let* _ := get_ctx in
  let* h := lift (get_slot (ipart_handle self)) in
  let* _ := engine_call (legion_index_partition_destroy h) in
  let* _ := lift (get_slot (ipart_parent self)) in
  let* _ := lift (get_slot (ipart_color_space self)) in
  ret {| ipart_handle := None; ipart_parent := None;
         ipart_color_space := None |}.

(** [Partition.__init__] *)
Definition Partition_init (handle : legion_logical_partition_t)
  (parent : Region) (ipartition : Ipartition) : Partition :=
  {| part_handle := Some handle; part_parent := Some parent;
     part_ipartition := Some ipartition |}.

(** [_Partition_unpickle], after [parent] and [ipartition] have been
    rebuilt. *)
Definition _Partition_unpickle (parent : Region) (ipartition : Ipartition)
  : result Partition :=
  rbind (get_slot (r_handle parent)) (fun ph =>
  rbind (get_slot (ipart_handle ipartition)) (fun ih =>
  rbind (get_slot (r_fspace parent)) (fun fspace =>
  rbind (get_slot (f_handle fspace)) (fun fh =>
  Ok (Partition_init {| lp_tree_id := tree_id ph; index_partition := ih;
                        lp_field_space := fh |}
                     parent ipartition))))).

(** [Partition.destroy] *)
Definition Partition_destroy (self : Partition) : M Partition :=
  let* _ := get_ctx in
  let* h := lift (get_slot (part_handle self)) in
  let* _ := engine_call (legion_logical_partition_destroy h) in
  let* _ := lift (get_slot (part_parent self)) in
  let* _ := lift (get_slot (part_ipartition self)) in
  ret {| part_handle := None; part_parent := None;
         part_ipartition := None |}.

(** A point given as a [DomainPoint] or as raw coordinates:
    [if not isinstance(point, DomainPoint): point = DomainPoint.create(point)]. *)
Inductive PointArg : Type :=
| APoint (p : DomainPoint)
| ARawPoint (v : IntOrSeq).

(** An index space given as an [Ispace] or as a raw extent, a field space
    given as an [Fspace] or as a dictionary of fields. *)
Inductive IspaceArg : Type :=
| AnIspace (i : Ispace)
| ARawExtent (extent : IntOrSeq).

(** A field of the dictionary handed to [Fspace.create]: a type, or a
    pair of a type and a field id. *)
Definition FieldEntry : Type := (Type_ * option Z)%type.

Inductive FspaceArg : Type :=
| AnFspace (f : Fspace)
| ARawFields (fields : list (string * FieldEntry)).

(** [AUTO_GENERATE_ID] and its cast to the unsigned 32-bit
    [legion_field_id_t]. *)
Definition AUTO_GENERATE_ID : Z := -1.
Definition cast_field_id (z : Z) : Z := z mod 2 ^ 32.

Section Handles.

Variable engine : Engine.
Variable _max_dim : nat.

Definition as_point (point : PointArg) : result DomainPoint :=
  match point with
  | APoint p => Ok p
  | ARawPoint v => DomainPoint_create _max_dim v
  end.

(** [Ispace.create] *)
Definition Ispace_create (extent : IntOrSeq) (start : option IntOrSeq)
  : M Ispace :=
  let* domain := lift (Domain_create _max_dim extent start) in
  let* _ := get_ctx in
  let* trace := get_trace in
  let* _ := engine_call (legion_index_space_create_domain (d_handle domain)) in
  Ispace_init (index_space_create_domain_reply engine trace (d_handle domain))
              true.

(** One turn of the loop of [Fspace.create].  The field id is passed to
    [legion_field_allocator_allocate_field] as a [legion_field_id_t]: an
    explicit id that does not fit raises [OverflowError] there. *)
Definition Fspace_create_field (handle : legion_field_space_t)
  (acc : list (string * Z) * list (string * Type_))
  (item : string * FieldEntry) : M (list (string * Z) * list (string * Type_)) :=
  let field_name := fst item in
  let field_type := fst (snd item) in
  let field_id :=
    match snd (snd item) with
    | Some i => i
    | None => cast_field_id AUTO_GENERATE_ID
    end in
  let* field_id := lift (pass_uint32 field_id) in
  let* trace := get_trace in
  let* _ := engine_call (legion_field_allocator_allocate_field
                           handle (Type_size field_type) field_id) in
  let field_id :=
    allocate_field_reply engine trace handle (Type_size field_type) field_id in
  let* _ := get_ctx in
  let* _ := engine_call (legion_field_id_attach_name handle field_id field_name) in
  ret (dict_set field_name field_id (fst acc),
       dict_set field_name field_type (snd acc)).

(** [Fspace.create] *)
Definition Fspace_create (fields : list (string * FieldEntry)) : M Fspace :=
  let* _ := get_ctx in
  let* trace := get_trace in
  let* _ := engine_call legion_field_space_create in
  let handle := field_space_create_reply engine trace in
  let* _ := get_ctx in
  let* _ := engine_call (legion_field_allocator_create handle) in
  let* dicts := foldM (Fspace_create_field handle) fields ([], []) in
  let* _ := engine_call (legion_field_allocator_destroy handle) in
  Fspace_init handle (fst dicts) (snd dicts) true.

(** [Region.create] *)
Definition Region_create (ispace : IspaceArg) (fspace : FspaceArg) : M Region :=
  let* ispace :=
    match ispace with
    | AnIspace i => ret i
    | ARawExtent extent => Ispace_create extent None
    end in
  let* fspace :=
    match fspace with
    | AnFspace f => ret f
    | ARawFields fields => Fspace_create fields
    end in
  let* _ := get_ctx in
  let* ih := lift (get_slot (i_handle ispace)) in
  let* fh := lift (get_slot (f_handle fspace)) in
  let* trace := get_trace in
  let* _ := engine_call (legion_logical_region_create ih fh) in
  Region_init (logical_region_create_reply engine trace ih fh)
              ispace fspace None true.

(** [Ipartition.__getitem__] *)
Definition Ipartition_getitem (self : Ipartition) (point : PointArg)
  : M Ispace :=
  let* point := lift (as_point point) in
  let* _ := get_ctx in
  let* h := lift (get_slot (ipart_handle self)) in
  let* trace := get_trace in
  let* _ := engine_call
              (legion_index_partition_get_index_subspace_domain_point
                 h (dp_handle point)) in
  Ispace_init (index_subspace_reply engine trace h (dp_handle point)) false.

(** [Partition.__getitem__] *)
Definition Partition_getitem (self : Partition) (point : PointArg)
  : M Region :=
  let* point := lift (as_point point) in
  let* ipartition := lift (get_slot (part_ipartition self)) in
  let* subspace := Ipartition_getitem ipartition (APoint point) in
  let* _ := get_ctx in
  let* h := lift (get_slot (part_handle self)) in
  let* trace := get_trace in
  let* _ := engine_call
              (legion_logical_partition_get_logical_subregion_by_color_domain_point
                 h (dp_handle point)) in
  let subregion := logical_subregion_reply engine trace h (dp_handle point) in
  let* parent := lift (get_slot (part_parent self)) in
  let* fspace := lift (get_slot (r_fspace parent)) in
  let* grandparent := lift (get_slot (r_parent parent)) in
  Region_init subregion subspace fspace
              (Some (match grandparent with
                     | Some g => g
                     | None => parent
                     end))
              false.

End Handles.

(** ** Reconstruction across processes

    What a rebuilt wrapper shares with the original: the identifying
    fields of the engine handle (and the field dictionaries of a field
    space), with [owned] re-derived as [owned and escaped] and [escaped]
    reset. *)

Definition Ispace_rebuilt (H H' : Ispace) : Prop :=
  i_handle H' = i_handle H /\
  i_owned H' = i_owned H && i_escaped H /\
  i_escaped H' = false.

Definition Fspace_rebuilt (H H' : Fspace) : Prop :=
  f_handle H' = f_handle H /\
  field_ids H' = field_ids H /\
  field_types H' = field_types H /\
  f_owned H' = f_owned H && f_escaped H /\
  f_escaped H' = false.

Definition Region_rebuilt (H H' : Region) : Prop :=
  exists h h' I I' F F',
    r_handle H = Some h /\ r_handle H' = Some h' /\
    r_ispace H = Some I /\ r_ispace H' = Some I' /\
    r_fspace H = Some F /\ r_fspace H' = Some F' /\
    tree_id h' = tree_id h /\
    Some (index_space h') = i_handle I /\
    Some (field_space h') = f_handle F /\
    Ispace_rebuilt I I' /\ Fspace_rebuilt F F' /\
    r_owned H' = r_owned H && r_escaped H /\
    r_escaped H' = false.

(** A wrapper built with [owned=True] registers itself with [_my.ctx]:
    that needs a context. *)
Definition can_track (s : State) (owned : bool) : Prop :=
  owned = true -> my_ctx s <> None.

Definition Ispace_live (H : Ispace) : Prop := i_handle H <> None.

Definition Fspace_live (H : Fspace) : Prop :=
  f_handle H <> None /\ field_ids H <> None /\ field_types H <> None.

Definition Region_live (H : Region) : Prop :=
  r_handle H <> None /\
  (exists I, r_ispace H = Some I /\ Ispace_live I) /\
  (exists F, r_fspace H = Some F /\ Fspace_live F).

(** ** Sample objects *)

Definition sample_context : Context := Context_init 1 2 3 [].

(** Outside a task body: no context. *)
Definition state_without_context : State :=
  {| my_ctx := None; next_legion_task_id := 100;
     global_task_registration_barrier := None;
     engine_calls := []; next_oid := 0 |}.

(** Inside a task body. *)
Definition state_in_task : State :=
  {| my_ctx := Some sample_context; next_legion_task_id := 100;
     global_task_registration_barrier := None;
     engine_calls := []; next_oid := 10 |}.

Definition sample_index_space : legion_index_space_t :=
  {| is_tid := 4; is_id := 7; is_type_tag := 257 |}.

Definition sample_ispace (owned escaped : bool) : Ispace :=
  {| i_oid := 1; i_handle := Some sample_index_space;
     i_owned := owned; i_escaped := escaped |}.

Definition sample_fspace (owned escaped : bool) : Fspace :=
  {| f_oid := 2; f_handle := Some {| fs_id := 5 |};
     field_ids := Some [("x"%string, 1001); ("y"%string, 1002)];
     field_types := Some [("x"%string, float64); ("y"%string, int64)];
     f_owned := owned; f_escaped := escaped |}.

Definition sample_logical_region : legion_logical_region_t :=
  {| tree_id := 9; index_space := sample_index_space;
     field_space := {| fs_id := 5 |} |}.

Definition sample_region (owned escaped : bool) : Region :=
  {| r_oid := 3; r_handle := Some sample_logical_region;
     r_ispace := Some (sample_ispace true false);
     r_fspace := Some (sample_fspace true false);
     r_parent := Some None; instances := Some ∅;
     privileges := if owned
                   then {[ "x"%string := RW; "y"%string := RW ]}
                   else ∅;
     instance_wrappers := Some ∅;
     r_owned := owned; r_escaped := escaped |}.

(** ** Handles in general *)

(** The five classes with a [destroy] method. *)
Inductive Handle : Type :=
| HIspace (i : Ispace)
| HFspace (f : Fspace)
| HRegion (r : Region)
| HIpartition (p : Ipartition)
| HPartition (p : Partition).

(** [h.destroy()] *)
Definition Handle_destroy (h : Handle) : M Handle :=
  match h with
  | HIspace i => let* i' := Ispace_destroy i in ret (HIspace i')
  | HFspace f => let* f' := Fspace_destroy f in ret (HFspace f')
  | HRegion r => let* r' := Region_destroy r in ret (HRegion r')
  | HIpartition p => let* p' := Ipartition_destroy p in ret (HIpartition p')
  | HPartition p => let* p' := Partition_destroy p in ret (HPartition p')
  end.

(** The [owned] and [escaped] slots of a handle; the partition classes
    have neither. *)
Definition Handle_owned (h : Handle) : option bool :=
  match h with
  | HIspace i => Some (i_owned i)
  | HFspace f => Some (f_owned f)
  | HRegion r => Some (r_owned r)
  | HIpartition _ | HPartition _ => None
  end.

Definition Handle_escaped (h : Handle) : option bool :=
  match h with
  | HIspace i => Some (i_escaped i)
  | HFspace f => Some (f_escaped f)
  | HRegion r => Some (r_escaped r)
  | HIpartition _ | HPartition _ => None
  end.

(** No slot of the wrapper has been deleted. *)
Definition Handle_live (h : Handle) : Prop :=
  match h with
  | HIspace i => i_handle i <> None
  | HFspace f =>
      f_handle f <> None /\ field_ids f <> None /\ field_types f <> None
  | HRegion r =>
      r_handle r <> None /\ r_parent r <> None /\
      instance_wrappers r <> None /\ instances r <> None /\
      r_ispace r <> None /\ r_fspace r <> None
  | HIpartition p =>
      ipart_handle p <> None /\ ipart_parent p <> None /\
      ipart_color_space p <> None
  | HPartition p =>
      part_handle p <> None /\ part_parent p <> None /\
      part_ipartition p <> None
  end.

(** The engine call that releases the resource of a handle. *)
Definition destroy_call (h : Handle) : option EngineCall :=
  match h with
  | HIspace i => legion_index_space_destroy <$> i_handle i
  | HFspace f => legion_field_space_destroy <$> f_handle f
  | HRegion r => legion_logical_region_destroy <$> r_handle r
  | HIpartition p => legion_index_partition_destroy <$> ipart_handle p
  | HPartition p => legion_logical_partition_destroy <$> part_handle p
  end.

(** [m] raises in state [s] and leaves the state as it was. *)
Definition fails {A} (m : M A) (s : State) : Prop :=
  exists e, m s = (Raise e, s).

Definition sample_ipartition : Ipartition :=
  {| ipart_handle := Some {| ip_id := 11; ip_tid := 4; ip_type_tag := 257 |};
     ipart_parent := Some (sample_ispace true false);
     ipart_color_space := Some (sample_ispace false false) |}.

(** An engine that numbers what it creates by the length of the trace. *)
Definition sample_engine : Engine :=
  {| index_space_create_domain_reply := fun trace _ =>
       {| is_tid := Z.of_nat (length trace); is_id := Z.of_nat (length trace);
          is_type_tag := 257 |};
     field_space_create_reply := fun trace =>
       {| fs_id := Z.of_nat (length trace) |};
     allocate_field_reply := fun trace _ _ requested =>
       if requested =? cast_field_id AUTO_GENERATE_ID
       then 1000 + Z.of_nat (length trace)
       else requested;
     logical_region_create_reply := fun trace i f =>
       {| tree_id := Z.of_nat (length trace); index_space := i;
          field_space := f |};
     index_subspace_reply := fun trace h _ =>
       {| is_tid := ip_tid h; is_id := Z.of_nat (length trace);
          is_type_tag := ip_type_tag h |};
     logical_subregion_reply := fun trace h _ =>
       {| tree_id := lp_tree_id h;
          index_space :=
            {| is_tid := ip_tid (index_partition h);
               is_id := Z.of_nat (length trace);
               is_type_tag := ip_type_tag (index_partition h) |};
          field_space := lp_field_space h |};
     task_get_future_reply := fun _ n => {| payload := Z.of_nat n |};
     future_copy_reply := fun _ h => h;
     argument_map_create_reply := fun trace => Z.of_nat (length trace);
     index_launcher_execute_reply := fun trace => Z.of_nat (length trace);
     future_map_copy_reply := fun _ h => h |}.

Definition sample_fields : list (string * FieldEntry) :=
  [("x"%string, (float64, None)); ("y"%string, (int64, Some 7))].

Definition sample_partition : Partition :=
  {| part_handle :=
       Some {| lp_tree_id := 9;
               index_partition :=
                 {| ip_id := 11; ip_tid := 4; ip_type_tag := 257 |};
               lp_field_space := {| fs_id := 5 |} |};
     part_parent := Some (sample_region true false);
     part_ipartition := Some sample_ipartition |}.

(** ** Futures *)

(** [class Future].  [fut_handle] is [None] while the future is not
    resolved (the slot holds Python's [None]). *)
Record Future : Type := {
  fut_oid : nat;
  fut_handle : option legion_future_t;
  value_type : option Type_;
  argument_number : option nat
}.


(** [Future.__init__] with [value=None]: the branch that
    [Future.__reduce__], [Future.from_cdata] and [Future.from_buffer]
    use. *)
Definition Future_init_None (value_type : option Type_)
  (argument_number : option nat) : M Future :=
  let* oid := new_object in
  ret {| fut_oid := oid; fut_handle := None;
         value_type := value_type; argument_number := argument_number |}.

(** [Future.__reduce__] *)
Definition Future_reduce (self : Future) : result PFuture :=
  match argument_number self with
  | None =>
      Raise (PyException
               "Cannot pickle a Future except when used as a task argument")
  | Some n =>
      Ok {| p_value_type := Type_reduce <$> value_type self;
            p_argument_number := n |}
  end.

(** Rebuilding a Future from its pickle: [Future(None, value_type,
    argument_number)], after the value type has been rebuilt. *)
Definition Future_loads (p : PFuture) : M Future :=
  let* vt := lift (match p_value_type p with
                   | None => Ok None
                   | Some t => rbind (Type_loads t) (fun t => Ok (Some t))
                   end) in
  Future_init_None vt (Some (p_argument_number p)).

(** The value that the engine future behind a Future holds. *)
Definition Future_value (f : Future) : option Z := payload <$> fut_handle f.

(** ** Tasks and registration *)

(** The function a task wraps: its module, and what [get_qualname] makes
    of it (the components of its qualified name, or an exception). *)
Record TaskBody : Type := {
  body_module : string;
  body_qualname : result (list string)
}.

Record Task : Type := {
  t_oid : nat;
  body : TaskBody;
  t_privileges : option (list Privilege);
  return_type : option Type_;
  leaf : bool;
  inner : bool;
  idempotent : bool;
  replicable : bool;
  calling_convention : string;
  argument_struct : option string;
  task_id : option Z
}.

Definition Task_with_task_id (self : Task) (id : option Z) : Task :=
  {| t_oid := t_oid self; body := body self;
     t_privileges := t_privileges self; return_type := return_type self;
     leaf := leaf self; inner := inner self; idempotent := idempotent self;
     replicable := replicable self;
     calling_convention := calling_convention self;
     argument_struct := argument_struct self; task_id := id |}.

(** [self.task_id] *)
Definition Task_task_id (self : Task) : option Z := task_id self.

(** [not task_id]: true of [None] and of [0]. *)
Definition no_task_id (task_id : option Z) : bool :=
  match task_id with
  | None => true
  | Some z => z =? 0
  end.

(** [next_legion_task_id += 1] and
    [global_task_registration_barrier = ...] *)
Definition set_next_legion_task_id (z : Z) : M unit :=
  fun s => (Ok tt, {| my_ctx := my_ctx s;
                      next_legion_task_id := z;
                      global_task_registration_barrier :=
                        global_task_registration_barrier s;
                      engine_calls := engine_calls s;
                      next_oid := next_oid s |}).

Definition set_barrier (b : option legion_phase_barrier_t) : M unit :=
  fun s => (Ok tt, {| my_ctx := my_ctx s;
                      next_legion_task_id := next_legion_task_id s;
                      global_task_registration_barrier := b;
                      engine_calls := engine_calls s;
                      next_oid := next_oid s |}).

Definition get_next_legion_task_id : M Z :=
  fun s => (Ok (next_legion_task_id s), s).

Definition get_barrier : M (option legion_phase_barrier_t) :=
  fun s => (Ok (global_task_registration_barrier s), s).

(** Modelled from the spec: the engine's [legion_phase_barrier_advance],
    which is not part of the binding's source: the handle of the next
    generation of the same barrier. *)
Definition phase_barrier_advance (b : legion_phase_barrier_t)
  : legion_phase_barrier_t :=
  {| pb_id := pb_id b; pb_generation := S (pb_generation b) |}.

(** The block [if global_task_registration_barrier is not None: arrive;
    advance; wait] of [Task.register]. *)
Definition barrier_phase : M unit :=
  let* barrier := get_barrier in
  match barrier with
  | None => ret tt
  | Some b =>
      let* _ := get_ctx in
      let* _ := engine_call (legion_phase_barrier_arrive b 1) in
      let* _ := get_ctx in
      let* _ := engine_call (legion_phase_barrier_advance b) in
      let* _ := set_barrier (Some (phase_barrier_advance b)) in
      let* _ := get_ctx in
      engine_call (legion_phase_barrier_wait (phase_barrier_advance b))
  end.

Definition task_options (self : Task) : legion_task_config_options_t :=
  {| opt_leaf := leaf self; opt_inner := inner self;
     opt_idempotent := idempotent self; opt_replicable := replicable self |}.

Section Registration.

(** [max_legion_task_id = next_legion_task_id + max_legion_python_tasks],
    computed once when the module is loaded. *)
Variable max_legion_task_id : Z.

(** [Task.register].  The arguments of the registration call are
    evaluated first, [legion_runtime_get_runtime()] among them; the task
    id is passed as a [legion_task_id_t], so that one that does not fit
    raises [OverflowError] before the engine registers anything. *)
Definition Task_register (self : Task) (task_id : option Z)
  (top_level_task : bool) : M Task :=
  let* _ := lift (py_assert (bool_decide (Task_task_id self = None))) in
  let* task_id :=
    if no_task_id task_id then
      if negb top_level_task then
        let* id := get_next_legion_task_id in
        let* _ := set_next_legion_task_id (id + 1) in
        let* _ := lift (py_assert (id <? max_legion_task_id)) in
        ret id
      else ret 1
    else ret (default 0 task_id) in
  let* _ := engine_call legion_execution_constraint_set_create in
  let* _ := engine_call
              legion_execution_constraint_set_add_processor_constraint in
  let* _ := engine_call legion_task_layout_constraint_set_create in
  let* qualname := lift (body_qualname (body self)) in
  let task_name :=
    (body_module (body self) ++ "." ++ String.concat "." qualname)%string in
  let* _ := barrier_phase in
  let* _ := engine_call legion_runtime_get_runtime in
  let* task_id := lift (pass_uint32 task_id) in
  let* _ := engine_call
              (legion_runtime_register_task_variant_python_source_qualname
                 task_id
                 (if top_level_task then Some task_name else None)
                 top_level_task (task_options self)
                 (body_module (body self)) qualname) in
  let* _ := barrier_phase in
  let* _ := engine_call legion_execution_constraint_set_destroy in
  let* _ := engine_call legion_task_layout_constraint_set_destroy in
  ret (Task_with_task_id self (Some task_id)).

(** [Task.__init__] *)
Definition Task_init (body : TaskBody) (privileges : option (list (option Privilege)))
  (return_type : option Type_) (leaf inner idempotent replicable : bool)
  (register : bool) (task_id : option Z) (top_level : bool) : M Task :=
  let* oid := new_object in
  let self :=
    {| t_oid := oid; body := body;
       t_privileges := map (fun x => default N x) <$> privileges;
       return_type := return_type;
       leaf := leaf; inner := inner; idempotent := idempotent;
       replicable := replicable;
       calling_convention := "python"; argument_struct := None;
       task_id := None |} in
  if register then Task_register self task_id top_level else ret self.

(** One registration, whatever its arguments and its outcome. *)
Definition registration_step (s s' : State) : Prop :=
  exists self task_id top_level,
    s' = snd (Task_register self task_id top_level s).

End Registration.

(** The identifier that [Task.register] settles on. *)
Definition assigned_task_id (s : State) (task_id : option Z)
  (top_level_task : bool) : Z :=
  if no_task_id task_id then
    if negb top_level_task then next_legion_task_id s else 1
  else default 0 task_id.

(** The registration takes its identifier from the counter. *)
Definition from_counter (task_id : option Z) (top_level_task : bool) : bool :=
  no_task_id task_id && negb top_level_task.

(** The engine calls of one arrive, advance, wait on the barrier. *)
Definition barrier_calls (barrier : option legion_phase_barrier_t)
  : list EngineCall :=
  match barrier with
  | None => []
  | Some b =>
      [legion_phase_barrier_arrive b 1;
       legion_phase_barrier_advance b;
       legion_phase_barrier_wait (phase_barrier_advance b)]
  end.

Definition register_call (self : Task) (id : Z) (top_level_task : bool)
  (qualname : list string) : EngineCall :=
  legion_runtime_register_task_variant_python_source_qualname
    id
    (if top_level_task
     then Some (body_module (body self) ++ "." ++ String.concat "." qualname)%string
     else None)
    top_level_task (task_options self) (body_module (body self)) qualname.

(** The engine calls of one successful registration. *)
Definition registration_calls (barrier : option legion_phase_barrier_t)
  (self : Task) (id : Z) (top_level_task : bool) (qualname : list string)
  : list EngineCall :=
  [legion_execution_constraint_set_create;
   legion_execution_constraint_set_add_processor_constraint;
   legion_task_layout_constraint_set_create]
  ++ barrier_calls barrier
  ++ [legion_runtime_get_runtime;
      register_call self id top_level_task qualname]
  ++ barrier_calls (phase_barrier_advance <$> barrier)
  ++ [legion_execution_constraint_set_destroy;
      legion_task_layout_constraint_set_destroy].

(** What [Task.register] needs in order not to raise. *)
Definition can_register (max_legion_task_id : Z) (self : Task)
  (task_id : option Z) (top_level_task : bool) (s : State) : bool :=
  bool_decide (Task_task_id self = None)
  && is_ok (body_qualname (body self))
  && (negb (from_counter task_id top_level_task)
      || (next_legion_task_id s <? max_legion_task_id))
  && uint32_ok (assigned_task_id s task_id top_level_task)
  && (bool_decide (global_task_registration_barrier s = None)
      || bool_decide (my_ctx s <> None)).

(** The state that a successful registration leaves. *)
Definition registered_state (self : Task) (task_id : option Z)
  (top_level_task : bool) (qualname : list string) (s : State) : State :=
  {| my_ctx := my_ctx s;
     next_legion_task_id :=
       if from_counter task_id top_level_task
       then next_legion_task_id s + 1 else next_legion_task_id s;
     global_task_registration_barrier :=
       phase_barrier_advance <$>
         (phase_barrier_advance <$> global_task_registration_barrier s);
     engine_calls :=
       engine_calls s
       ++ registration_calls (global_task_registration_barrier s) self
            (assigned_task_id s task_id top_level_task) top_level_task
            qualname;
     next_oid := next_oid s |}.

Definition sample_body : TaskBody :=
  {| body_module := "app"; body_qualname := Ok ["main"%string; "step"%string] |}.

(** A task that has not been registered yet. *)
Definition sample_task (oid : nat) : Task :=
  {| t_oid := oid; body := sample_body; t_privileges := None;
     return_type := None; leaf := false; inner := false;
     idempotent := false; replicable := false;
     calling_convention := "python"; argument_struct := None;
     task_id := None |}.

(** [max_legion_python_tasks] *)
Definition max_legion_python_tasks : Z := 1000000.

(** ** Index launches *)

(** The names bound at the top level of the module [legion.py]. *)
Definition module_globals : list string :=
  ["absolute_import"; "division"; "print_function"; "unicode_literals";
   "cffi"; "pickle"; "collections"; "itertools"; "math"; "numpy"; "os";
   "re"; "subprocess"; "sys"; "threading"; "weakref";
   "long"; "xrange"; "imap"; "zip_longest"; "_pickle_version"; "_max_dim";
   "find_legion_header"; "prefix_dir"; "legion_h_path"; "header"; "ffi"; "c";
   "AUTO_GENERATE_ID"; "library_name"; "max_legion_python_tasks";
   "next_legion_task_id"; "max_legion_task_id"; "inside_legion_executable";
   "input_args"; "_my"; "global_task_registration_barrier"; "Context";
   "_DomainPoint_unpickle"; "DomainPoint"; "Domain"; "Future"; "FutureMap";
   "Type"; "void"; "float16"; "float32"; "float64"; "int8"; "int16";
   "int32"; "int64"; "uint8"; "uint16"; "uint32"; "uint64";
   "Privilege"; "PrivilegeFields"; "N"; "R"; "RO"; "RW"; "WD";
   "_Ispace_unpickle"; "Ispace"; "_Fspace_unpickle"; "Fspace";
   "_Region_unpickle"; "Region"; "RegionField"; "_RegionNdarray"; "fill";
   "_Ipartition_unpickle"; "Ipartition"; "_Partition_unpickle"; "Partition";
   "define_regent_argument_struct"; "ExternTask"; "extern_task";
   "get_qualname"; "Task"; "task"; "_TaskLauncher"; "_IndexLauncher";
   "TaskLaunch"; "_IndexValue"; "_FuturePoint"; "IndexLaunch";
   "_dummy_task"; "execution_fence"; "Tunable"; "execute_as_script";
   "is_legion_python"; "is_script"; "run_path"; "legion_main"]%string.

(** Reading a name that is not a local variable: it is looked up among
    the module's globals (no builtin is called [ispace]). *)
Definition lookup_global (name : string) : result unit :=
  if bool_decide (name ∈ module_globals) then Ok tt else Raise NameError.

(** [class _IndexValue]: the loop cursor of an index launch. *)
Record _IndexValue : Type := {
  iv_value : option DomainPoint
}.

(** A positional argument of a task. *)
Inductive Arg : Type :=
| ArgNone
| ArgValue (v : Z)
| ArgPoint (p : DomainPoint)
| ArgIndexValue (i : _IndexValue)
| ArgRegion (r : Region)
| ArgRegionField (f : RegionField)
| ArgFuture (f : Future).

(** [class _IndexLauncher]; [local_args] is the handle of the engine's
    argument map, [future_map] that of the future map of the launch. *)
Record _IndexLauncher : Type := {
  il_task : Task;
  il_domain : Domain;
  local_args : Z;
  future_args : list Future;
  future_map : option Z
}.

Record IndexLaunch : Type := {
  launch_oid : nat;
  launch_domain : Domain;
  launcher : option _IndexLauncher;
  point : option _IndexValue;
  saved_task : option Task;
  saved_args : option (list Arg)
}.

(** [class _FuturePoint] *)
Record _FuturePoint : Type := {
  fp_launch : nat;
  fp_point : option DomainPoint;
  fp_future : option Future
}.

(** What [IndexLaunch] is built from: a Domain, an Ispace, or anything
    else, handed to [Domain.create]. *)
Inductive LaunchDomain : Type :=
| OfDomain (d : Domain)
| OfIspace (i : Ispace)
| OfExtent (extent : IntOrSeq).

Definition IndexLaunch_with_saved (self : IndexLaunch)
  (t : option Task) (a : option (list Arg)) : IndexLaunch :=
  {| launch_oid := launch_oid self; launch_domain := launch_domain self;
     launcher := launcher self; point := point self;
     saved_task := t; saved_args := a |}.

Definition IndexLaunch_with_launcher (self : IndexLaunch)
  (l : option _IndexLauncher) : IndexLaunch :=
  {| launch_oid := launch_oid self; launch_domain := launch_domain self;
     launcher := l; point := point self;
     saved_task := saved_task self; saved_args := saved_args self |}.

(** [task != self.saved_task]: tasks define no [__eq__], they are compared
    by identity. *)
Definition Task_ne (t u : Task) : bool := negb (t_oid t =? t_oid u)%nat.

(** [arg != saved_arg] for a Future [arg]: Future defines no [__eq__], so
    the comparison is by identity; [saved_arg] is [None] where
    [zip_longest] has padded the shorter tuple. *)
Definition Future_ne (arg : Future) (saved_arg : option Arg) : bool :=
  match saved_arg with
  | Some (ArgFuture g) => negb (fut_oid arg =? fut_oid g)%nat
  | _ => true
  end.

(** [zip_longest(args, saved)] *)
Fixpoint zip_longest {A B} (l : list A) (k : list B)
  : list (option A * option B) :=
  match l with
  | [] => map (fun y => (None, Some y)) k
  | x :: l' =>
      match k with
      | [] => (Some x, None) :: zip_longest l' []
      | y :: k' => (Some x, Some y) :: zip_longest l' k'
      end
  end.

(** One turn of the loop of [check_compatibility]. *)
Definition check_argument (pair : option Arg * option Arg) : result unit :=
  match fst pair with
  | Some (ArgRegion _) | Some (ArgRegionField _) =>
      Raise (PyException "TODO: Support region arguments to an IndexLaunch")
  | Some (ArgFuture f) =>
      if Future_ne f (snd pair)
      then Raise (PyException
                    "Future argument to IndexLaunch does not match previous value at this position")
      else Ok tt
  | _ => Ok tt
  end.

(** [IndexLaunch.check_compatibility]: the launch as the call leaves it,
    and the outcome. *)
Definition check_compatibility (self : IndexLaunch) (task : Task)
  (args : list Arg) : IndexLaunch * result unit :=
  let saved_task' := default task (saved_task self) in
  let self1 := IndexLaunch_with_saved self (Some saved_task') (saved_args self) in
  if Task_ne task saved_task' then
    (self1, Raise (PyException
                     "An IndexLaunch may contain only one task launch"))
  else
    let saved_args' := default args (saved_args self) in
    let self2 := IndexLaunch_with_saved self (Some saved_task') (Some saved_args') in
    (self2,
     rbind (rmapM check_argument (zip_longest args saved_args'))
           (fun _ => Ok tt)).

Definition Future_value_type (self : Future) : option Type_ :=
  value_type self.

Definition Future_with_handle (self : Future) (h : option legion_future_t)
  : Future :=
  {| fut_oid := fut_oid self; fut_handle := h;
     value_type := value_type self;
     argument_number := argument_number self |}.

(** Pickling one argument. *)
Definition pickle_arg (arg : Arg) : result PArg :=
  match arg with
  | ArgNone => Ok PNone
  | ArgValue v => Ok (PValue v)
  | ArgPoint p => Ok (PPoint (point_data (dp_handle p)))
  | ArgIndexValue i =>
      Ok (match iv_value i with
          | Some p => PPoint (point_data (dp_handle p))
          | None => PNone
          end)
  | ArgRegion r =>
      rbind (Region_reduce r) (fun p => Ok (PRegionArg p))
  | ArgRegionField f => Ok (PRegionFieldArg (rf_field_name f))
  | ArgFuture f =>
      rbind (Future_reduce f) (fun p => Ok (PFutureArg p))
  end.

Section Launch.

Variable engine : Engine.
Variable _max_dim : nat.

(** [Future.resolve_handle] *)
Definition Future_resolve_handle (self : Future) : M Future :=
  match fut_handle self, argument_number self with
  | None, Some n =>
      let* ctx := get_ctx in
      let* trace := get_trace in
      let* _ := engine_call (legion_task_get_future n) in
      let h := task_get_future_reply engine trace n in
      let* trace := get_trace in
      let* _ := engine_call (legion_future_copy h) in
      ret (Future_with_handle self (Some (future_copy_reply engine trace h)))
  | _, _ => ret self
  end.

(** [Future.__init__] with a Future as [value]: a copy. *)
Definition Future_init_copy (value : Future) (value_type : option Type_)
  (argument_number : option nat) : M Future :=
  let* oid := new_object in
  let* value := Future_resolve_handle value in
  match fut_handle value with
  | None => raise TypeError
  | Some h =>
      let* trace := get_trace in
      let* _ := engine_call (legion_future_copy h) in
      ret {| fut_oid := oid;
             fut_handle := Some (future_copy_reply engine trace h);
             value_type := match value_type with
                           | None => Future_value_type value
                           | Some t => Some t
                           end;
             argument_number := argument_number |}
  end.

(** [IndexLaunch.__init__].  The Ispace branch reads the name [ispace],
    which is neither a parameter nor a local variable of [__init__]. *)
Definition IndexLaunch_init (domain : LaunchDomain) : M IndexLaunch :=
  let* oid := new_object in
  let* d :=
    match domain with
    | OfDomain d => ret d
    | OfIspace _ =>
        let* _ := lift (lookup_global "ispace") in
        raise AttributeError
    | OfExtent extent => lift (Domain_create _max_dim extent None)
    end in
  ret {| launch_oid := oid; launch_domain := d; launcher := None;
         point := None; saved_task := None; saved_args := None |}.

(** [_TaskLauncher.preprocess_args]: only [_IndexValue] has a
    [_legion_preprocess_task_argument], which returns its value. *)
Definition preprocess_args (args : list Arg) : list Arg :=
  map (fun arg =>
         match arg with
         | ArgIndexValue i =>
             match iv_value i with
             | Some p => ArgPoint p
             | None => ArgNone
             end
         | _ => arg
         end) args.

(** [_TaskLauncher.gather_futures] *)
Definition gather_futures (args : list Arg) : M (list Arg * list Future) :=
  foldM (fun acc arg =>
           match arg with
           | ArgFuture f =>
               let* f' := Future_init_copy f None
                            (Some (length (snd acc))) in
               ret (fst acc ++ [ArgFuture f'], snd acc ++ [f'])
           | _ => ret (fst acc ++ [arg], snd acc)
           end)
        args ([], []).

(** [_TaskLauncher.encode_args] for a [Task]: its [argument_struct] slot
    holds [None], which the regent branch would call. *)
Definition encode_args (task : Task) (args : list Arg) : result TaskArgument :=
  if bool_decide (calling_convention task = "python"%string) then
    rbind (rmapM pickle_arg args) (fun p => Ok (PickledArgs p))
  else if bool_decide (calling_convention task = "regent"%string) then
    Raise TypeError
  else Ok NullArgs.

(** [IndexLaunch.ensure_launcher] *)
Definition ensure_launcher (self : IndexLaunch) (task : Task)
  : M IndexLaunch :=
  match launcher self with
  | Some _ => ret self
  | None =>
      let* trace := get_trace in
      let* _ := engine_call legion_argument_map_create in
      ret (IndexLaunch_with_launcher self
             (Some {| il_task := task; il_domain := launch_domain self;
                      local_args := argument_map_create_reply engine trace;
                      future_args := []; future_map := None |}))
  end.

(** [_IndexLauncher.attach_local_args] *)
Definition attach_local_args (l : _IndexLauncher) (index : option _IndexValue)
  (args : list Arg) : M unit :=
  let* task_args := lift (encode_args (il_task l) args) in
  let* index := lift (get_slot index) in
  let* value := lift (get_slot (iv_value index)) in
  engine_call (legion_argument_map_set_point (local_args l)
                 (dp_handle value) task_args).

(** What [IndexLaunch.spawn_task] does once [check_compatibility] has
    passed. *)
Definition attach_spawn (self : IndexLaunch) (args : list Arg)
  : M (IndexLaunch * _FuturePoint) :=
  let* l := lift (get_slot (launcher self)) in
  let args := preprocess_args args in
  let* gathered := gather_futures args in
  let* _ := attach_local_args l (point self) (fst gathered) in
  let l' := {| il_task := il_task l; il_domain := il_domain l;
               local_args := local_args l;
               future_args := snd gathered;
               future_map := future_map l |} in
  let* p := lift (get_slot (point self)) in
  ret (IndexLaunch_with_launcher self (Some l'),
       {| fp_launch := launch_oid self; fp_point := iv_value p;
          fp_future := None |}).

(** [IndexLaunch.spawn_task]: the launch as the call leaves it, the
    outcome, and the state. *)
Definition IndexLaunch_spawn_task (self : IndexLaunch) (task : Task)
  (args : list Arg) (s : State)
  : IndexLaunch * result _FuturePoint * State :=
  match ensure_launcher self task s with
  | (Raise e, s1) => (self, Raise e, s1)
  | (Ok self1, s1) =>
      match check_compatibility self1 task args with
      | (self2, Raise e) => (self2, Raise e, s1)
      | (self2, Ok _) =>
          match attach_spawn self2 args s1 with
          | (Raise e, s2) => (self2, Raise e, s2)
          | (Ok (self3, fp), s2) => (self3, Ok fp, s2)
          end
      end
  end.

End Launch.

(** The claim of the specification about futures in an index launch,
    read by value: a Future argument is refused when the value it holds
    differs from the value of the Future that the first spawn passed at
    that position. *)
Definition value_differs (pair : option Arg * option Arg) : Prop :=
  exists f g,
    pair = (Some (ArgFuture f), Some (ArgFuture g)) /\
    Future_value f <> Future_value g.

Definition is_region_arg (arg : Arg) : Prop :=
  exists r, arg = ArgRegion r.

Definition stated_rejection (self : IndexLaunch) (task : Task)
  (args : list Arg) : Prop :=
  (exists t, saved_task self = Some t /\ t_oid t <> t_oid task) \/
  Exists is_region_arg args \/
  Exists value_differs (zip_longest args (default args (saved_args self))).

(** The same, as the code has it: regions and region fields are refused,
    and a Future is refused unless the first spawn passed that very
    object at that position. *)
Definition is_region_like (arg : Arg) : Prop :=
  (exists r, arg = ArgRegion r) \/ (exists f, arg = ArgRegionField f).

Definition other_object (pair : option Arg * option Arg) : Prop :=
  exists f,
    fst pair = Some (ArgFuture f) /\
    forall g, snd pair = Some (ArgFuture g) -> fut_oid g <> fut_oid f.

Definition rejection (self : IndexLaunch) (task : Task) (args : list Arg)
  : Prop :=
  (exists t, saved_task self = Some t /\ t_oid t <> t_oid task) \/
  Exists is_region_like args \/
  Exists other_object (zip_longest args (default args (saved_args self))).

Definition new_launch (d : Domain) : IndexLaunch :=
  {| launch_oid := 20; launch_domain := d; launcher := None;
     point := None; saved_task := None; saved_args := None |}.

Definition sample_domain : Domain :=
  {| d_handle := {| dim := 1; rect_data := [0; 3] |} |}.

(** Two Future objects that hold the same value 7. *)
Definition future_seven (oid : nat) : Future :=
  {| fut_oid := oid; fut_handle := Some {| payload := 7 |};
     value_type := Some int64; argument_number := None |}.

(** ** Shards that register under the global barrier

    Under control replication every shard runs [Task.register] on its own
    copy of the module state; the shards meet only at the phase barrier of
    the engine.  A shard is the sequence of engine calls of its
    registration and the number of calls it has returned from. *)

Record Shard : Type := {
  program : list EngineCall;
  pc : nat
}.

Definition calls_made (sh : Shard) : list EngineCall :=
  take (pc sh) (program sh).

#[global] Instance legion_phase_barrier_t_eq_dec :
  EqDecision legion_phase_barrier_t.
Proof. solve_decision. Defined.

(** The generation that a wait on [b] waits for: the one before [b]. *)
Definition previous_generation (b : legion_phase_barrier_t)
  : option legion_phase_barrier_t :=
  match pb_generation b with
  | O => None
  | S g => Some {| pb_id := pb_id b; pb_generation := g |}
  end.

(** What a call adds to the arrival count of the generation [b]. *)
Definition arrival_count (b : legion_phase_barrier_t) (c : EngineCall) : Z :=
  match c with
  | legion_phase_barrier_arrive b' count =>
      if bool_decide (b' = b) then count else 0
  | _ => 0
  end.

Definition shard_arrivals (b : legion_phase_barrier_t) (sh : Shard) : Z :=
  fold_right Z.add 0 (map (arrival_count b) (calls_made sh)).

Definition arrivals (b : legion_phase_barrier_t) (w : list Shard) : Z :=
  fold_right Z.add 0 (map (shard_arrivals b) w).

(** Modelled from the spec: the phase barrier of the engine, which is not
    part of the binding's source.  A barrier is created for a number of
    participants; a generation is complete once that many arrivals have
    been counted; [legion_phase_barrier_wait] on a handle returns only
    when the generation before that handle is complete.  No other call
    blocks. *)
Definition may_return (participants : Z) (w : list Shard) (c : EngineCall)
  : Prop :=
  match c with
  | legion_phase_barrier_wait b =>
      match previous_generation b with
      | Some p => participants <= arrivals p w
      | None => True
      end
  | _ => True
  end.

(** One shard returns from its next call. *)
Inductive shard_step (participants : Z) : list Shard -> list Shard -> Prop :=
| shard_call (w : list Shard) (i : nat) (sh : Shard) (c : EngineCall) :
    w !! i = Some sh ->
    program sh !! pc sh = Some c ->
    may_return participants w c ->
    shard_step participants w
      (<[i := {| program := program sh; pc := S (pc sh) |}]> w).

Definition is_register_call (c : EngineCall) : bool :=
  match c with
  | legion_runtime_register_task_variant_python_source_qualname _ _ _ _ _ _ =>
      true
  | _ => false
  end.

(** The task identifier that a shard has registered so far, if any. *)
Definition registered_id (sh : Shard) : option Z :=
  head (omap (fun c =>
                match c with
                | legion_runtime_register_task_variant_python_source_qualname
                    id _ _ _ _ _ => Some id
                | _ => None
                end) (calls_made sh)).

Section Shards.

Variable max_legion_task_id : Z.

(** The engine calls that [Task.register] makes from the state [s]. *)
Definition shard_program (self : Task) (task_id : option Z)
  (top_level_task : bool) (s : State) : list EngineCall :=
  drop (length (engine_calls s))
       (engine_calls
          (snd (Task_register max_legion_task_id self task_id
                  top_level_task s))).

(** Every shard is about to register the same task, from its own state. *)
Definition start_shards (self : Task) (task_id : option Z)
  (top_level_task : bool) (states : list State) : list Shard :=
  map (fun s => {| program := shard_program self task_id top_level_task s;
                   pc := 0 |}) states.

End Shards.

(** A state in which the global barrier is set. *)
Definition state_with_barrier : State :=
  {| my_ctx := Some sample_context; next_legion_task_id := 100;
     global_task_registration_barrier :=
       Some {| pb_id := 77; pb_generation := 0 |};
     engine_calls := []; next_oid := 10 |}.

(** The shard has returned from a wait on the handle [b]; it has arrived
    at the generation [b]. *)
Definition is_wait (b : legion_phase_barrier_t) (c : EngineCall) : bool :=
  match c with
  | legion_phase_barrier_wait b' => bool_decide (b' = b)
  | _ => false
  end.

Definition waited (b : legion_phase_barrier_t) (sh : Shard) : bool :=
  existsb (is_wait b) (calls_made sh).

Definition arrived (b : legion_phase_barrier_t) (sh : Shard) : bool :=
  existsb (fun c => 0 <? arrival_count b c) (calls_made sh).

(** The shard runs the registration of [self] under the barrier [b], with
    the identifier that its state [s] assigns. *)
Definition registers_under (b : legion_phase_barrier_t) (self : Task)
  (task_id : option Z) (top_level_task : bool) (qualname : list string)
  (s : State) (sh : Shard) : Prop :=
  program sh
  = registration_calls (Some b) self
      (assigned_task_id s task_id top_level_task) top_level_task qualname.

(** What every reachable configuration of the shards satisfies: each shard
    runs its registration, and once some shard is past its second wait
    (eleven calls made) every shard is past its second arrival (nine calls
    made). *)
Definition barrier_invariant (b : legion_phase_barrier_t) (self : Task)
  (task_id : option Z) (top_level_task : bool) (qualname : list string)
  (states : list State) (w : list Shard) : Prop :=
  Forall2 (registers_under b self task_id top_level_task qualname) states w /\
  (Exists (fun sh => (11 <= pc sh)%nat) w ->
   Forall (fun sh => (9 <= pc sh)%nat) w).

(** Two shards in the same state, and the configuration in which the
    first has returned from its second wait while the second has only
    arrived. *)
Definition two_states : list State := [state_with_barrier; state_with_barrier].

Definition two_shards_late : list Shard :=
  [ {| program := shard_program (100 + max_legion_python_tasks)
                    (sample_task 1) None false state_with_barrier;
       pc := 11 |};
    {| program := shard_program (100 + max_legion_python_tasks)
                    (sample_task 1) None false state_with_barrier;
       pc := 9 |} ].

(** A shard whose counter is ahead: it has registered a hundred tasks
    more than [state_with_barrier]. *)
Definition state_ahead : State :=
  {| my_ctx := Some sample_context; next_legion_task_id := 200;
     global_task_registration_barrier :=
       Some {| pb_id := 77; pb_generation := 0 |};
     engine_calls := []; next_oid := 10 |}.

(** Two shards with different counters that have both returned from all
    the calls of their registration. *)
Definition two_shards_done : list Shard :=
  [ {| program := shard_program (100 + max_legion_python_tasks)
                    (sample_task 1) None false state_with_barrier;
       pc := 13 |};
    {| program := shard_program (100 + max_legion_python_tasks)
                    (sample_task 1) None false state_ahead;
       pc := 13 |} ].

(** * The rest of the module *)

(** ** Command-line arguments *)

(** The prefixes of the engine's runtime options. *)
Definition runtime_prefixes : list string :=
  ["-lg:"; "-hl:"; "-realm:"; "-ll:"; "-cuda:"; "-numa:"; "-dm:";
   "-bishop:"]%string.

(** The test [match] of the loop of [input_args]. *)
Definition is_runtime_option (arg : string) : bool :=
  existsb (fun prefix => String.prefix prefix arg) runtime_prefixes
  || String.eqb arg "-level" || String.eqb arg "-logfile".

(** The outcome of filtering: the arguments kept, or the [IndexError] of
    the second [args.pop(i)] when nothing follows an option. *)
Inductive Filtered : Type :=
| Kept (args : list string)
| PopIndexError.

Definition keep (arg : string) (f : Filtered) : Filtered :=
  match f with
  | Kept args => Kept (arg :: args)
  | PopIndexError => PopIndexError
  end.

(** The [while i < len(args)] loop of [input_args], on [args[i:]]: the
    loop never looks at [args[:i]] again. *)
Fixpoint filter_from (rest : list string) : Filtered :=
  match rest with
  | [] => Kept []
  | arg :: rest' =>
      if is_runtime_option arg then
        match rest' with
        | [] => PopIndexError
        | _ :: rest'' => filter_from rest''
        end
      else keep arg (filter_from rest')
  end.

(** [input_args], given the argument vector that the engine hands out. *)
Definition input_args (raw_args : list string) (filter_runtime_options : bool)
  : Filtered :=
  if filter_runtime_options then
    match raw_args with
    | [] => Kept []
    | program :: rest => keep program (filter_from rest)
    end
  else Kept raw_args.

(** ** Privileges and points *)

(** [Privilege._legion_privilege] *)
Definition Privilege_legion_privilege (self : Privilege) : result Z :=
  let bits := 0 in
  if discard self then
    rbind (py_assert (write self)) (fun _ => Ok (Z.lor bits 2))
  else if write self then Ok 7
  else if read self then Ok 1
  else Ok bits.

(** [Privilege.__call__]: [PrivilegeFields(self, fields)] *)
Definition Privilege_call (self : Privilege) (fields : list string)
  : Privilege :=
  {| read := read self; write := write self; discard := discard self;
     fields := Some fields |}.

(** [DomainPoint.__reduce__]: the argument of [_DomainPoint_unpickle]. *)
Definition DomainPoint_reduce (self : DomainPoint) : list Z :=
  point_data (dp_handle self).

(** [DomainPoint.__getitem__] *)
Definition DomainPoint_getitem (self : DomainPoint) (i : Z) : result Z :=
  rbind (py_assert ((0 <=? i) && (i <? Z.of_nat (point_dim self)))) (fun _ =>
  Ok (nth (Z.to_nat i) (point_data (dp_handle self)) 0)).

(** [DomainPoint.__int__] and [DomainPoint.__index__] *)
Definition DomainPoint_int (self : DomainPoint) : result Z :=
  rbind (py_assert (point_dim self =? 1)%nat) (fun _ =>
  Ok (nth 0 (point_data (dp_handle self)) 0)).

Section Points.

Variable _max_dim : nat.

(** [_DomainPoint_unpickle] *)
Definition _DomainPoint_unpickle (values : list Z) : result DomainPoint :=
  DomainPoint_create _max_dim (Seq values).

End Points.

(** ** Instances of a region *)

Definition Region_with_instances (self : Region)
  (ins : option (gmap string Z)) : Region :=
  {| r_oid := r_oid self; r_handle := r_handle self;
     r_ispace := r_ispace self; r_fspace := r_fspace self;
     r_parent := r_parent self; instances := ins;
     privileges := privileges self;
     instance_wrappers := instance_wrappers self;
     r_owned := r_owned self; r_escaped := r_escaped self |}.

(** [Region._set_instance]: the region as the call leaves it, and the
    outcome. *)
Definition Region_set_instance (self : Region) (field_name : string)
  (instance : Z) (privilege : option Privilege) : Region * result unit :=
  match get_slot (r_parent self) with
  | Raise e => (self, Raise e)
  | Ok parent =>
      if negb (bool_decide (parent = None)) then (self, Raise AssertionError)
      else
        match instances self with
        | None => (self, Raise AttributeError)
        | Some ins =>
            if negb (bool_decide (ins !! field_name = None))
            then (self, Raise AssertionError)
            else
              let self1 :=
                Region_with_instances self
                  (Some (<[field_name := instance]> ins)) in
              match privilege with
              | None => (self1, Ok tt)
              | Some p =>
                  match Region_set_privilege self1 field_name p with
                  | Ok self2 => (self2, Ok tt)
                  | Raise e => (self1, Raise e)
                  end
              end
        end
  end.

(** ** Tracked objects and the end of a task body *)

(** [obj.escaped = True]; only the classes with an [escaped] slot are ever
    tracked (the partition classes allow no weak reference). *)
Definition Handle_set_escaped (h : Handle) : Handle :=
  match h with
  | HIspace i =>
      HIspace {| i_oid := i_oid i; i_handle := i_handle i;
                 i_owned := i_owned i; i_escaped := true |}
  | HFspace f =>
      HFspace {| f_oid := f_oid f; f_handle := f_handle f;
                 field_ids := field_ids f; field_types := field_types f;
                 f_owned := f_owned f; f_escaped := true |}
  | HRegion r =>
      HRegion {| r_oid := r_oid r; r_handle := r_handle r;
                 r_ispace := r_ispace r; r_fspace := r_fspace r;
                 r_parent := r_parent r; instances := instances r;
                 privileges := privileges r;
                 instance_wrappers := instance_wrappers r;
                 r_owned := r_owned r; r_escaped := true |}
  | HIpartition _ | HPartition _ => h
  end.

(** The loop at the end of [Task.execute_task]:
    [for ref in ctx.owned_objects: obj = ref(); if obj is not None:
    obj.escaped = True].  The heap holds the objects of the model that
    are alive, by identity: a weak reference to an object that is not in
    it gives [None]. *)
Definition mark_remaining (ctx : Context) (heap : gmap nat Handle)
  : gmap nat Handle :=
  foldl (fun heap ref =>
           match heap !! ref with
           | Some obj => <[ref := Handle_set_escaped obj]> heap
           | None => heap
           end)
        heap (owned_objects ctx).

(** [Task.execute_task], from [# Build context] to the loop that marks
    the remaining objects.  The body of the task is a computation that
    gives the objects that are alive when it ends.  The context that the
    loop reads is the object that was stored in [_my.ctx], with the
    objects that the body has tracked. *)
Definition Task_run_body (context runtime task : Z) (regions : list Z)
  (body : M (gmap nat Handle)) : M (gmap nat Handle) :=
  let ctx := Context_init context runtime task regions in
  fun s =>
    match my_ctx s with
    | Some _ =>
        (Raise (PyException "thread-local context already set"), s)
    | None =>
        (let* _ := set_my_ctx (Some ctx) in
         let* heap := body in
         let* ctx := get_ctx in
         ret (mark_remaining ctx heap)) s
    end.

(** A task body that makes one index space and keeps it. *)
Definition ispace_body (h : legion_index_space_t) (owned : bool)
  : M (gmap nat Handle) :=
  let* H := Ispace_init h owned in
  ret {[ i_oid H := HIspace H ]}.

Definition sample_ispace_at (oid : nat) (owned escaped : bool) : Ispace :=
  {| i_oid := oid; i_handle := Some sample_index_space;
     i_owned := owned; i_escaped := escaped |}.

(** The objects that the context of a state tracks. *)
Definition tracked (s : State) : list nat :=
  match my_ctx s with
  | Some c => owned_objects c
  | None => []
  end.

(** Object ids are handed out in increasing order: what is tracked has
    been created. *)
Definition tracked_below (s : State) : Prop :=
  Forall (fun o => (o < next_oid s)%nat) (tracked s).

(** From [s] to [s'] objects were created, and some of the new ones
    tracked, in the order of [new]. *)
Definition tracks (s s' : State) (new : list nat) : Prop :=
  (next_oid s <= next_oid s')%nat /\
  tracked s' = tracked s ++ new /\
  Forall (fun o => (next_oid s <= o < next_oid s')%nat) new.

(** ** Script detection *)

(** What [execute_as_script] gives: the pair [(is_legion_python,
    is_script)], or the [IndexError] of [input_args]. *)
Inductive ScriptCheck : Type :=
| Checked (is_legion_python is_script : bool)
| CheckIndexError.

Section Script.

(** [os.path.basename], and the extension that [os.path.splitext] splits
    off. *)
Variable basename : string -> string.
Variable splitext_ext : string -> string.

(** [execute_as_script], given the argument vector of the engine. *)
Definition execute_as_script (raw_args : list string) : ScriptCheck :=
  match input_args raw_args true with
  | PopIndexError => CheckIndexError
  | Kept args =>
      match args with
      | [] => Checked false false
      | program :: rest =>
          if negb (String.eqb (basename program) "legion_python") then
            Checked false false
          else
            match rest with
            | [] => Checked true false
            | script :: _ =>
                if String.prefix "-" script then Checked true false
                else Checked true
                       (1 <? Z.of_nat (String.length (splitext_ext script)))
            end
      end
  end.

End Script.

(** ** Index launches: the loop and the launch *)

Definition IndexLaunch_with_point (self : IndexLaunch)
  (p : option _IndexValue) : IndexLaunch :=
  {| launch_oid := launch_oid self; launch_domain := launch_domain self;
     launcher := launcher self; point := p;
     saved_task := saved_task self; saved_args := saved_args self |}.

Definition _IndexLauncher_with_future_map (self : _IndexLauncher)
  (m : option Z) : _IndexLauncher :=
  {| il_task := il_task self; il_domain := il_domain self;
     local_args := local_args self; future_args := future_args self;
     future_map := m |}.

(** The body of a [for] loop over an IndexLaunch: it is handed the index
    that [__iter__] yields and may use the launch (through
    [_my.ctx.current_launch] or directly); it leaves the launch and the
    state as they are when it ends or raises. *)
Definition LoopBody : Type :=
  _IndexValue -> IndexLaunch -> State -> IndexLaunch * result unit * State.

Section Loop.

Variable engine : Engine.
Variable _max_dim : nat.

(** [_IndexLauncher.launch].  The arguments of
    [legion_index_launcher_create] are evaluated first,
    [legion_predicate_true()] among them; a task id that is [None] or a
    future handle that is [None] is then refused with a [TypeError], a
    task id that does not fit a [legion_task_id_t] with an
    [OverflowError]. *)
Definition _IndexLauncher_launch (self : _IndexLauncher) : M _IndexLauncher :=
  let* _ := engine_call legion_predicate_true in
  match Task_task_id (il_task self) with
  | None => raise TypeError
  | Some task_id =>
      let* task_id := lift (pass_uint32 task_id) in
      let* _ := engine_call
                  (legion_index_launcher_create task_id
                     (d_handle (il_domain self)) (local_args self)) in
      let* _ := forM_ (future_args self) (fun arg =>
                  match fut_handle arg with
                  | Some h => engine_call (legion_index_launcher_add_future h)
                  | None => raise TypeError
                  end) in
      let* ctx := get_ctx in
      let* trace := get_trace in
      let* _ := engine_call legion_index_launcher_execute in
      let result := index_launcher_execute_reply engine trace in
      let* _ := engine_call legion_index_launcher_destroy in
      let* trace := get_trace in
      let* _ := engine_call (legion_future_map_copy result) in
      let* _ := engine_call (legion_future_map_destroy result) in
      ret (_IndexLauncher_with_future_map self
             (Some (future_map_copy_reply engine trace result)))
  end.

(** [IndexLaunch.launch] *)
Definition IndexLaunch_launch (self : IndexLaunch) : M IndexLaunch :=
  match launcher self with
  | None => raise AttributeError
  | Some l =>
      let* l' := _IndexLauncher_launch l in
      ret (IndexLaunch_with_launcher self (Some l'))
  end.

(** The [for i in self.domain] loop of [IndexLaunch.__iter__], on the
    coordinate tuples that are left: [imap] makes each point when the
    loop asks for it, and the caller's loop body runs at the [yield]. *)
Fixpoint iterate_points (body : LoopBody) (self : IndexLaunch)
  (tuples : list (list Z)) (s : State)
  : IndexLaunch * result unit * State :=
  match tuples with
  | [] => (self, Ok tt, s)
  | t :: tuples' =>
      match DomainPoint_create _max_dim (Seq t) with
      | Raise e => (self, Raise e, s)
      | Ok i =>
          match point self with
          | None => (self, Raise AttributeError, s)
          | Some _ =>
              let index := {| iv_value := Some i |} in
              let self1 := IndexLaunch_with_point self (Some index) in
              match body index self1 s with
              | (self2, Raise e, s2) => (self2, Raise e, s2)
              | (self2, Ok _, s2) => iterate_points body self2 tuples' s2
              end
          end
      end
  end.

(** [_my.ctx.begin_launch(self)] and [_my.ctx.end_launch(self)] *)
Definition begin_launch (self : IndexLaunch) : M unit :=
  let* ctx := get_ctx in
  let* ctx := lift (Context_begin_launch ctx (Some (launch_oid self))) in
  set_my_ctx (Some ctx).

Definition end_launch (self : IndexLaunch) : M unit :=
  let* ctx := get_ctx in
  let* ctx := lift (Context_end_launch ctx (Some (launch_oid self))) in
  set_my_ctx (Some ctx).

(** A [for] loop over an IndexLaunch, with the given body: what
    [IndexLaunch.__iter__] does, up to the exception that ends it.  When
    the body raises, the generator is never resumed: the code after its
    loop does not run. *)
Definition IndexLaunch_iter (body : LoopBody) (self : IndexLaunch)
  (s : State) : IndexLaunch * result unit * State :=
  match begin_launch self s with
  | (Raise e, s1) => (self, Raise e, s1)
  | (Ok _, s1) =>
      let self1 := IndexLaunch_with_point self (Some {| iv_value := None |}) in
      match iterate_points body self1
              (product (domain_ranges (d_handle (launch_domain self1)))) s1
      with
      | (self2, Raise e, s2) => (self2, Raise e, s2)
      | (self2, Ok _, s2) =>
          match end_launch self2 s2 with
          | (Raise e, s3) => (self2, Raise e, s3)
          | (Ok _, s3) =>
              match IndexLaunch_launch self2 s3 with
              | (Raise e, s4) => (self2, Raise e, s4)
              | (Ok self3, s4) => (self3, Ok tt, s4)
              end
          end
      end
  end.

(** A loop body that spawns one task through the launch, with arguments
    that may use the index. *)
Definition spawn_body (task : Task) (args : _IndexValue -> list Arg)
  : LoopBody :=
  fun index self s =>
    match IndexLaunch_spawn_task engine self task (args index) s with
    | (self', Raise e, s') => (self', Raise e, s')
    | (self', Ok _, s') => (self', Ok tt, s')
    end.

End Loop.

(** Arguments that are neither regions nor futures. *)
Definition is_plain (arg : Arg) : bool :=
  match arg with
  | ArgNone | ArgValue _ | ArgPoint _ | ArgIndexValue _ => true
  | ArgRegion _ | ArgRegionField _ | ArgFuture _ => false
  end.

(** The state with another context. *)
Definition State_with_ctx (s : State) (c : Context) : State :=
  {| my_ctx := Some c; next_legion_task_id := next_legion_task_id s;
     global_task_registration_barrier := global_task_registration_barrier s;
     engine_calls := engine_calls s; next_oid := next_oid s |}.

(** The state after further engine calls. *)
Definition State_with_calls (s : State) (calls : list EngineCall) : State :=
  {| my_ctx := my_ctx s; next_legion_task_id := next_legion_task_id s;
     global_task_registration_barrier := global_task_registration_barrier s;
     engine_calls := engine_calls s ++ calls; next_oid := next_oid s |}.

(** A launch whose launcher has been made for [task], with the argument
    map [m], and that has seen no other task. *)
Definition running (task : Task) (m : Z) (self : IndexLaunch) : Prop :=
  launcher self
  = Some {| il_task := task; il_domain := launch_domain self;
            local_args := m; future_args := []; future_map := None |} /\
  Task_ne task (default task (saved_task self)) = false.

(** The same, with the Future arguments [futs] that the last spawn has
    attached. *)
Definition running_with (task : Task) (m : Z) (futs : list Future)
  (self : IndexLaunch) : Prop :=
  launcher self
  = Some {| il_task := task; il_domain := launch_domain self;
            local_args := m; future_args := futs; future_map := None |} /\
  Task_ne task (default task (saved_task self)) = false.

(** The state after [n] more objects have been made. *)
Definition State_with_objects (s : State) (n : nat) : State :=
  {| my_ctx := my_ctx s; next_legion_task_id := next_legion_task_id s;
     global_task_registration_barrier := global_task_registration_barrier s;
     engine_calls := engine_calls s; next_oid := n + next_oid s |}.

(** A loop body that hands the index and one Future object to the task,
    at every point. *)
Definition index_and_future (f : Future) (index : _IndexValue) : list Arg :=
  [ArgIndexValue index; ArgFuture f].

(** What [encode_args] makes of these arguments at the point [p]: the
    pickle of the point and of the Future as argument 0 of the task. *)
Definition point_and_future_args (f : Future) (p : DomainPoint)
  : TaskArgument :=
  PickledArgs
    [PPoint (point_data (dp_handle p));
     PFutureArg {| p_value_type := Type_reduce <$> value_type f;
                   p_argument_number := 0 |}].

(** The engine calls of the spawn at the point [p]: the Future (with the
    handle [h]) is copied, and the arguments are set in the map [m]. *)
Definition spawn_calls (m : Z) (h : legion_future_t) (f : Future)
  (p : DomainPoint) : list EngineCall :=
  [legion_future_copy h;
   legion_argument_map_set_point m (dp_handle p) (point_and_future_args f p)].

(** The arguments that the first spawn has saved, if any, hold the Future
    [f] at the second position. *)
Definition saved_future (f : Future) (self : IndexLaunch) : Prop :=
  saved_args self = None \/
  exists a, saved_args self = Some [a; ArgFuture f].

(** The call that executes an index launcher. *)
Definition is_execute_call (call : EngineCall) : bool :=
  match call with
  | legion_index_launcher_execute => true
  | _ => false
  end.

(** A registered task, and a loop body that spawns it with the index and
    a number. *)
Definition registered_task : Task := Task_with_task_id (sample_task 5) (Some 42).

Definition index_and_number (index : _IndexValue) : list Arg :=
  [ArgIndexValue index; ArgValue 7].

(** A computation that leaves [_my.ctx] as it is, whether it returns or
    raises. *)
Definition keeps_ctx {A} (m : M A) : Prop :=
  forall s, my_ctx (snd (m s)) = my_ctx s.

(** The same for a loop body. *)
Definition body_keeps_ctx (body : LoopBody) : Prop :=
  forall index self s, my_ctx (snd (body index self s)) = my_ctx s.

(** A loop body that hands a region to the task. *)
Definition region_argument (index : _IndexValue) : list Arg :=
  [ArgIndexValue index; ArgRegion (sample_region true false)].

(** ** Futures among the arguments *)

(** The Future arguments of a call, in order. *)
Definition futures_of (args : list Arg) : list Future :=
  omap (fun arg => match arg with ArgFuture f => Some f | _ => None end) args.

(** A Future that [Future(value)] can copy in state [s]: it has a handle,
    or it is a task argument whose handle the context can resolve. *)
Definition copyable (s : State) (f : Future) : Prop :=
  fut_handle f <> None \/ (argument_number f <> None /\ my_ctx s <> None).

(** What [gather_futures] makes of one argument. *)
Definition gathered (s s' : State) (arg arg' : Arg) : Prop :=
  match arg with
  | ArgFuture f =>
      exists f', arg' = ArgFuture f' /\
                 Future_value_type f' = Future_value_type f /\
                 fut_handle f' <> None /\
                 (next_oid s <= fut_oid f' < next_oid s')%nat
  | _ => arg' = arg
  end.

(** ** What [Region.create] creates *)

(** A computation that creates no Python object of the model. *)
Definition keeps_oid {A} (m : M A) : Prop :=
  forall s, next_oid (snd (m s)) = next_oid s.

(** The objects that [Region.create] makes itself, in the order in which
    it makes them. *)
Definition created_by_Region_create (ispace : IspaceArg) (fspace : FspaceArg)
  (I : Ispace) (F : Fspace) (r : Region) : list nat :=
  match ispace with ARawExtent _ => [i_oid I] | AnIspace _ => [] end
  ++ match fspace with ARawFields _ => [f_oid F] | AnFspace _ => [] end
  ++ [r_oid r].

(** The engine call that [Region.create] makes for its index space:
    none for an index space that is handed in, one for a raw extent. *)
Definition ispace_calls (max_dim : nat) (ispace : IspaceArg)
  : list EngineCall :=
  match ispace with
  | AnIspace _ => []
  | ARawExtent extent =>
      match Domain_create max_dim extent None with
      | Ok d => [legion_index_space_create_domain (d_handle d)]
      | Raise _ => []
      end
  end.

(** [I] is the index space that [Ispace.create(extent)] makes when the
    engine has seen the calls [trace]: an owned wrapper of the engine's
    reply for the domain of that extent. *)
Definition Ispace_made_from (engine : Engine) (max_dim : nat)
  (extent : IntOrSeq) (trace : list EngineCall) (I : Ispace) : Prop :=
  exists d,
    Domain_create max_dim extent None = Ok d /\
    i_handle I
    = Some (index_space_create_domain_reply engine trace (d_handle d)) /\
    i_owned I = true /\ i_escaped I = false.

(** [F] is the field space that [Fspace.create(fields)] makes when the
    engine has seen the calls [trace]: an owned wrapper of the engine's
    reply, with the names and the types of [fields] in their order. *)
Definition Fspace_made_from (engine : Engine)
  (fields : list (string * FieldEntry)) (trace : list EngineCall)
  (F : Fspace) : Prop :=
  exists ids,
    f_handle F = Some (field_space_create_reply engine trace) /\
    field_ids F = Some ids /\ map fst ids = map fst fields /\
    field_types F
    = Some (map (fun item => (fst item, fst (snd item))) fields) /\
    f_owned F = true /\ f_escaped F = false.

(** ** Subregions *)

(** The parent that [Partition.__getitem__] gives to a subregion of
    [parent]: [parent.parent if parent.parent is not None else parent]. *)
Definition subregion_parent (parent : Region) : Region :=
  match r_parent parent with
  | Some (Some g) => g
  | _ => parent
  end.

(** A region without parent, or whose parent has none. *)
Definition flat (r : Region) : Prop :=
  r_parent r = Some None \/
  exists g, r_parent r = Some (Some g) /\ r_parent g = Some None.

(** ** The engine calls of [Fspace.create] *)

(** The field id that [Fspace.create] asks for: the one of the entry, or
    [AUTO_GENERATE_ID]. *)
Definition requested_field_id (entry : FieldEntry) : Z :=
  match snd entry with
  | Some i => i
  | None => cast_field_id AUTO_GENERATE_ID
  end.

(** The two engine calls for one field, given the id that the engine
    returned for it. *)
Definition field_calls (h : legion_field_space_t)
  (item : string * FieldEntry) (id : string * Z) : list EngineCall :=
  [legion_field_allocator_allocate_field h (Type_size (fst (snd item)))
     (requested_field_id (snd item));
   legion_field_id_attach_name h (snd id) (fst item)].

(** Every field id that the dictionary asks for fits a
    [legion_field_id_t]. *)
Definition field_ids_fit (fields : list (string * FieldEntry)) : Prop :=
  Forall (fun item => uint32_ok (requested_field_id (snd item)) = true) fields.

(** * Properties *)

(** ** Results *)

Lemma rbind_ok {A B} (r : result A) (k : A -> result B) (b : B) :
  rbind r k = Ok b -> exists a, r = Ok a /\ k a = Ok b.
Proof. destruct r as [a|e]; simpl; [eauto | discriminate]. Qed.

Lemma py_assert_ok (c : bool) : py_assert c = Ok tt <-> c = true.
Proof. destruct c; simpl; split; congruence. Qed.

Lemma rmapM_ext_ok {A B} (f : A -> result B) (g : A -> B) (l : list A) :
  (forall x, x ∈ l -> f x = Ok (g x)) -> rmapM f l = Ok (map g l).
Proof.
  induction l as [|x l IH]; intros Hf; simpl; [reflexivity|].
  rewrite Hf by left. simpl. rewrite IH; [reflexivity|].
  intros y Hy. apply Hf. by right.
Qed.

(** ** Domain iteration *)

Lemma xrange_elem (lo hi x : Z) : x ∈ xrange lo hi <-> lo <= x < hi.
Proof.
  unfold xrange. rewrite list_elem_of_fmap. split.
  - intros (k & -> & Hk). apply elem_of_seq in Hk. lia.
  - intros Hx. exists (Z.to_nat (x - lo)). split; [lia|].
    apply elem_of_seq. lia.
Qed.

Lemma xrange_length (lo hi : Z) :
  Z.of_nat (length (xrange lo hi)) = Z.max 0 (hi - lo).
Proof. unfold xrange. rewrite length_map, length_seq. lia. Qed.

Lemma shifted_seq_sorted (lo : Z) (n a : nat) :
  StronglySorted Z.lt (map (fun k => lo + Z.of_nat k) (seq a n)).
Proof.
  revert a. induction n as [|n IH]; intros a; simpl; constructor.
  - apply IH.
  - apply Forall_forall. intros y Hy.
    apply list_elem_of_fmap in Hy as (k & -> & Hk).
    apply elem_of_seq in Hk. lia.
Qed.

Lemma xrange_sorted (lo hi : Z) : StronglySorted Z.lt (xrange lo hi).
Proof. apply shifted_seq_sorted. Qed.

Lemma product_elem (rs : list (list Z)) (p : list Z) :
  p ∈ product rs <-> Forall2 (fun x r => x ∈ r) p rs.
Proof.
  revert p. induction rs as [|r rs IH]; intros p; simpl.
  - rewrite list_elem_of_singleton. split.
    + intros ->. constructor.
    + intros H. by inversion H.
  - rewrite list_elem_of_In, in_flat_map. split.
    + intros (x & Hx & Hp). apply list_elem_of_In in Hx, Hp.
      apply list_elem_of_fmap in Hp as (t & -> & Ht).
      constructor; [done|]. by apply IH.
    + intros H. inversion H as [|x r' t rs' Hx Ht]; subst.
      exists x. split; apply list_elem_of_In; [done|].
      apply list_elem_of_fmap. exists t. split; [done|]. by apply IH.
Qed.

Lemma product_length (rs : list (list Z)) :
  length (product rs) = fold_right Nat.mul 1%nat (map length rs).
Proof.
  induction rs as [|r rs IH]; simpl; [reflexivity|].
  rewrite <- IH. clear IH.
  induction r as [|x r IHr]; simpl; [reflexivity|].
  rewrite length_app, length_map, IHr. reflexivity.
Qed.

Lemma lex_lt_cons_lt (x y : Z) (p q : list Z) : x < y -> lex_lt (x :: p) (y :: q).
Proof.
  intros H. unfold lex_lt. simpl.
  apply orb_true_iff. left. by apply Z.ltb_lt.
Qed.

Lemma lex_lt_cons_eq (x : Z) (p q : list Z) : lex_lt p q -> lex_lt (x :: p) (x :: q).
Proof.
  unfold lex_lt. simpl. intros ->. rewrite Z.eqb_refl. apply orb_true_r.
Qed.

Lemma lex_lt_irrefl (p : list Z) : ~ lex_lt p p.
Proof.
  unfold lex_lt. induction p as [|x p IH]; simpl; [discriminate|].
  rewrite Z.ltb_irrefl, Z.eqb_refl. simpl. exact IH.
Qed.

Lemma cons_sorted (x : Z) (l : list (list Z)) :
  StronglySorted lex_lt l -> StronglySorted lex_lt (map (cons x) l).
Proof.
  induction 1 as [|t l Hl IH Hall]; simpl; constructor; [done|].
  apply Forall_forall. intros q Hq.
  apply list_elem_of_fmap in Hq as (u & -> & Hu).
  apply lex_lt_cons_eq. rewrite Forall_forall in Hall. by apply Hall.
Qed.

Lemma product_sorted (rs : list (list Z)) :
  Forall (StronglySorted Z.lt) rs -> StronglySorted lex_lt (product rs).
Proof.
  induction 1 as [|r rs Hr _ IH]; simpl.
  - repeat constructor.
  - induction Hr as [|x r Hr IHr Hall]; simpl; [constructor|].
    apply StronglySorted_app_2; [|by apply cons_sorted|exact IHr].
    intros a b Ha Hb.
    apply list_elem_of_fmap in Ha as (t & -> & _).
    apply list_elem_of_In, in_flat_map in Hb as (y & Hy & Hb).
    apply list_elem_of_In in Hy, Hb.
    apply list_elem_of_fmap in Hb as (u & -> & _).
    apply lex_lt_cons_lt. rewrite Forall_forall in Hall. by apply Hall.
Qed.

Lemma sorted_NoDup (l : list (list Z)) : StronglySorted lex_lt l -> NoDup l.
Proof.
  induction 1 as [|t l Hl IH Hall]; constructor; [|done].
  intros Hin. rewrite Forall_forall in Hall.
  exact (lex_lt_irrefl t (Hall t Hin)).
Qed.

Lemma store_coord_ok (z z' : Z) :
  store_coord z = Ok z' -> z' = z /\ coord_min <= z <= coord_max.
Proof.
  unfold store_coord, coord_ok. destruct (_ && _) eqn:E; [|discriminate].
  intros [= <-]. apply andb_true_iff in E as [?%Z.leb_le ?%Z.leb_le]. lia.
Qed.

Lemma store_coord_in_range (z : Z) :
  coord_min <= z <= coord_max -> store_coord z = Ok z.
Proof.
  intros H. unfold store_coord, coord_ok.
  destruct (coord_min <=? z) eqn:E1; [|apply Z.leb_gt in E1; lia].
  destruct (z <=? coord_max) eqn:E2; [|apply Z.leb_gt in E2; lia].
  reflexivity.
Qed.

(** What the filled rectangle holds: the low corner is [start], the high
    corner [start + extent - 1], and every entry fits a coordinate. *)
Lemma fill_rect_ok (start extent lo hi : list Z) :
  length start = length extent ->
  fill_rect start extent = Ok (lo, hi) ->
  lo = start /\
  hi = zip_with (fun s e => s + e - 1) start extent /\
  Forall2 (fun s e => coord_min <= s /\ s + e - 1 <= coord_max) start extent.
Proof.
  revert extent lo hi.
  induction start as [|s start IH]; intros [|e extent] lo hi Hlen; try discriminate.
  - simpl. intros [= <- <-]. repeat split. constructor.
  - simpl in Hlen |- *. intros H.
    apply rbind_ok in H as (l0 & Hl & H). apply store_coord_ok in Hl as [-> Hs].
    apply rbind_ok in H as (h0 & Hh & H). apply store_coord_ok in Hh as [-> He].
    apply rbind_ok in H as ([lo' hi'] & Hrest & H). simpl in H.
    injection H as <- <-.
    destruct (IH extent lo' hi') as (-> & -> & H2); [lia|done|].
    repeat split. constructor; [lia|exact H2].
Qed.

Lemma fill_rect_succeeds (start extent : list Z) :
  length start = length extent ->
  Forall2 (fun s e => coord_min <= s /\ s <= coord_max /\
                      coord_min <= s + e - 1 <= coord_max) start extent ->
  exists lo hi, fill_rect start extent = Ok (lo, hi).
Proof.
  intros _. induction 1 as [|s e start extent (Hs1 & Hs2 & He) _ (lo & hi & IH)]; simpl.
  - eauto.
  - rewrite !store_coord_in_range by lia. simpl. rewrite IH. simpl. eauto.
Qed.

(** The ranges that [__iter__] builds from a handle made of the corners
    [lo] and [hi]. *)
Lemma domain_ranges_from_rect (lo hi : list Z) :
  length lo = length hi ->
  domain_ranges (legion_domain_from_rect lo hi)
  = zip_with (fun l h => xrange l (h + 1)) lo hi.
Proof.
  intros Hlen. unfold domain_ranges, legion_domain_from_rect. simpl.
  apply list_eq. intros i.
  rewrite list_lookup_fmap, lookup_zip_with.
  destruct (decide (i < length lo)%nat) as [Hi|Hi].
  - rewrite lookup_seq_lt by done. simpl.
    destruct (lookup_lt_is_Some_2 lo i Hi) as [l Hl].
    destruct (lookup_lt_is_Some_2 hi i ltac:(lia)) as [h Hh].
    rewrite Hl, Hh. simpl.
    rewrite !nth_lookup.
    rewrite (lookup_app_l lo hi i) by done. rewrite Hl.
    rewrite (lookup_app_r lo hi (i + length lo)) by lia.
    replace (i + length lo - length lo)%nat with i by lia.
    rewrite Hh. reflexivity.
  - rewrite lookup_seq_ge by lia.
    rewrite (lookup_ge_None_2 lo) by lia. reflexivity.
Qed.

Lemma volume_from_rect (lo hi : list Z) :
  length lo = length hi ->
  legion_domain_get_volume (legion_domain_from_rect lo hi)
  = fold_right Z.mul 1 (zip_with (fun l h => Z.max 0 (h - l + 1)) lo hi).
Proof.
  intros Hlen. unfold legion_domain_get_volume, legion_domain_from_rect. simpl.
  apply (f_equal (fold_right Z.mul 1)). apply list_eq. intros i.
  rewrite list_lookup_fmap, lookup_zip_with.
  destruct (decide (i < length lo)%nat) as [Hi|Hi].
  - rewrite lookup_seq_lt by done. simpl.
    destruct (lookup_lt_is_Some_2 lo i Hi) as [l Hl].
    destruct (lookup_lt_is_Some_2 hi i ltac:(lia)) as [h Hh].
    rewrite Hl, Hh. simpl.
    rewrite !nth_lookup.
    rewrite (lookup_app_l lo hi i) by done. rewrite Hl.
    rewrite (lookup_app_r lo hi (i + length lo)) by lia.
    replace (i + length lo - length lo)%nat with i by lia.
    rewrite Hh. reflexivity.
  - rewrite lookup_seq_ge by lia.
    rewrite (lookup_ge_None_2 lo) by lia. reflexivity.
Qed.

Lemma ranges_length_volume (lo hi : list Z) :
  Z.of_nat (fold_right Nat.mul 1%nat
              (map length (zip_with (fun l h => xrange l (h + 1)) lo hi)))
  = fold_right Z.mul 1 (zip_with (fun l h => Z.max 0 (h - l + 1)) lo hi).
Proof.
  revert hi. induction lo as [|l lo IH]; intros [|h hi]; simpl; try reflexivity.
  rewrite Nat2Z.inj_mul, IH, xrange_length. f_equal. lia.
Qed.

Lemma rect_membership (start extent p : list Z) :
  length start = length extent ->
  Forall2 (fun x r => x ∈ r) p
    (zip_with (fun l h => xrange l (h + 1)) start
              (zip_with (fun s e => s + e - 1) start extent))
  <-> in_rect start extent p.
Proof.
  unfold in_rect. revert extent p.
  induction start as [|s start IH]; intros [|e extent] p Hlen; try discriminate.
  - simpl. split; intros H; inversion H; constructor.
  - simpl in *. split; intros H; inversion H; subst; constructor.
    + match goal with Hx : _ ∈ xrange _ _ |- _ => apply xrange_elem in Hx end. lia.
    + apply IH; [lia|done].
    + apply xrange_elem. lia.
    + apply IH; [lia|done].
Qed.

Lemma point_created (max_dim : nat) (start extent t : list Z) :
  dim_in_range max_dim (length extent) = true ->
  length start = length extent ->
  Forall2 (fun s e => coord_min <= s /\ s + e - 1 <= coord_max) start extent ->
  in_rect start extent t ->
  DomainPoint_create max_dim (Seq t) = Ok (mk_point t).
Proof.
  intros Hdim Hlen Hfit Hin. unfold DomainPoint_create. simpl.
  assert (length t = length extent) as ->.
  { unfold in_rect in Hin. apply Forall3_length_lr in Hin as Hl.
    apply Forall3_length_lm in Hin. lia. }
  rewrite Hdim. simpl.
  assert (rmapM store_coord t = Ok t) as ->; [|reflexivity].
  rewrite <- (map_id t) at 2. apply rmapM_ext_ok.
  intros x Hx. apply store_coord_in_range.
  clear Hdim Hlen. revert t Hin x Hx.
  induction Hfit as [|s e start extent Hse _ IH]; intros t Hin x Hx;
    inversion Hin; subst; [inversion Hx|].
  apply elem_of_cons in Hx as [->|Hx]; [lia|]. eapply IH; eauto.
Qed.

Lemma ranges_sorted (lo hi : list Z) :
  Forall (StronglySorted Z.lt) (zip_with (fun l h => xrange l (h + 1)) lo hi).
Proof.
  revert hi. induction lo as [|l lo IH]; intros [|h hi]; simpl;
    constructor; [apply xrange_sorted | apply IH].
Qed.

Lemma Domain_create_inv (max_dim : nat) (extent : IntOrSeq)
  (start : option IntOrSeq) (d : Domain) :
  Domain_create max_dim extent start = Ok d ->
  let s := start_of extent start in
  let e := as_seq extent in
  length s = length e /\
  dim_in_range max_dim (length e) = true /\
  Forall2 (fun s e => coord_min <= s /\ s + e - 1 <= coord_max) s e /\
  d_handle d = legion_domain_from_rect s (zip_with (fun s e => s + e - 1) s e).
Proof.
  unfold Domain_create. intros H.
  apply rbind_ok in H as (s & Hs & H).
  assert (s = start_of extent start /\ length s = length (as_seq extent))
    as [-> Hlen].
  { destruct start as [st|]; simpl in *.
    - apply rbind_ok in Hs as ([] & Ha & [= <-]).
      apply py_assert_ok, bool_decide_eq_true in Ha. done.
    - injection Hs as <-. by rewrite length_map. }
  apply rbind_ok in H as ([] & Hd%py_assert_ok & H).
  apply rbind_ok in H as ([lo hi] & Hf & [= <-]).
  apply fill_rect_ok in Hf as (-> & -> & Hfit); [|done].
  simpl. done.
Qed.

(** C4.  Iterating the Domain made by [Domain.create(extent=[3,2])] yields
    the six points (0,0) (0,1) (1,0) (1,1) (2,0) (2,1), in that order;
    in general, iterating a created Domain yields exactly the integer
    points of the rectangle [start, start + extent), each once, in strictly
    increasing row-major (lexicographic) order, and as many of them as the
    volume of the Domain. *)
Theorem Domain_iter_row_major :
  (forall max_dim : nat, (2 <= max_dim)%nat ->
     rbind (Domain_create max_dim (Seq [3; 2]) None) (Domain_iter max_dim)
     = Ok (map mk_point [[0; 0]; [0; 1]; [1; 0]; [1; 1]; [2; 0]; [2; 1]]))
  /\
  (forall (max_dim : nat) (extent : IntOrSeq) (start : option IntOrSeq)
          (d : Domain),
     Domain_create max_dim extent start = Ok d ->
     exists pts : list DomainPoint,
       Domain_iter max_dim d = Ok pts /\
       (forall p, p ∈ coords pts <->
                  in_rect (start_of extent start) (as_seq extent) p) /\
       StronglySorted lex_lt (coords pts) /\
       NoDup (coords pts) /\
       Z.of_nat (length pts) = Domain_volume d)
  /\
  (forall (max_dim : nat) (extent : list Z),
     (1 <= length extent <= max_dim)%nat ->
     Forall (fun e => coord_min < e <= coord_max + 1) extent ->
     exists d, Domain_create max_dim (Seq extent) None = Ok d).
Proof.
  split; [|split].
  - intros max_dim Hmax.
    destruct max_dim as [|[|n]]; [lia|lia|reflexivity].
  - intros max_dim extent start d Hd.
    apply Domain_create_inv in Hd as (Hlen & Hdim & Hfit & Hh).
    set (s := start_of extent start) in *. set (e := as_seq extent) in *.
    set (hi := zip_with (fun s e => s + e - 1) s e) in *.
    assert (length s = length hi) as Hlh.
    { unfold hi. rewrite length_zip_with. lia. }
    set (rs := zip_with (fun l h => xrange l (h + 1)) s hi).
    assert (coords (map mk_point (product rs)) = product rs) as Hco.
    { unfold coords. rewrite map_map. simpl. apply map_id. }
    exists (map mk_point (product rs)). rewrite Hco. repeat split.
    + unfold Domain_iter. rewrite Hh, domain_ranges_from_rect by done.
      apply rmapM_ext_ok. intros t Ht.
      apply (point_created max_dim s e); try done.
      apply rect_membership; [done|]. by apply product_elem.
    + intros Hp. apply rect_membership; [done|]. by apply product_elem.
    + intros Hp. apply product_elem. by apply rect_membership.
    + apply product_sorted, ranges_sorted.
    + apply sorted_NoDup, product_sorted, ranges_sorted.
    + rewrite length_map, product_length. unfold Domain_volume.
      rewrite Hh, volume_from_rect by done. apply ranges_length_volume.
  - intros max_dim extent Hlen Hext. unfold Domain_create. simpl.
    assert (dim_in_range max_dim (length extent) = true) as ->.
    { unfold dim_in_range. apply andb_true_iff. split; apply Nat.leb_le; lia. }
    simpl.
    destruct (fill_rect_succeeds (map (fun _ => 0) extent) extent)
      as (lo & hi & ->); [by rewrite length_map| |simpl; eauto].
    clear Hlen. induction Hext as [|e extent He _ IH]; simpl; constructor;
      [unfold coord_min, coord_max in *; lia | exact IH].
Qed.

(** The general statement at [extent = [3, 2]], [start = (1, 1)] with
    [MAX_DIM = 3]. *)
Lemma Domain_iter_row_major_witness :
  exists pts : list DomainPoint,
    Domain_iter 3 {| d_handle := {| dim := 2; rect_data := [1; 1; 3; 2] |} |}
    = Ok pts /\
    (forall p, p ∈ coords pts <-> in_rect [1; 1] [3; 2] p) /\
    StronglySorted lex_lt (coords pts) /\
    NoDup (coords pts) /\
    Z.of_nat (length pts)
    = Domain_volume {| d_handle := {| dim := 2; rect_data := [1; 1; 3; 2] |} |}.
Proof.
  apply (proj1 (proj2 Domain_iter_row_major) 3%nat (Seq [3; 2]) (Some (Seq [1; 1]))).
  reflexivity.
Defined.

(** ** The state monad *)

Lemma bind_ok {A B} (m : M A) (k : A -> M B) (s s' : State) (a : A) :
  m s = (Ok a, s') -> bind m k s = k a s'.
Proof. unfold bind. intros ->. reflexivity. Qed.

Lemma bind_raise {A B} (m : M A) (k : A -> M B) (s s' : State) (e : PyError) :
  m s = (Raise e, s') -> bind m k s = (Raise e, s').
Proof. unfold bind. intros ->. reflexivity. Qed.

Lemma bind_inv {A B} (m : M A) (k : A -> M B) (s s' : State) (b : B) :
  bind m k s = (Ok b, s') ->
  exists a s1, m s = (Ok a, s1) /\ k a s1 = (Ok b, s').
Proof.
  unfold bind. destruct (m s) as [[a|e] s1]; [eauto|discriminate].
Qed.

Lemma lift_inv {A} (r : result A) (s s' : State) (a : A) :
  lift r s = (Ok a, s') -> r = Ok a /\ s' = s.
Proof. unfold lift. intros [= -> ->]. done. Qed.

Lemma get_ctx_some (s : State) (c : Context) :
  my_ctx s = Some c -> get_ctx s = (Ok c, s).
Proof. unfold get_ctx. intros ->. reflexivity. Qed.

Lemma get_ctx_none (s : State) :
  my_ctx s = None -> get_ctx s = (Raise AttributeError, s).
Proof. unfold get_ctx. intros ->. reflexivity. Qed.

(** ** Reconstruction round trip *)

Lemma Type_roundtrip (t : Type_) : Type_loads (Type_reduce t) = Ok t.
Proof. destruct t; reflexivity. Qed.

Lemma field_types_roundtrip (types : list (string * Type_)) :
  rmapM (fun kv : string * (option NumpyType * option string) =>
           rbind (Type_loads (snd kv)) (fun t => Ok (fst kv, t)))
        (map (fun kv => (fst kv, Type_reduce (snd kv))) types)
  = Ok types.
Proof.
  induction types as [|[k t] types IH]; simpl; [reflexivity|].
  rewrite Type_roundtrip. simpl. rewrite IH. reflexivity.
Qed.

(** Construction of a wrapper: it succeeds when the object can be
    tracked, and leaves the trace of engine calls alone. *)
Lemma Ispace_init_ok (h : legion_index_space_t) (owned : bool) (s : State) :
  can_track s owned ->
  exists H' s',
    Ispace_init h owned s = (Ok H', s') /\
    i_handle H' = Some h /\ i_owned H' = owned /\ i_escaped H' = false /\
    i_oid H' = next_oid s /\
    engine_calls s' = engine_calls s /\
    (my_ctx s <> None -> my_ctx s' <> None).
Proof.
  intros Htrack. unfold Ispace_init, bind, new_object, track_object, bind.
  destruct owned; simpl.
  - unfold get_ctx. simpl. destruct (my_ctx s) as [c|] eqn:Hc.
    + simpl. eexists _, _. split; [reflexivity|]. simpl. repeat split; done.
    + exfalso. by apply Htrack.
  - eexists _, _. split; [reflexivity|]. simpl. repeat split; done.
Qed.

Lemma Fspace_init_ok (h : legion_field_space_t) (ids : list (string * Z))
  (types : list (string * Type_)) (owned : bool) (s : State) :
  can_track s owned ->
  exists H' s',
    Fspace_init h ids types owned s = (Ok H', s') /\
    f_handle H' = Some h /\ field_ids H' = Some ids /\
    field_types H' = Some types /\
    f_owned H' = owned /\ f_escaped H' = false /\
    f_oid H' = next_oid s /\
    engine_calls s' = engine_calls s /\
    (my_ctx s <> None -> my_ctx s' <> None).
Proof.
  intros Htrack. unfold Fspace_init, bind, new_object, track_object, bind.
  destruct owned; simpl.
  - unfold get_ctx. simpl. destruct (my_ctx s) as [c|] eqn:Hc.
    + simpl. eexists _, _. split; [reflexivity|]. simpl. repeat split; done.
    + exfalso. by apply Htrack.
  - eexists _, _. split; [reflexivity|]. simpl. repeat split; done.
Qed.

(** ** Privileges of a new region *)

Lemma Region_set_privilege_inv (self self' : Region) (k : string)
  (p : Privilege) :
  Region_set_privilege self k p = Ok self' ->
  r_parent self = Some None /\
  privileges self !! k = None /\
  self' = Region_with_privileges self (<[k := p]> (privileges self)).
Proof.
  unfold Region_set_privilege. intros H.
  apply rbind_ok in H as (parent & Hp & H).
  apply rbind_ok in H as ([] & Ha%py_assert_ok%bool_decide_eq_true & H).
  apply rbind_ok in H as ([] & Hb%py_assert_ok%bool_decide_eq_true & [= <-]).
  subst parent. destruct (r_parent self) as [q|]; [|discriminate].
  injection Hp as ->. done.
Qed.

Lemma Region_set_privilege_fresh (self : Region) (k : string) (p : Privilege) :
  r_parent self = Some None ->
  privileges self !! k = None ->
  Region_set_privilege self k p
  = Ok (Region_with_privileges self (<[k := p]> (privileges self))).
Proof.
  intros Hp Hk. unfold Region_set_privilege. rewrite Hp. simpl.
  rewrite Hk. reflexivity.
Qed.

Lemma set_privileges_inv (keys : list string) (self self' : Region) :
  rfoldM (fun self k => Region_set_privilege self k RW) keys self = Ok self' ->
  self' = Region_with_privileges self (privileges self') /\
  forall k, privileges self' !! k
            = if decide (k ∈ keys) then Some RW else privileges self !! k.
Proof.
  revert self. induction keys as [|k0 keys IH]; intros self; simpl.
  - intros [= <-]. split; [by destruct self|].
    intros k. destruct (decide (k ∈ [])) as [Hin|]; [|done].
    by apply elem_of_nil in Hin.
  - intros H. apply rbind_ok in H as (self1 & H1 & H).
    apply Region_set_privilege_inv in H1 as (_ & _ & ->).
    apply IH in H as [Heq Hl]. split.
    + rewrite Heq at 1. by destruct self.
    + intros k. rewrite Hl. simpl.
      destruct (decide (k ∈ keys)) as [Hin|Hin];
        destruct (decide (k ∈ k0 :: keys)) as [Hin'|Hin']; try done.
      * exfalso. apply Hin'. by right.
      * apply elem_of_cons in Hin' as [->|?]; [|done].
        apply lookup_insert_eq.
      * apply lookup_insert_ne. intros ->. apply Hin'. left.
Qed.

Lemma set_privileges_ok (keys : list string) (self : Region) :
  r_parent self = Some None ->
  NoDup keys ->
  (forall k, k ∈ keys -> privileges self !! k = None) ->
  exists self',
    rfoldM (fun self k => Region_set_privilege self k RW) keys self = Ok self'.
Proof.
  revert self. induction keys as [|k0 keys IH]; intros self Hp Hnd Hfresh; simpl.
  - eauto.
  - apply NoDup_cons in Hnd as [Hk0 Hnd].
    rewrite Region_set_privilege_fresh by (try done; apply Hfresh; left).
    simpl. apply IH; [done|done|].
    intros k Hk. simpl. rewrite lookup_insert_ne; [apply Hfresh; by right|].
    intros ->. done.
Qed.

Lemma Region_init_borrowed (h : legion_logical_region_t) (I : Ispace)
  (F : Fspace) (parent : option Region) (s : State) :
  Region_init h I F parent false s
  = (Ok {| r_oid := next_oid s; r_handle := Some h;
           r_ispace := Some I; r_fspace := Some F;
           r_parent := Some parent; instances := Some ∅;
           privileges := ∅; instance_wrappers := Some ∅;
           r_owned := false; r_escaped := false |},
     snd (new_object s)).
Proof. reflexivity. Qed.

Lemma Region_init_owned_inv (h : legion_logical_region_t) (I : Ispace)
  (F : Fspace) (parent : option Region) (s s' : State) (r : Region) :
  Region_init h I F parent true s = (Ok r, s') ->
  exists ids,
    field_ids F = Some ids /\
    my_ctx s <> None /\
    (forall k, privileges r !! k
               = if decide (k ∈ dict_keys ids) then Some RW else None) /\
    r_handle r = Some h /\ r_ispace r = Some I /\ r_fspace r = Some F /\
    r_parent r = Some parent /\ r_owned r = true /\ r_escaped r = false /\
    engine_calls s' = engine_calls s.
Proof.
  unfold Region_init. intros H.
  apply bind_inv in H as (oid & s1 & Ho & H).
  injection Ho as <- <-.
  apply bind_inv in H as ([] & s2 & Ht & H).
  apply bind_inv in H as (ids & s3 & Hi & H).
  apply lift_inv in Hi as [Hi ->].
  apply lift_inv in H as [H ->].
  unfold track_object in Ht.
  apply bind_inv in Ht as (c & s3 & Hc & Ht).
  unfold get_ctx in Hc. simpl in Hc.
  destruct (my_ctx s) as [c0|] eqn:Hctx; [|discriminate].
  injection Hc as <- <-. injection Ht as <-.
  destruct (field_ids F) as [ids0|]; [|discriminate]. injection Hi as ->.
  apply set_privileges_inv in H as [Heq Hl].
  exists ids. split; [done|]. split; [done|]. split.
  { intros k. rewrite Hl. simpl. by destruct (decide _). }
  rewrite Heq. simpl. repeat split; done.
Qed.

Lemma Region_init_owned_ok (h : legion_logical_region_t) (I : Ispace)
  (F : Fspace) (ids : list (string * Z)) (s : State) :
  my_ctx s <> None ->
  field_ids F = Some ids ->
  NoDup (dict_keys ids) ->
  exists r s', Region_init h I F None true s = (Ok r, s').
Proof.
  intros Hctx Hids Hnd. unfold Region_init, bind, new_object, track_object, bind.
  unfold get_ctx. simpl.
  destruct (my_ctx s) as [c|]; [|done]. simpl.
  rewrite Hids. simpl.
  match goal with
  | |- context [rfoldM ?f ?l ?r] =>
      destruct (set_privileges_ok l r) as [r' ->]; simpl; try done
  end.
  eauto.
Qed.

Lemma Ispace_roundtrip (H : Ispace) (s : State) :
  Ispace_live H ->
  can_track s (i_owned H && i_escaped H) ->
  exists p H' s',
    Ispace_reduce H = Ok p /\
    Ispace_loads p s = (Ok H', s') /\
    Ispace_rebuilt H H' /\
    (my_ctx s <> None -> my_ctx s' <> None).
Proof.
  intros Hlive Htrack. unfold Ispace_live in Hlive.
  destruct H as [oid [h|] owned escaped]; [|done]. simpl in *.
  destruct (Ispace_init_ok h (owned && escaped) s Htrack)
    as (H' & s' & Hinit & Hh & Ho & He & _ & _ & Hctx).
  eexists _, H', s'. split; [reflexivity|].
  unfold Ispace_loads, _Ispace_unpickle. simpl. destruct h; simpl in *.
  split; [exact Hinit|]. split; [|done].
  unfold Ispace_rebuilt. simpl. done.
Qed.

Lemma Fspace_roundtrip (H : Fspace) (s : State) :
  Fspace_live H ->
  can_track s (f_owned H && f_escaped H) ->
  exists p H' s',
    Fspace_reduce H = Ok p /\
    Fspace_loads p s = (Ok H', s') /\
    Fspace_rebuilt H H' /\
    (my_ctx s <> None -> my_ctx s' <> None).
Proof.
  intros (Hh & Hi & Ht) Htrack.
  destruct H as [oid [h|] [ids|] [types|] owned escaped]; try done.
  simpl in *.
  destruct (Fspace_init_ok h ids types (owned && escaped) s Htrack)
    as (H' & s' & Hinit & Hh' & Hi' & Ht' & Ho & He & _ & _ & Hctx).
  eexists _, H', s'. split; [reflexivity|].
  unfold Fspace_loads, _Fspace_unpickle. simpl.
  erewrite bind_ok; [|unfold lift; rewrite field_types_roundtrip; reflexivity].
  destruct h; simpl in *.
  split; [exact Hinit|]. split; [|done].
  unfold Fspace_rebuilt. simpl. done.
Qed.

Lemma Region_roundtrip (H : Region) (I : Ispace) (F : Fspace)
  (ids : list (string * Z)) (s : State) :
  r_handle H <> None ->
  r_ispace H = Some I -> Ispace_live I ->
  r_fspace H = Some F -> Fspace_live F ->
  field_ids F = Some ids -> NoDup (dict_keys ids) ->
  can_track s (i_owned I && i_escaped I) ->
  can_track s (f_owned F && f_escaped F) ->
  can_track s (r_owned H && r_escaped H) ->
  exists p H' s',
    Region_reduce H = Ok p /\
    Region_loads p s = (Ok H', s') /\
    Region_rebuilt H H'.
Proof.
  intros Hh HI HIl HF HFl Hids Hnd Ht1 Ht2 Ht3.
  destruct (Ispace_roundtrip I s HIl Ht1)
    as (pi & I' & s1 & Hri & Hui & HrI & Hc1).
  assert (can_track s1 (f_owned F && f_escaped F)) as Ht2'.
  { intros Ho. apply Hc1. by apply Ht2. }
  destruct (Fspace_roundtrip F s1 HFl Ht2')
    as (pf & F' & s2 & Hrf & Huf & HrF & Hc2).
  destruct (r_handle H) as [h|] eqn:Hhe; [|done].
  destruct (i_handle I) as [ih|] eqn:Hih; [|done].
  destruct HFl as (Hfh & _ & _).
  destruct (f_handle F) as [fh|] eqn:Hfhe; [|done].
  assert (i_handle I' = Some ih) as Hih'.
  { destruct HrI as (-> & _). done. }
  assert (f_handle F' = Some fh /\ field_ids F' = Some ids) as [Hfh' Hids'].
  { destruct HrF as (-> & -> & _). done. }
  set (h' := {| tree_id := tree_id h; index_space := ih; field_space := fh |}).
  assert (exists H' s',
            Region_init h' I' F' None (r_owned H && r_escaped H) s2 = (Ok H', s')
            /\ r_handle H' = Some h' /\ r_ispace H' = Some I'
            /\ r_fspace H' = Some F'
            /\ r_owned H' = r_owned H && r_escaped H
            /\ r_escaped H' = false) as (H' & s' & Hinit & Hp).
  { destruct (r_owned H && r_escaped H) eqn:Ho.
    - destruct (Region_init_owned_ok h' I' F' ids s2) as (H' & s' & Hinit);
        try done.
      { apply Hc2, Hc1. by apply Ht3. }
      exists H', s'. split; [done|].
      apply Region_init_owned_inv in Hinit
        as (_ & _ & _ & _ & ? & ? & ? & _ & ? & ? & _).
      done.
    - eexists _, _. split; [apply Region_init_borrowed|]. simpl. done. }
  eexists _, H', s'. split; [|split].
  - unfold Region_reduce. rewrite Hhe, HI, HF. simpl.
    rewrite Hri, Hrf. simpl. reflexivity.
  - unfold Region_loads, _Region_unpickle. simpl.
    erewrite bind_ok by exact Hui.
    erewrite bind_ok by exact Huf.
    unfold lift at 1. erewrite bind_ok by (rewrite Hih'; reflexivity).
    unfold lift at 1. erewrite bind_ok by (rewrite Hfh'; reflexivity).
    exact Hinit.
  - destruct Hp as (Hh' & HI' & HF' & Ho & He).
    exists h, h', I, I', F, F'. simpl. rewrite Hih, Hfhe.
    split_and!; done.
Qed.

(** C1.  Reconstruction round trip.  For a live index space, field space
    or region [H], [__reduce__] returns the unpickle arguments, and
    unpickling them, in any state in which the rebuilt wrappers can be
    tracked, yields a wrapper with the identifying fields of [H], whose
    [owned] flag is [owned H and escaped H].  When [H] is owned and has
    not escaped the rebuilt wrapper is therefore not owned; for an index
    space and a field space this needs no context at all. *)
Theorem unpickle_reduce_roundtrip :
  (forall (H : Ispace) (s : State),
     Ispace_live H -> can_track s (i_owned H && i_escaped H) ->
     exists p H' s',
       Ispace_reduce H = Ok p /\ Ispace_loads p s = (Ok H', s') /\
       Ispace_rebuilt H H')
  /\
  (forall (H : Fspace) (s : State),
     Fspace_live H -> can_track s (f_owned H && f_escaped H) ->
     exists p H' s',
       Fspace_reduce H = Ok p /\ Fspace_loads p s = (Ok H', s') /\
       Fspace_rebuilt H H')
  /\
  (forall (H : Region) (I : Ispace) (F : Fspace) (ids : list (string * Z))
          (s : State),
     r_handle H <> None ->
     r_ispace H = Some I -> Ispace_live I ->
     r_fspace H = Some F -> Fspace_live F ->
     field_ids F = Some ids -> NoDup (dict_keys ids) ->
     can_track s (i_owned I && i_escaped I) ->
     can_track s (f_owned F && f_escaped F) ->
     can_track s (r_owned H && r_escaped H) ->
     exists p H' s',
       Region_reduce H = Ok p /\ Region_loads p s = (Ok H', s') /\
       Region_rebuilt H H')
  /\
  (forall (H : Ispace) (s : State),
     Ispace_live H -> i_owned H = true -> i_escaped H = false ->
     exists p H' s',
       Ispace_reduce H = Ok p /\ Ispace_loads p s = (Ok H', s') /\
       i_handle H' = i_handle H /\ i_owned H' = false)
  /\
  (forall (H : Fspace) (s : State),
     Fspace_live H -> f_owned H = true -> f_escaped H = false ->
     exists p H' s',
       Fspace_reduce H = Ok p /\ Fspace_loads p s = (Ok H', s') /\
       f_handle H' = f_handle H /\ field_ids H' = field_ids H /\
       field_types H' = field_types H /\ f_owned H' = false)
  /\
  (forall (H : Region) (I : Ispace) (F : Fspace) (ids : list (string * Z))
          (s : State),
     r_handle H <> None ->
     r_ispace H = Some I -> Ispace_live I ->
     r_fspace H = Some F -> Fspace_live F ->
     field_ids F = Some ids -> NoDup (dict_keys ids) ->
     can_track s (i_owned I && i_escaped I) ->
     can_track s (f_owned F && f_escaped F) ->
     r_owned H = true -> r_escaped H = false ->
     exists p H' s',
       Region_reduce H = Ok p /\ Region_loads p s = (Ok H', s') /\
       Region_rebuilt H H' /\ r_owned H' = false).
Proof.
  split_and!.
  - intros H s Hl Ht.
    destruct (Ispace_roundtrip H s Hl Ht) as (p & H' & s' & ? & ? & ? & _).
    eauto 10.
  - intros H s Hl Ht.
    destruct (Fspace_roundtrip H s Hl Ht) as (p & H' & s' & ? & ? & ? & _).
    eauto 10.
  - intros H I F ids s. apply Region_roundtrip.
  - intros H s Hl Ho He.
    destruct (Ispace_roundtrip H s Hl) as (p & H' & s' & ? & ? & Hr & _).
    { intros Hf. rewrite Ho, He in Hf. discriminate. }
    destruct Hr as (? & Hown & _). rewrite Ho, He in Hown. eauto 10.
  - intros H s Hl Ho He.
    destruct (Fspace_roundtrip H s Hl) as (p & H' & s' & ? & ? & Hr & _).
    { intros Hf. rewrite Ho, He in Hf. discriminate. }
    destruct Hr as (? & ? & ? & Hown & _). rewrite Ho, He in Hown.
    exists p, H', s'. done.
  - intros H I F ids s Hh HI HIl HF HFl Hids Hnd Ht1 Ht2 Ho He.
    destruct (Region_roundtrip H I F ids s) as (p & H' & s' & ? & ? & Hr);
      try done.
    { intros Hf. rewrite Ho, He in Hf. discriminate. }
    exists p, H', s'. split_and!; try done.
    destruct Hr as (? & ? & ? & ? & ? & ? & Hr).
    destruct Hr as (_ & _ & _ & _ & _ & _ & _ & _ & _ & _ & _ & Hown & _).
    rewrite Hown, Ho, He. done.
Qed.

(** The round trip of an owned region that has not escaped, rebuilt where
    no context is set, and of an owned index space that has escaped,
    rebuilt inside a task. *)
Lemma unpickle_reduce_roundtrip_witness :
  (exists p H' s',
     Region_reduce (sample_region true false) = Ok p /\
     Region_loads p state_without_context = (Ok H', s') /\
     Region_rebuilt (sample_region true false) H' /\ r_owned H' = false)
  /\
  (exists p H' s',
     Ispace_reduce (sample_ispace true true) = Ok p /\
     Ispace_loads p state_in_task = (Ok H', s') /\
     Ispace_rebuilt (sample_ispace true true) H').
Proof.
  split.
  - apply (proj2 (proj2 (proj2 (proj2 (proj2 unpickle_reduce_roundtrip))))
             (sample_region true false) (sample_ispace true false)
             (sample_fspace true false)
             [("x"%string, 1001); ("y"%string, 1002)]
             state_without_context);
      try reflexivity; try discriminate.
    + repeat split; discriminate.
    + simpl. apply NoDup_ListNoDup. repeat constructor; simpl; intuition discriminate.
  - apply (proj1 unpickle_reduce_roundtrip (sample_ispace true true)
             state_in_task); discriminate.
Defined.

(** ** Destruction *)

Ltac run_destroy :=
  unfold Handle_destroy, Ispace_destroy, Fspace_destroy, Region_destroy,
    Ipartition_destroy, Partition_destroy, bind, lift, ret, get_ctx,
    engine_call, py_assert, get_slot; simpl.

Lemma destroy_owned_live (h : Handle) (s : State) :
  Handle_live h ->
  Handle_owned h <> Some false ->
  Handle_escaped h <> Some true ->
  my_ctx s <> None ->
  exists h' s' call,
    Handle_destroy h s = (Ok h', s') /\
    destroy_call h = Some call /\
    engine_calls s' = engine_calls s ++ [call] /\
    destroy_call h' = None.
Proof.
  intros Hlive Hown Hesc Hctx.
  destruct (my_ctx s) as [c|] eqn:Hc; [clear Hctx|done].
  destruct h as [[oid [h|] o e]|[oid [h|] [ids|] [tys|] o e]
                |[oid [h|] [I|] [F|] [p|] [ins|] pr [iw|] o e]
                |[[h|] [p|] [cs|]]|[[h|] [p|] [ip|]]];
    simpl in *; try (exfalso; tauto);
    try (destruct o; [|done]; destruct e; [done|]);
    run_destroy; rewrite Hc; simpl; eexists _, _, _; split_and!; reflexivity.
Qed.

Lemma destroy_not_owned (h : Handle) (s : State) :
  Handle_owned h = Some false -> fails (Handle_destroy h) s.
Proof.
  destruct h as [[]|[]|[]|?|?]; simpl; intros [= ->];
    exists AssertionError; reflexivity.
Qed.

Lemma destroy_escaped (h : Handle) (s : State) :
  Handle_escaped h = Some true -> fails (Handle_destroy h) s.
Proof.
  destruct h as [[? ? o ?]|[? ? ? ? o ?]|[? ? ? ? ? ? ? ? o ?]|?|?]; simpl;
    intros [= ->]; exists AssertionError; run_destroy; by destruct o.
Qed.

Lemma destroy_twice (h h' : Handle) (s s' s2 : State) :
  Handle_destroy h s = (Ok h', s') -> fails (Handle_destroy h') s2.
Proof.
  intros H.
  assert (destroy_call h' = None) as Hnone.
  { destruct h as [i|f|r|p|p]; simpl in H;
      apply bind_inv in H as (x & s1 & H & [= <- <-]); revert H;
      run_destroy;
      repeat match goal with
             | |- context [match ?x with _ => _ end] => destruct x; simpl
             end; intros [= <-]; reflexivity. }
  clear H. unfold fails.
  destruct h' as [[oid [h0|] o e]|[oid [h0|] ids tys o e]
                 |[oid [h0|] I F p ins pr iw o e]
                 |[[h0|] p cs]|[[h0|] p ip]]; try discriminate; run_destroy;
    try (destruct o, e; simpl; eauto);
    destruct (my_ctx s2); simpl; eauto.
Qed.

(** C2, as amended.  Inside a task, [destroy()] succeeds, with exactly one
    call that releases the engine resource, on a live index space, field
    space or region that is owned and has not escaped, and on every live
    index partition or partition (these two classes have no [owned] or
    [escaped] flag and their [destroy] has no guard).  [destroy()] raises,
    and calls nothing, on a handle whose [owned] flag is false, on a handle
    whose [escaped] flag is true, and on the handle that an earlier
    [destroy()] has returned. *)
Theorem destroy_once :
  (forall (h : Handle) (s : State),
     Handle_live h ->
     Handle_owned h = Some true -> Handle_escaped h = Some false ->
     my_ctx s <> None ->
     exists h' s' call,
       Handle_destroy h s = (Ok h', s') /\
       destroy_call h = Some call /\
       engine_calls s' = engine_calls s ++ [call])
  /\
  (forall (h : Handle) (s : State),
     Handle_live h ->
     Handle_owned h = None ->
     my_ctx s <> None ->
     exists h' s' call,
       Handle_destroy h s = (Ok h', s') /\
       destroy_call h = Some call /\
       engine_calls s' = engine_calls s ++ [call])
  /\
  (forall (h : Handle) (s : State),
     Handle_owned h = Some false -> fails (Handle_destroy h) s)
  /\
  (forall (h : Handle) (s : State),
     Handle_escaped h = Some true -> fails (Handle_destroy h) s)
  /\
  (forall (h h' : Handle) (s s' s2 : State),
     Handle_destroy h s = (Ok h', s') -> fails (Handle_destroy h') s2).
Proof.
  split_and!.
  - intros h s Hl Ho He Hc.
    destruct (destroy_owned_live h s) as (h' & s' & call & ? & ? & ? & _);
      try done; try congruence.
    exists h', s', call. done.
  - intros h s Hl Ho Hc.
    destruct (destroy_owned_live h s) as (h' & s' & call & ? & ? & ? & _);
      try done; try congruence.
    + destruct h; simpl in *; congruence.
    + exists h', s', call. done.
  - apply destroy_not_owned.
  - apply destroy_escaped.
  - apply destroy_twice.
Qed.

(** An owned region that has not escaped is destroyed once; the second
    [destroy()] fails. *)
Lemma destroy_once_witness :
  (exists h' s' call,
     Handle_destroy (HRegion (sample_region true false)) state_in_task
     = (Ok h', s') /\
     destroy_call (HRegion (sample_region true false)) = Some call /\
     engine_calls s' = engine_calls state_in_task ++ [call])
  /\
  fails (Handle_destroy
           (HRegion {| r_oid := 3; r_handle := None;
                       r_ispace := None; r_fspace := None;
                       r_parent := None; instances := None;
                       privileges := privileges (sample_region true false);
                       instance_wrappers := None;
                       r_owned := true; r_escaped := false |}))
        state_in_task.
Proof.
  split.
  - apply (proj1 destroy_once (HRegion (sample_region true false))
             state_in_task); try reflexivity; try discriminate.
    simpl. split_and!; discriminate.
  - apply (proj2 (proj2 (proj2 (proj2 destroy_once)))
             (HRegion (sample_region true false)) _ state_in_task
             (snd (Handle_destroy (HRegion (sample_region true false))
                     state_in_task))).
    reflexivity.
Defined.

(** C2, as stated, fails for the partition classes: a Partition rebuilt
    from its pickle, which owns nothing, is destroyed without complaint. *)
Lemma destroy_borrowed_partition :
  exists p h' s',
    _Partition_unpickle (sample_region false false) sample_ipartition = Ok p /\
    Handle_owned (HPartition p) <> Some true /\
    Handle_destroy (HPartition p) state_in_task = (Ok h', s') /\
    engine_calls s'
    = [legion_logical_partition_destroy
         {| lp_tree_id := 9;
            index_partition := {| ip_id := 11; ip_tid := 4; ip_type_tag := 257 |};
            lp_field_space := {| fs_id := 5 |} |}].
Proof.
  eexists _, _, _. split; [reflexivity|]. split; [discriminate|].
  split; reflexivity.
Qed.

(** ** Creation of field spaces and regions *)

Lemma dict_set_keys {V} (k : string) (v : V) (d : list (string * V)) :
  dict_keys (dict_set k v d)
  = if decide (k ∈ dict_keys d) then dict_keys d else dict_keys d ++ [k].
Proof.
  induction d as [|[k' v'] d IH]; simpl.
  - destruct (decide (k ∈ [])) as [Hin|]; [|done]. by apply elem_of_nil in Hin.
  - destruct (decide (k = k')) as [->|Hne]; simpl.
    + destruct (decide (k' ∈ k' :: dict_keys d)) as [|Hn]; [done|].
      exfalso. apply Hn. left.
    + rewrite IH.
      destruct (decide (k ∈ dict_keys d)) as [Hin|Hin];
        destruct (decide (k ∈ k' :: dict_keys d)) as [Hin'|Hin']; try done.
      * exfalso. apply Hin'. by right.
      * apply elem_of_cons in Hin' as [->|?]; done.
Qed.

Lemma dict_set_NoDup {V} (k : string) (v : V) (d : list (string * V)) :
  NoDup (dict_keys d) -> NoDup (dict_keys (dict_set k v d)).
Proof.
  intros Hnd. rewrite dict_set_keys. destruct (decide _) as [|Hn]; [done|].
  apply NoDup_app. split_and!; [done| |apply NoDup_singleton].
  intros x Hx ->%list_elem_of_singleton. done.
Qed.

Section Creation.

Variable engine : Engine.
Variable _max_dim : nat.

Lemma Fspace_create_field_ok (h : legion_field_space_t)
  (acc : list (string * Z) * list (string * Type_))
  (item : string * FieldEntry) (s : State) :
  my_ctx s <> None ->
  uint32_ok (requested_field_id (snd item)) = true ->
  exists fid s',
    Fspace_create_field engine h acc item s
    = (Ok (dict_set (fst item) fid (fst acc),
           dict_set (fst item) (fst (snd item)) (snd acc)), s') /\
    my_ctx s' = my_ctx s /\ next_oid s' = next_oid s.
Proof.
  intros Hctx Hfit.
  unfold Fspace_create_field, bind, lift, get_trace, engine_call, get_ctx.
  unfold requested_field_id in Hfit. unfold pass_uint32. rewrite Hfit.
  simpl. destruct (my_ctx s) as [c|] eqn:Hc; [|done]. simpl.
  eexists _, _. split; [reflexivity|]. simpl. done.
Qed.

Lemma Fspace_create_fields_ok (h : legion_field_space_t)
  (fields : list (string * FieldEntry))
  (acc : list (string * Z) * list (string * Type_)) (s : State) :
  my_ctx s <> None ->
  field_ids_fit fields ->
  NoDup (dict_keys (fst acc)) ->
  exists dicts s',
    foldM (Fspace_create_field engine h) fields acc s = (Ok dicts, s') /\
    NoDup (dict_keys (fst dicts)) /\
    my_ctx s' = my_ctx s.
Proof.
  intros Hctx Hfit. revert acc s Hctx.
  induction Hfit as [|item fields Hitem _ IH]; intros acc s Hctx Hnd.
  - simpl. exists acc, s. done.
  - simpl.
    destruct (Fspace_create_field_ok h acc item s Hctx Hitem)
      as (fid & s1 & H1 & Hc1 & _).
    erewrite bind_ok by exact H1.
    destruct (IH (dict_set (fst item) fid (fst acc),
                  dict_set (fst item) (fst (snd item)) (snd acc)) s1)
      as (dicts & s' & H2 & Hnd2 & Hc2).
    + by rewrite Hc1.
    + simpl. by apply dict_set_NoDup.
    + exists dicts, s'. rewrite H2, Hc2, Hc1. done.
Qed.

Lemma Fspace_create_ok (fields : list (string * FieldEntry)) (s : State) :
  my_ctx s <> None ->
  field_ids_fit fields ->
  exists F s' ids,
    Fspace_create engine fields s = (Ok F, s') /\
    Fspace_live F /\ field_ids F = Some ids /\ NoDup (dict_keys ids) /\
    f_owned F = true /\ f_escaped F = false /\
    my_ctx s' <> None.
Proof.
  intros Hctx Hfit. unfold Fspace_create.
  destruct (my_ctx s) as [c|] eqn:Hc; [|done].
  erewrite bind_ok by (apply get_ctx_some; exact Hc).
  unfold get_trace at 1. erewrite bind_ok by reflexivity.
  unfold engine_call at 1. erewrite bind_ok by reflexivity.
  erewrite bind_ok by (apply get_ctx_some; exact Hc).
  unfold engine_call at 1. erewrite bind_ok by reflexivity.
  match goal with
  | |- context [bind (foldM _ fields ?acc) _ ?st] =>
      destruct (Fspace_create_fields_ok
                  (field_space_create_reply engine (engine_calls s))
                  fields acc st)
        as (dicts & s1 & Hf & Hnd & Hc1)
  end; [simpl; by rewrite Hc | exact Hfit | simpl; constructor |].
  erewrite bind_ok by exact Hf.
  unfold engine_call at 1. erewrite bind_ok by reflexivity.
  simpl in Hc1. cbv beta.
  match goal with
  | |- context [Fspace_init ?h ?i ?t true ?st] =>
      destruct (Fspace_init_ok h i t true st)
        as (F & s' & Hi & Hh & Hids & Hty & Ho & He & _ & _ & Hctx')
  end.
  { intros _. simpl. rewrite Hc1, Hc. done. }
  exists F, s', (fst dicts). split; [exact Hi|].
  unfold Fspace_live. rewrite Hh, Hids, Hty. split_and!; try done.
  apply Hctx'. simpl. rewrite Hc1, Hc. done.
Qed.

End Creation.

Section RegionCreation.

Variable engine : Engine.
Variable _max_dim : nat.

Lemma Region_create_inv (ispace : IspaceArg) (fspace : FspaceArg)
  (s s' : State) (r : Region) :
  Region_create engine _max_dim ispace fspace s = (Ok r, s') ->
  exists F ids,
    r_fspace r = Some F /\ field_ids F = Some ids /\
    (forall k, privileges r !! k
               = if decide (k ∈ dict_keys ids) then Some RW else None) /\
    r_owned r = true /\ r_escaped r = false /\ r_parent r = Some None.
Proof.
  unfold Region_create. intros H.
  apply bind_inv in H as (I & s1 & _ & H).
  apply bind_inv in H as (F & s2 & _ & H).
  apply bind_inv in H as (c & s3 & _ & H).
  apply bind_inv in H as (ih & s4 & _ & H).
  apply bind_inv in H as (fh & s5 & _ & H).
  apply bind_inv in H as (tr & s6 & _ & H).
  apply bind_inv in H as ([] & s7 & _ & H).
  apply Region_init_owned_inv in H
    as (ids & Hids & _ & Hp & _ & _ & HF & Hpar & Ho & He & _).
  exists F, ids. done.
Qed.

Lemma Region_create_ok (I : Ispace) (fspace : FspaceArg) (s : State) :
  my_ctx s <> None ->
  Ispace_live I ->
  match fspace with
  | AnFspace F =>
      Fspace_live F /\
      exists ids, field_ids F = Some ids /\ NoDup (dict_keys ids)
  | ARawFields fields => field_ids_fit fields
  end ->
  exists r s', Region_create engine _max_dim (AnIspace I) fspace s = (Ok r, s').
Proof.
  intros Hctx HI Hf. unfold Region_create.
  unfold ret at 1. erewrite bind_ok by reflexivity.
  assert (exists F s1 ids,
            match fspace with
            | AnFspace f => ret f
            | ARawFields fields => Fspace_create engine fields
            end s = (Ok F, s1) /\
            Fspace_live F /\ field_ids F = Some ids /\ NoDup (dict_keys ids) /\
            my_ctx s1 <> None) as (F & s1 & ids & HF & Hl & Hids & Hnd & Hc1).
  { destruct fspace as [F|fields].
    - destruct Hf as (Hl & ids & Hids & Hnd). exists F, s, ids. done.
    - destruct (Fspace_create_ok engine fields s Hctx Hf)
        as (F & s1 & ids & ? & ? & ? & ? & _ & _ & ?).
      exists F, s1, ids. done. }
  erewrite bind_ok by exact HF.
  destruct (my_ctx s1) as [c|] eqn:Hc; [|done].
  erewrite bind_ok by (apply get_ctx_some; exact Hc).
  unfold Ispace_live in HI. destruct (i_handle I) as [ih|] eqn:Hih; [|done].
  destruct Hl as (Hfh & _).
  destruct (f_handle F) as [fh|] eqn:Hfhe; [|done].
  unfold lift at 1. erewrite bind_ok by reflexivity.
  unfold lift at 1. erewrite bind_ok by reflexivity.
  unfold get_trace at 1. erewrite bind_ok by reflexivity.
  unfold engine_call at 1. erewrite bind_ok by reflexivity.
  eapply Region_init_owned_ok; [|exact Hids|exact Hnd].
  simpl. rewrite Hc. done.
Qed.

Lemma Partition_getitem_inv (self : Partition) (point : PointArg)
  (s s' : State) (r : Region) :
  Partition_getitem engine _max_dim self point s = (Ok r, s') ->
  r_owned r = false /\ privileges r = ∅ /\
  exists parent, r_parent r = Some (Some parent).
Proof.
  unfold Partition_getitem. intros H.
  apply bind_inv in H as (p & s1 & _ & H).
  apply bind_inv in H as (ip & s2 & _ & H).
  apply bind_inv in H as (sub & s3 & _ & H).
  apply bind_inv in H as (c & s4 & _ & H).
  apply bind_inv in H as (h & s5 & _ & H).
  apply bind_inv in H as (tr & s6 & _ & H).
  apply bind_inv in H as ([] & s7 & _ & H).
  apply bind_inv in H as (parent & s8 & _ & H).
  apply bind_inv in H as (F & s9 & _ & H).
  apply bind_inv in H as (g & s10 & _ & H).
  rewrite Region_init_borrowed in H. injection H as <- <-. simpl. eauto.
Qed.

End RegionCreation.

(** ** Futures *)

(** C5.  [Future.__reduce__] succeeds exactly when the Future carries an
    [argument_number]; without one it raises; and the Future rebuilt from
    the pickle has the same [value_type] and [argument_number] and no
    handle. *)
Theorem Future_pickle_needs_argument_number :
  (forall f : Future,
     is_ok (Future_reduce f) = true <-> argument_number f <> None)
  /\
  (forall f : Future,
     argument_number f = None ->
     Future_reduce f
     = Raise (PyException
                "Cannot pickle a Future except when used as a task argument"))
  /\
  (forall (f : Future) (p : PFuture) (s : State),
     Future_reduce f = Ok p ->
     exists f' s',
       Future_loads p s = (Ok f', s') /\
       value_type f' = value_type f /\
       argument_number f' = argument_number f /\
       fut_handle f' = None).
Proof.
  split_and!.
  - intros f. unfold Future_reduce.
    destruct (argument_number f); simpl; split; congruence.
  - intros f Hn. unfold Future_reduce. by rewrite Hn.
  - intros f p s. unfold Future_reduce.
    destruct (argument_number f) as [n|] eqn:Hn; [|discriminate].
    intros [= <-]. unfold Future_loads. simpl.
    destruct (value_type f) as [t|]; simpl.
    + unfold lift. rewrite Type_roundtrip. simpl.
      eexists _, _. split; [reflexivity|]. simpl. done.
    + eexists _, _. split; [reflexivity|]. simpl. done.
Qed.

(** The Future that stands for argument 0 of the task being launched, and
    a directly resolved Future. *)
Lemma Future_pickle_needs_argument_number_witness :
  (exists f' s',
     Future_loads {| p_value_type := Some (Type_reduce int64);
                     p_argument_number := 0 |} state_in_task = (Ok f', s') /\
     value_type f' = Some int64 /\
     argument_number f' = Some 0%nat /\
     fut_handle f' = None)
  /\
  Future_reduce {| fut_oid := 5; fut_handle := Some {| payload := 7 |};
                   value_type := Some int64; argument_number := None |}
  = Raise (PyException
             "Cannot pickle a Future except when used as a task argument").
Proof.
  split.
  - apply (proj2 (proj2 Future_pickle_needs_argument_number)
             {| fut_oid := 5; fut_handle := Some {| payload := 7 |};
                value_type := Some int64; argument_number := Some 0%nat |}).
    reflexivity.
  - apply (proj1 (proj2 Future_pickle_needs_argument_number)). reflexivity.
Defined.

(** ** The active launch of a context *)

(** C7.  A context has one [current_launch] slot.  [begin_launch] fails
    when a launch is active and otherwise makes the given launch the
    active one; [end_launch] fails when the given launch is not the active
    one and otherwise clears the slot; neither touches the rest of the
    context.  Hence, between a [begin_launch(l)] and the matching
    [end_launch(l)], no other launch can begin or end. *)
Theorem one_active_launch :
  (forall (c : Context) (l : option nat),
     current_launch c <> None ->
     Context_begin_launch c l = Raise AssertionError)
  /\
  (forall (c : Context) (l : option nat),
     current_launch c = None ->
     exists c',
       Context_begin_launch c l = Ok c' /\ current_launch c' = l /\
       owned_objects c' = owned_objects c /\ regions c' = regions c /\
       (context c', runtime c', task c') = (context c, runtime c, task c))
  /\
  (forall (c : Context) (l : option nat),
     current_launch c <> l ->
     Context_end_launch c l = Raise AssertionError)
  /\
  (forall (c : Context) (l : option nat),
     current_launch c = l ->
     exists c',
       Context_end_launch c l = Ok c' /\ current_launch c' = None /\
       owned_objects c' = owned_objects c /\ regions c' = regions c /\
       (context c', runtime c', task c') = (context c, runtime c, task c))
  /\
  (forall (c c1 : Context) (l : nat),
     Context_begin_launch c (Some l) = Ok c1 ->
     (forall l', Context_begin_launch c1 l' = Raise AssertionError) /\
     (forall l', l' <> Some l ->
                 Context_end_launch c1 l' = Raise AssertionError) /\
     exists c2, Context_end_launch c1 (Some l) = Ok c2 /\
                current_launch c2 = None).
Proof.
  assert (forall c l, current_launch c <> None ->
                      Context_begin_launch c l = Raise AssertionError) as Hb.
  { intros c l Hc. unfold Context_begin_launch.
    rewrite bool_decide_eq_false_2 by done. reflexivity. }
  assert (forall c l, current_launch c <> l ->
                      Context_end_launch c l = Raise AssertionError) as He.
  { intros c l Hc. unfold Context_end_launch.
    rewrite bool_decide_eq_false_2 by done. reflexivity. }
  split_and!; try done.
  - intros c l Hc. unfold Context_begin_launch.
    rewrite bool_decide_eq_true_2 by done. simpl. eauto 10.
  - intros c l Hc. unfold Context_end_launch.
    rewrite bool_decide_eq_true_2 by done. simpl. eauto 10.
  - intros c c1 l H. unfold Context_begin_launch in H.
    apply rbind_ok in H as ([] & _ & [= <-]). split_and!.
    + intros l'. apply Hb. simpl. done.
    + intros l' Hl'. apply He. simpl. congruence.
    + unfold Context_end_launch. simpl.
      rewrite bool_decide_eq_true_2 by done. simpl. eauto.
Qed.

(** The launch with object id 42 begins and ends in the context of a
    task. *)
Lemma one_active_launch_witness :
  (exists c',
     Context_begin_launch sample_context (Some 42%nat) = Ok c' /\
     current_launch c' = Some 42%nat /\
     owned_objects c' = owned_objects sample_context /\
     regions c' = regions sample_context /\
     (context c', runtime c', task c')
     = (context sample_context, runtime sample_context, task sample_context))
  /\
  Context_end_launch sample_context (Some 42%nat) = Raise AssertionError.
Proof.
  split.
  - apply (proj1 (proj2 one_active_launch) sample_context (Some 42%nat)).
    reflexivity.
  - apply (proj1 (proj2 (proj2 one_active_launch))). discriminate.
Defined.

(** ** Task registration *)

Section RegistrationFacts.

Variable max_legion_task_id : Z.

Lemma uint32_ok_1 : uint32_ok 1 = true.
Proof. reflexivity. Qed.

Ltac run_register :=
  unfold Task_register, barrier_phase, bind, lift, ret, get_ctx, get_barrier,
    get_next_legion_task_id, set_next_legion_task_id, set_barrier,
    engine_call, py_assert, get_slot, Task_task_id, can_register,
    registered_state, registration_calls, barrier_calls, register_call,
    assigned_task_id, from_counter, no_task_id, pass_uint32 in *;
  simpl in *.

Ltac split_uint32 :=
  rewrite ?uint32_ok_1 in *;
  repeat match goal with
         | |- context [uint32_ok ?z] =>
             let fits := fresh "fits" in
             let E := fresh in
             remember (uint32_ok z) as fits eqn:E in *; clear E; destruct fits
         | H : context [uint32_ok ?z] |- _ =>
             let fits := fresh "fits" in
             let E := fresh in
             remember (uint32_ok z) as fits eqn:E in *; clear E; destruct fits
         end.

(** A registration that can go through does, and leaves
    [registered_state]. *)
Lemma Task_register_run (self : Task) (task_id : option Z)
  (top_level_task : bool) (s : State) (qualname : list string) :
  can_register max_legion_task_id self task_id top_level_task s = true ->
  body_qualname (body self) = Ok qualname ->
  Task_register max_legion_task_id self task_id top_level_task s
  = (Ok (Task_with_task_id self
           (Some (assigned_task_id s task_id top_level_task))),
     registered_state self task_id top_level_task qualname s).
Proof.
  destruct s as [ctx next barrier calls oid].
  destruct self as [toid [bmod bq] privs rt lf inn idem repl cc astr tid].
  intros Hcan Hq. simpl in Hq. subst bq.
  run_register.
  destruct tid; [discriminate|]. simpl in *.
  destruct barrier as [b|], ctx as [c|]; simpl in *; try discriminate;
    destruct task_id as [z|]; simpl in *;
    try destruct (z =? 0) eqn:Hz; simpl in *;
    destruct top_level_task; simpl in *;
    try (destruct (next <? max_legion_task_id)); simpl in *;
    split_uint32; simpl in *;
    try discriminate; rewrite <- ?app_assoc; reflexivity.
Qed.

(** Otherwise it raises. *)
Lemma Task_register_raises (self : Task) (task_id : option Z)
  (top_level_task : bool) (s : State) :
  can_register max_legion_task_id self task_id top_level_task s = false ->
  exists e s',
    Task_register max_legion_task_id self task_id top_level_task s
    = (Raise e, s').
Proof.
  destruct s as [ctx next barrier calls oid].
  destruct self as [toid [bmod bq] privs rt lf inn idem repl cc astr tid].
  intros Hcan. run_register.
  destruct tid; simpl in *; [eauto|].
  destruct bq as [q|e]; simpl in *;
    destruct barrier as [b|], ctx as [c|]; simpl in *; try discriminate;
    destruct task_id as [z|]; simpl in *;
    try destruct (z =? 0) eqn:Hz; simpl in *;
    destruct top_level_task; simpl in *;
    try (destruct (next <? max_legion_task_id)); simpl in *;
    split_uint32; simpl in *;
    try discriminate; eauto.
Qed.

Lemma Task_register_inv (self self' : Task) (task_id : option Z)
  (top_level_task : bool) (s s' : State) :
  Task_register max_legion_task_id self task_id top_level_task s
  = (Ok self', s') ->
  can_register max_legion_task_id self task_id top_level_task s = true /\
  exists qualname,
    body_qualname (body self) = Ok qualname /\
    self' = Task_with_task_id self
              (Some (assigned_task_id s task_id top_level_task)) /\
    s' = registered_state self task_id top_level_task qualname s.
Proof.
  intros H.
  destruct (can_register max_legion_task_id self task_id top_level_task s)
    eqn:Hcan.
  - split; [done|].
    assert (exists q, body_qualname (body self) = Ok q) as [q Hq].
    { unfold can_register in Hcan.
      destruct (body_qualname (body self)) as [q|e]; [eauto|].
      simpl in Hcan. rewrite andb_false_r in Hcan. discriminate. }
    exists q. split; [done|].
    rewrite (Task_register_run _ _ _ _ q Hcan Hq) in H.
    injection H as <- <-. done.
  - apply Task_register_raises in Hcan as (e & s1 & Hr).
    rewrite Hr in H. discriminate.
Qed.

(** The counter never decreases, whatever is registered and whether or
    not the registration succeeds. *)
Lemma Task_register_counter (self : Task) (task_id : option Z)
  (top_level_task : bool) (s : State) :
  next_legion_task_id s
  <= next_legion_task_id
       (snd (Task_register max_legion_task_id self task_id top_level_task s)).
Proof.
  destruct s as [ctx next barrier calls oid].
  destruct self as [toid [bmod bq] privs rt lf inn idem repl cc astr tid].
  run_register.
  destruct tid; simpl in *; [lia|].
  destruct bq as [q|e]; simpl in *;
    destruct barrier as [b|], ctx as [c|]; simpl in *;
    destruct task_id as [z|]; simpl in *;
    try destruct (z =? 0) eqn:Hz; simpl in *;
    destruct top_level_task; simpl in *;
    try (destruct (next <? max_legion_task_id)); simpl in *;
    split_uint32; simpl in *; lia.
Qed.

Lemma registration_steps_counter (s s' : State) :
  rtc (registration_step max_legion_task_id) s s' ->
  next_legion_task_id s <= next_legion_task_id s'.
Proof.
  induction 1 as [|s s1 s' (self & tid & top & ->) _ IH]; [lia|].
  etrans; [apply Task_register_counter|exact IH].
Qed.

End RegistrationFacts.

(** C6, as amended.  Registering a task that already has an identifier
    fails.  A registration without an explicit identifier ([None] or [0])
    of a task that is not the top-level task takes the current value of
    the counter [next_legion_task_id], which is below [max_legion_task_id]
    and fits a [legion_task_id_t], and advances the counter by one; the
    top-level task gets the identifier 1 and leaves the counter alone.  No
    registration ever lowers the counter, so of two registrations that
    draw from it the later one gets the strictly larger identifier.  Such
    a registration succeeds whenever the task has no identifier yet, its
    qualified name resolves, the counter is below the bound and fits, and
    a context is set or no barrier is.  Identifiers are not protected
    against reuse, though: a registration with an explicit identifier
    takes it unchecked, also when it is the one that the counter has just
    handed out to another task. *)
Theorem task_id_assignment (max_legion_task_id : Z) :
  (forall (self : Task) (task_id : option Z) (top_level_task : bool)
          (s : State),
     Task_task_id self <> None ->
     Task_register max_legion_task_id self task_id top_level_task s
     = (Raise AssertionError, s))
  /\
  (forall (self self' : Task) (task_id : option Z) (s s' : State),
     no_task_id task_id = true ->
     Task_register max_legion_task_id self task_id false s = (Ok self', s') ->
     Task_task_id self' = Some (next_legion_task_id s) /\
     next_legion_task_id s < max_legion_task_id /\
     0 <= next_legion_task_id s <= uint32_max /\
     next_legion_task_id s' = next_legion_task_id s + 1)
  /\
  (forall (self self' : Task) (task_id : option Z) (s s' : State),
     no_task_id task_id = true ->
     Task_register max_legion_task_id self task_id true s = (Ok self', s') ->
     Task_task_id self' = Some 1 /\
     next_legion_task_id s' = next_legion_task_id s)
  /\
  (forall (t1 t1' t2 t2' : Task) (id1 id2 : option Z) (s1 s1' s2 s2' : State),
     no_task_id id1 = true -> no_task_id id2 = true ->
     Task_register max_legion_task_id t1 id1 false s1 = (Ok t1', s1') ->
     rtc (registration_step max_legion_task_id) s1' s2 ->
     Task_register max_legion_task_id t2 id2 false s2 = (Ok t2', s2') ->
     exists i1 i2,
       Task_task_id t1' = Some i1 /\ Task_task_id t2' = Some i2 /\ i1 < i2)
  /\
  (forall (self : Task) (qualname : list string) (s : State),
     Task_task_id self = None ->
     body_qualname (body self) = Ok qualname ->
     next_legion_task_id s < max_legion_task_id ->
     0 <= next_legion_task_id s <= uint32_max ->
     global_task_registration_barrier s = None \/ my_ctx s <> None ->
     exists self' s',
       Task_register max_legion_task_id self None false s = (Ok self', s'))
  /\
  (forall (t1 t1' t2 : Task) (id1 : option Z) (top_level_task : bool)
          (s1 s1' : State) (qualname : list string),
     no_task_id id1 = true ->
     Task_register max_legion_task_id t1 id1 false s1 = (Ok t1', s1') ->
     next_legion_task_id s1 <> 0 ->
     Task_task_id t2 = None ->
     body_qualname (body t2) = Ok qualname ->
     exists t2' s2',
       Task_register max_legion_task_id t2 (Some (next_legion_task_id s1))
         top_level_task s1'
       = (Ok t2', s2') /\
       Task_task_id t2' = Task_task_id t1').
Proof.
  assert (forall z, uint32_ok z = true <-> 0 <= z <= uint32_max) as Hfit.
  { intros z. unfold uint32_ok. rewrite andb_true_iff, Z.leb_le, Z.leb_le.
    done. }
  assert (forall self self' task_id s s',
            no_task_id task_id = true ->
            Task_register max_legion_task_id self task_id false s
            = (Ok self', s') ->
            Task_task_id self' = Some (next_legion_task_id s) /\
            next_legion_task_id s < max_legion_task_id /\
            0 <= next_legion_task_id s <= uint32_max /\
            next_legion_task_id s' = next_legion_task_id s + 1) as Hauto.
  { intros self self' tid s s' Hno H.
    apply Task_register_inv in H as (Hcan & q & _ & -> & ->).
    unfold can_register, from_counter, assigned_task_id in *.
    rewrite Hno in *. simpl in *.
    apply andb_true_iff in Hcan as [Hcan _].
    apply andb_true_iff in Hcan as [Hcan Hu%Hfit].
    apply andb_true_iff in Hcan as [_ Hlt%Z.ltb_lt].
    unfold from_counter. rewrite Hno. simpl. done. }
  split_and!.
  - intros self tid top s Hid. unfold Task_register, Task_task_id in *.
    unfold bind, lift. rewrite bool_decide_eq_false_2 by done. reflexivity.
  - exact Hauto.
  - intros self self' tid s s' Hno H.
    apply Task_register_inv in H as (_ & q & _ & -> & ->).
    simpl. unfold from_counter, assigned_task_id. rewrite Hno. simpl. done.
  - intros t1 t1' t2 t2' id1 id2 s1 s1' s2 s2' Hn1 Hn2 H1 Hsteps H2.
    apply Hauto in H1 as (Hi1 & _ & _ & Hc1); [|done].
    apply Hauto in H2 as (Hi2 & _ & _ & _); [|done].
    apply registration_steps_counter in Hsteps.
    exists (next_legion_task_id s1), (next_legion_task_id s2).
    split_and!; [done|done|lia].
  - intros self q s Hid Hq Hlt Hu Hctx.
    eexists _, _. apply (Task_register_run _ _ _ _ _ q); [|done].
    unfold can_register, from_counter, assigned_task_id. simpl.
    rewrite Hq, bool_decide_eq_true_2 by done. simpl.
    rewrite (proj2 (Z.ltb_lt _ _) Hlt), (proj2 (Hfit _) Hu). simpl.
    apply orb_true_iff.
    destruct Hctx; [left|right]; by apply bool_decide_eq_true_2.
  - intros t1 t1' t2 id1 top s1 s1' q Hno H1 Hnz Hnone Hq.
    pose proof (Hauto _ _ _ _ _ Hno H1) as (Hid1 & _ & Hu & _).
    apply Task_register_inv in H1 as (Hcan & q1 & _ & _ & ->).
    assert (no_task_id (Some (next_legion_task_id s1)) = false) as Hex.
    { simpl. by apply Z.eqb_neq. }
    eexists _, _. split.
    + apply (Task_register_run _ _ _ _ _ q); [|done].
      unfold can_register, from_counter, assigned_task_id in *.
      rewrite Hex, Hq. simpl.
      rewrite (bool_decide_eq_true_2 _ Hnone), (proj2 (Hfit _) Hu). simpl.
      apply andb_true_iff in Hcan as [_ Hcan].
      destruct (global_task_registration_barrier s1); simpl in *; done.
    + rewrite Hid1. simpl. unfold assigned_task_id. by rewrite Hex.
Qed.

(** Two tasks registered one after the other while no barrier is set: the
    identifiers are 100 and 101. *)
Lemma task_id_assignment_witness :
  (exists self' s',
     Task_register (100 + max_legion_python_tasks) (sample_task 1) None false
       state_in_task = (Ok self', s'))
  /\
  (forall self' s',
     Task_register (100 + max_legion_python_tasks) (sample_task 1) None false
       state_in_task = (Ok self', s') ->
     Task_task_id self' = Some 100 /\
     100 < 100 + max_legion_python_tasks /\
     0 <= 100 <= uint32_max /\
     next_legion_task_id s' = 101)
  /\
  Task_register (100 + max_legion_python_tasks)
    (Task_with_task_id (sample_task 1) (Some 100)) None false state_in_task
  = (Raise AssertionError, state_in_task).
Proof.
  pose proof (task_id_assignment (100 + max_legion_python_tasks))
    as (Hagain & Hauto & _ & _ & Hok & _).
  split_and!.
  - apply (Hok (sample_task 1) ["main"%string; "step"%string] state_in_task);
      [reflexivity|reflexivity|reflexivity|by vm_compute|left; reflexivity].
  - intros self' s'.
    apply (Hauto (sample_task 1) self' None state_in_task s'). reflexivity.
  - apply Hagain. discriminate.
Defined.

(** C6, as stated, fails: identifiers can be reused.  The counter hands
    100 to a first task; a second task is then registered with the
    explicit identifier 100 and gets it. *)
Lemma counter_id_reused :
  exists t1 s1 t2 s2,
    Task_register (100 + max_legion_python_tasks) (sample_task 1) None false
      state_in_task = (Ok t1, s1) /\
    Task_register (100 + max_legion_python_tasks) (sample_task 2) (Some 100)
      false s1 = (Ok t2, s2) /\
    Task_task_id t1 = Some 100 /\ Task_task_id t2 = Some 100 /\
    t_oid t1 <> t_oid t2.
Proof.
  eexists _, _, _, _. split; [vm_compute; reflexivity|].
  split; [vm_compute; reflexivity|]. simpl.
  split_and!; [reflexivity|reflexivity|discriminate].
Defined.

(** ** Construction of an index launch *)

(** C10.  [IndexLaunch(domain)] with an Ispace raises [NameError],
    whatever the Ispace and the state: the name [ispace] that the branch
    reads is bound nowhere.  With a Domain it succeeds and keeps that
    Domain; with anything else it succeeds exactly when [Domain.create]
    accepts the value, and keeps the Domain created. *)
Theorem IndexLaunch_of_Ispace_raises :
  (forall (max_dim : nat) (i : Ispace) (s : State),
     fst (IndexLaunch_init max_dim (OfIspace i) s) = Raise NameError)
  /\
  (forall (max_dim : nat) (d : Domain) (s : State),
     exists l s',
       IndexLaunch_init max_dim (OfDomain d) s = (Ok l, s') /\
       launch_domain l = d)
  /\
  (forall (max_dim : nat) (extent : IntOrSeq) (s : State),
     match Domain_create max_dim extent None with
     | Ok d =>
         exists l s',
           IndexLaunch_init max_dim (OfExtent extent) s = (Ok l, s') /\
           launch_domain l = d
     | Raise e =>
         fst (IndexLaunch_init max_dim (OfExtent extent) s) = Raise e
     end).
Proof.
  split_and!.
  - intros max_dim i s. reflexivity.
  - intros max_dim d s. eexists _, _. split; reflexivity.
  - intros max_dim extent s. unfold IndexLaunch_init, bind, new_object, lift.
    destruct (Domain_create max_dim extent None) as [d|e]; simpl.
    + eexists _, _. split; reflexivity.
    + reflexivity.
Qed.

(** ** Compatibility of the spawns of one index launch *)

Lemma check_argument_raises (pair : option Arg * option Arg) :
  (exists e, check_argument pair = Raise e) <->
  (exists a, fst pair = Some a /\ is_region_like a) \/ other_object pair.
Proof.
  unfold check_argument, other_object, is_region_like, Future_ne.
  destruct pair as [[a|] sa]; simpl.
  - destruct a as [|v|p|i|r|rf|f]; simpl;
      try (split; [intros [e He]; discriminate
                  |intros [(a & [= <-] & [[? ?]|[? ?]])|(f & ? & _)];
                   discriminate]).
    + split; [intros _|eauto]. left. eexists. split; [done|]. left. eauto.
    + split; [intros _|eauto]. left. eexists. split; [done|]. right. eauto.
    + destruct sa as [[|v|p|i|r|rf|g]|]; simpl;
        try (split; [intros _; right; exists f; split; [done|];
                     intros g Hg; discriminate
                    |eauto]).
      destruct (fut_oid f =? fut_oid g)%nat eqn:E; simpl.
      * apply Nat.eqb_eq in E. split; [intros [e He]; discriminate|].
        intros [(a & [= <-] & [[? ?]|[? ?]])|(f' & [= <-] & Hne)];
          try discriminate.
        exfalso. by apply (Hne g).
      * apply Nat.eqb_neq in E. split; [intros _|eauto].
        right. exists f. split; [done|]. intros g' [= <-]. congruence.
  - split; [intros [e He]; discriminate|].
    intros [(a & Ha & _)|(f & Hf & _)]; discriminate.
Qed.

Lemma rmapM_raises {A B} (f : A -> result B) (l : list A) :
  (exists e, rmapM f l = Raise e) <-> Exists (fun x => exists e, f x = Raise e) l.
Proof.
  induction l as [|x l IH]; simpl.
  - split; [intros [e He]; discriminate|intros H; inversion H].
  - rewrite Exists_cons. destruct (f x) as [y|e] eqn:E; simpl.
    + rewrite <- IH. destruct (rmapM f l) as [ys|e']; simpl.
      * split; [intros [e He]; discriminate|].
        intros [[e He]|[e He]]; discriminate.
      * split; eauto.
    + split; eauto.
Qed.

Lemma zip_longest_fst_Exists {A B} (P : A -> Prop) (l : list A) (k : list B) :
  Exists (fun pair => exists a, fst pair = Some a /\ P a) (zip_longest l k)
  <-> Exists P l.
Proof.
  revert k. induction l as [|x l IH]; intros k; simpl.
  - split; [|intros H; inversion H].
    intros H. apply Exists_exists in H as (pair & Hin & a & Ha & _).
    apply list_elem_of_fmap in Hin as (y & -> & _). discriminate.
  - destruct k as [|y k]; rewrite !Exists_cons, IH; simpl;
      (split; intros [H|H]; [left|right|left|right]; try done;
       [by destruct H as (a & [= <-] & ?)|eauto]).
Qed.

Lemma check_compatibility_saved (self : IndexLaunch) (task : Task)
  (args : list Arg) :
  let self' := fst (check_compatibility self task args) in
  saved_task self' = Some (default task (saved_task self)) /\
  (saved_args self <> None -> saved_args self' = saved_args self) /\
  (saved_task self = None -> saved_args self' = Some (default args (saved_args self))) /\
  launcher self' = launcher self /\ point self' = point self /\
  launch_domain self' = launch_domain self /\ launch_oid self' = launch_oid self.
Proof.
  unfold check_compatibility.
  destruct (saved_task self) as [t|] eqn:Ht; simpl.
  - destruct (Task_ne task t); simpl; split_and!; try done.
    intros Hs. destruct (saved_args self); done.
  - unfold Task_ne. rewrite Nat.eqb_refl. simpl. split_and!; try done.
    intros Hs. destruct (saved_args self); done.
Qed.

Lemma check_compatibility_raises (self : IndexLaunch) (task : Task)
  (args : list Arg) :
  (exists e, snd (check_compatibility self task args) = Raise e)
  <-> rejection self task args.
Proof.
  unfold check_compatibility, rejection.
  destruct (saved_task self) as [t|] eqn:Ht; simpl.
  - unfold Task_ne. destruct (t_oid task =? t_oid t)%nat eqn:E; simpl.
    + apply Nat.eqb_eq in E.
      rewrite <- (zip_longest_fst_Exists is_region_like args
                    (default args (saved_args self))).
      split.
      * intros [e He]. right.
        destruct (rmapM check_argument _) as [u|e'] eqn:Hm; [discriminate|].
        assert (exists e, rmapM check_argument
                  (zip_longest args (default args (saved_args self)))
                = Raise e) as Hr by eauto.
        apply rmapM_raises, Exists_exists in Hr as (pair & Hin & Hp).
        apply check_argument_raises in Hp as [Hp|Hp];
          [left|right]; apply Exists_exists; eauto.
      * intros [(t' & [= <-] & Hne)|H]; [congruence|].
        assert (Exists (fun x => exists e, check_argument x = Raise e)
                  (zip_longest args (default args (saved_args self)))) as Hex.
        { destruct H as [H|H]; apply Exists_exists in H as (pair & Hin & Hp);
            apply Exists_exists; exists pair; split; try done;
            apply check_argument_raises; eauto. }
        apply rmapM_raises in Hex as [e He]. rewrite He. simpl. eauto.
    + apply Nat.eqb_neq in E. split; [intros _|eauto].
      left. exists t. split; [done|]. congruence.
  - unfold Task_ne. rewrite Nat.eqb_refl. simpl.
    rewrite <- (zip_longest_fst_Exists is_region_like args
                  (default args (saved_args self))).
    split.
    + intros [e He]. right.
      destruct (rmapM check_argument _) as [u|e'] eqn:Hm; [discriminate|].
      assert (exists e, rmapM check_argument
                (zip_longest args (default args (saved_args self)))
              = Raise e) as Hr by eauto.
      apply rmapM_raises, Exists_exists in Hr as (pair & Hin & Hp).
      apply check_argument_raises in Hp as [Hp|Hp];
        [left|right]; apply Exists_exists; eauto.
    + intros [(t' & [=] & _)|H].
      assert (Exists (fun x => exists e, check_argument x = Raise e)
                (zip_longest args (default args (saved_args self)))) as Hex.
      { destruct H as [H|H]; apply Exists_exists in H as (pair & Hin & Hp);
          apply Exists_exists; exists pair; split; try done;
          apply check_argument_raises; eauto. }
      apply rmapM_raises in Hex as [e He]. rewrite He. simpl. eauto.
Qed.

Lemma check_compatibility_accepts (self : IndexLaunch) (task : Task)
  (args : list Arg) :
  snd (check_compatibility self task args) = Ok tt <-> ~ rejection self task args.
Proof.
  rewrite <- check_compatibility_raises.
  destruct (snd (check_compatibility self task args)) as [[]|e].
  - split; [intros _ [e He]; discriminate|done].
  - split; [discriminate|]. intros H. exfalso. apply H. eauto.
Qed.

Section SpawnOrder.

Variable engine : Engine.
Variable _max_dim : nat.

(** A spawn that the check refuses raises before it gathers, encodes or
    attaches anything: the only engine call it can have made is the
    creation of the argument map of the launcher. *)
Lemma spawn_rejected_early (self : IndexLaunch) (task : Task)
  (args : list Arg) (s : State) (e : PyError) :
  snd (check_compatibility self task args) = Raise e ->
  exists self' s',
    IndexLaunch_spawn_task engine self task args s = (self', Raise e, s') /\
    engine_calls s'
    = engine_calls s ++ match launcher self with
                        | None => [legion_argument_map_create]
                        | Some _ => []
                        end.
Proof.
  intros H. unfold IndexLaunch_spawn_task, ensure_launcher.
  destruct (launcher self) as [l|] eqn:Hl.
  - unfold ret. destruct (check_compatibility self task args) as [self2 r].
    simpl in H. subst r. eexists _, _. split; [reflexivity|].
    by rewrite app_nil_r.
  - unfold bind, get_trace, engine_call, ret. simpl.
    match goal with
    | |- context [check_compatibility ?x task args] =>
        assert (snd (check_compatibility x task args) = Raise e) as H'
          by (rewrite <- H; unfold check_compatibility; simpl;
              destruct (Task_ne task (default task (saved_task self)));
              reflexivity);
        destruct (check_compatibility x task args) as [self2 r]
    end.
    simpl in H'. subst r. eexists _, _. split; reflexivity.
Qed.

End SpawnOrder.

(** ** Registration under the global barrier *)

Lemma advance_ne (b : legion_phase_barrier_t) : phase_barrier_advance b <> b.
Proof. destruct b as [id g]. unfold phase_barrier_advance. simpl. intros [=]. lia. Qed.

Lemma advance2_ne (b : legion_phase_barrier_t) :
  phase_barrier_advance (phase_barrier_advance b) <> b.
Proof. destruct b as [id g]. unfold phase_barrier_advance. simpl. intros [=]. lia. Qed.

Lemma previous_advance (b : legion_phase_barrier_t) :
  previous_generation (phase_barrier_advance b) = Some b.
Proof. by destruct b. Qed.

Section ShardFacts.

Variable max_legion_task_id : Z.
Variable b : legion_phase_barrier_t.
Variable self : Task.
Variable task_id : option Z.
Variable top_level_task : bool.
Variable qualname : list string.

Local Abbreviation b1 := (phase_barrier_advance b).
Local Abbreviation b2 := (phase_barrier_advance (phase_barrier_advance b)).
Local Abbreviation runs :=
  (registers_under b self task_id top_level_task qualname).
Local Abbreviation barrier_inv :=
  (barrier_invariant b self task_id top_level_task qualname).

Ltac barrier_cases :=
  rewrite ?(bool_decide_eq_true_2 (b1 = b1) eq_refl),
    ?(bool_decide_eq_true_2 (b2 = b2) eq_refl),
    ?(bool_decide_eq_false_2 (b = b1) (fun H => advance_ne b (eq_sym H))),
    ?(bool_decide_eq_false_2 (b1 = b2) (fun H => advance_ne b1 (eq_sym H))),
    ?(bool_decide_eq_false_2 (b = b2) (fun H => advance2_ne b (eq_sym H))),
    ?(bool_decide_eq_false_2 (b1 = b) (advance_ne b)),
    ?(bool_decide_eq_false_2 (b2 = b1) (advance_ne b1)),
    ?(bool_decide_eq_false_2 (b2 = b) (advance2_ne b)).

Lemma shard_program_eq (s : State) :
  can_register max_legion_task_id self task_id top_level_task s = true ->
  body_qualname (body self) = Ok qualname ->
  shard_program max_legion_task_id self task_id top_level_task s
  = registration_calls (global_task_registration_barrier s) self
      (assigned_task_id s task_id top_level_task) top_level_task qualname.
Proof.
  intros Hcan Hq. unfold shard_program.
  rewrite (Task_register_run _ _ _ _ _ qualname Hcan Hq). simpl.
  by rewrite drop_app_length.
Qed.

(** Where a shard stands, read off its program counter. *)
Lemma shard_position (s : State) (sh : Shard) :
  runs s sh ->
  shard_arrivals b1 sh = (if bool_decide (9 <= pc sh)%nat then 1 else 0) /\
  (waited b2 sh = true -> (11 <= pc sh)%nat) /\
  ((9 <= pc sh)%nat ->
   arrived b1 sh = true /\
   registered_id sh = Some (assigned_task_id s task_id top_level_task)) /\
  program sh !! 10%nat = Some (legion_phase_barrier_wait b2).
Proof.
  unfold registers_under, shard_arrivals, waited, arrived, registered_id,
    calls_made.
  destruct sh as [prog n]. simpl. intros ->.
  unfold registration_calls, barrier_calls, register_call. simpl.
  do 14 (try destruct n as [|n]); simpl; barrier_cases; simpl;
    (split_and!; [try reflexivity; try (case_bool_decide; [lia|reflexivity]);
                  try (case_bool_decide; [reflexivity|lia])
                 |try discriminate; intros; lia
                 |intros; try lia; split; reflexivity
                 |reflexivity]).
Qed.

Lemma arrivals_bound (states : list State) (w : list Shard) :
  Forall2 runs states w ->
  arrivals b1 w <= Z.of_nat (length w) /\
  (Z.of_nat (length w) <= arrivals b1 w ->
   Forall (fun sh => (9 <= pc sh)%nat) w).
Proof.
  induction 1 as [|s sh states w Hsh _ IH]; unfold arrivals in *; simpl.
  - split; [lia|constructor].
  - destruct (shard_position s sh Hsh) as (Ha & _).
    rewrite Ha. destruct IH as [IH1 IH2].
    case_bool_decide.
    + split; [lia|]. intros Hle. constructor; [done|]. apply IH2. lia.
    + split; [lia|]. intros Hle. lia.
Qed.

Lemma barrier_invariant_step (states : list State) (w w' : list Shard) :
  barrier_inv states w ->
  shard_step (Z.of_nat (length states)) w w' ->
  barrier_inv states w'.
Proof.
  intros [Hruns Hwait] Hstep.
  destruct Hstep as [w i sh c Hi Hc Hret].
  assert (length states = length w) as Hlen by (by eapply Forall2_length).
  assert (exists s, states !! i = Some s /\ runs s sh) as (s & Hs & Hsh).
  { destruct (Forall2_lookup_r _ _ _ _ _ Hruns Hi) as (s & ? & ?). eauto. }
  split.
  - apply Forall2_same_length_lookup. split; [by rewrite length_insert|].
    intros j s' sh' Hs' Hsh'.
    destruct (decide (i = j)) as [->|Hne].
    + rewrite list_lookup_insert_eq in Hsh' by (by eapply lookup_lt_Some).
      injection Hsh' as <-. rewrite Hs in Hs'. injection Hs' as <-.
      exact Hsh.
    + rewrite list_lookup_insert_ne in Hsh' by done.
      eapply Forall2_lookup_lr; eauto.
  - intros Hex.
    assert (Forall (fun sh => (9 <= pc sh)%nat) w) as Hall.
    { apply Exists_exists in Hex as (sh0 & Hin & Hpc).
      apply list_elem_of_lookup in Hin as [j Hj].
      destruct (decide (i = j)) as [->|Hne].
      - rewrite list_lookup_insert_eq in Hj by (by eapply lookup_lt_Some).
        injection Hj as <-. simpl in Hpc.
        destruct (decide (11 <= pc sh)%nat) as [Hold|Hnew].
        + apply Hwait, Exists_exists. exists sh. split; [|done].
          apply list_elem_of_lookup. eauto.
        + assert (pc sh = 10%nat) as Hnine by lia.
          destruct (shard_position s sh Hsh) as (_ & _ & _ & Hprog).
          rewrite Hnine, Hprog in Hc. injection Hc as <-.
          unfold may_return in Hret. rewrite previous_advance in Hret.
          apply (arrivals_bound states w Hruns). lia.
      - rewrite list_lookup_insert_ne in Hj by done.
        apply Hwait, Exists_exists. exists sh0. split; [|done].
        apply list_elem_of_lookup. eauto. }
    apply Forall_insert; [done|]. simpl.
    rewrite Forall_lookup in Hall. specialize (Hall i sh Hi). simpl in Hall. lia.
Qed.

Lemma barrier_invariant_steps (states : list State) (w w' : list Shard) :
  barrier_inv states w ->
  rtc (shard_step (Z.of_nat (length states))) w w' ->
  barrier_inv states w'.
Proof.
  intros Hinv Hsteps. induction Hsteps as [|w w1 w' Hstep _ IH]; [done|].
  apply IH. by eapply barrier_invariant_step.
Qed.

Lemma barrier_invariant_start (states : list State) :
  body_qualname (body self) = Ok qualname ->
  Forall (fun s =>
            global_task_registration_barrier s = Some b /\
            can_register max_legion_task_id self task_id top_level_task s
            = true) states ->
  barrier_inv states
    (start_shards max_legion_task_id self task_id top_level_task states).
Proof.
  intros Hq Hall. split.
  - unfold start_shards. induction Hall as [|s states [Hb Hcan] _ IH]; simpl;
      constructor; [|exact IH].
    unfold registers_under. simpl.
    rewrite (shard_program_eq s Hcan Hq), Hb. reflexivity.
  - intros Hex. exfalso. apply Exists_exists in Hex as (sh & Hin & Hpc).
    unfold start_shards in Hin.
    apply list_elem_of_fmap in Hin as (s & -> & _). simpl in Hpc. lia.
Qed.

Lemma barrier_safety (states : list State) (w : list Shard) :
  body_qualname (body self) = Ok qualname ->
  Forall (fun s =>
            global_task_registration_barrier s = Some b /\
            can_register max_legion_task_id self task_id top_level_task s
            = true) states ->
  rtc (shard_step (Z.of_nat (length states)))
      (start_shards max_legion_task_id self task_id top_level_task states) w ->
  Exists (fun sh => waited b2 sh = true) w ->
  Forall2 (fun s sh =>
             arrived b1 sh = true /\
             registered_id sh
             = Some (assigned_task_id s task_id top_level_task))
          states w.
Proof.
  intros Hq Hall Hsteps Hex.
  destruct (barrier_invariant_steps states _ w
              (barrier_invariant_start states Hq Hall) Hsteps)
    as [Hruns Hwait].
  assert (Forall (fun sh => (9 <= pc sh)%nat) w) as Hpc.
  { apply Hwait. apply Exists_exists in Hex as (sh & Hin & Hw).
    apply Exists_exists. exists sh. split; [done|].
    apply list_elem_of_lookup in Hin as [j Hj].
    destruct (Forall2_lookup_r _ _ _ _ _ Hruns Hj) as (s & _ & Hsh).
    by apply (shard_position s sh Hsh). }
  apply Forall2_same_length_lookup. split; [by eapply Forall2_length|].
  intros j s sh Hs Hsh.
  rewrite Forall_lookup in Hpc. specialize (Hpc j sh Hsh).
  pose proof (Forall2_lookup_lr _ _ _ _ _ _ Hruns Hs Hsh) as Hr.
  by apply (shard_position s sh Hr).
Qed.

End ShardFacts.

Ltac shard_returns i :=
  eapply rtc_l;
  [ eapply (shard_call _ _ i);
    [ reflexivity | reflexivity | vm_compute; first [exact I | discriminate] ]
  | vm_compute ].

(** C8, as amended.  When the global barrier [b] is set, a registration
    that succeeds makes, in this order, the calls: arrive at [b], advance,
    wait; get the runtime and register the task; arrive at the next
    generation, advance, wait (between the creation and the destruction of
    the constraint sets), and leaves the barrier two generations on.  With
    as many shards as the barrier has participants, all registering the
    same task, in every configuration the shards can reach: if some shard
    has returned from its second wait, then every shard has arrived at
    that generation and has registered the identifier that its own state
    assigns.  Nothing makes these identifiers agree: two shards have
    registered the same identifier exactly when their states assign the
    same one, which for an identifier drawn from the counter means that
    their counters agree. *)
Theorem barrier_registration (max_legion_task_id : Z)
  (b : legion_phase_barrier_t) (self : Task) (task_id : option Z)
  (top_level_task : bool) :
  (forall (s s' : State) (self' : Task),
     global_task_registration_barrier s = Some b ->
     Task_register max_legion_task_id self task_id top_level_task s
     = (Ok self', s') ->
     exists qualname,
       body_qualname (body self) = Ok qualname /\
       engine_calls s'
       = engine_calls s ++
         [legion_execution_constraint_set_create;
          legion_execution_constraint_set_add_processor_constraint;
          legion_task_layout_constraint_set_create;
          legion_phase_barrier_arrive b 1;
          legion_phase_barrier_advance b;
          legion_phase_barrier_wait (phase_barrier_advance b);
          legion_runtime_get_runtime;
          register_call self (assigned_task_id s task_id top_level_task)
            top_level_task qualname;
          legion_phase_barrier_arrive (phase_barrier_advance b) 1;
          legion_phase_barrier_advance (phase_barrier_advance b);
          legion_phase_barrier_wait
            (phase_barrier_advance (phase_barrier_advance b));
          legion_execution_constraint_set_destroy;
          legion_task_layout_constraint_set_destroy] /\
       global_task_registration_barrier s'
       = Some (phase_barrier_advance (phase_barrier_advance b)))
  /\
  (forall (states : list State) (w : list Shard),
     Forall (fun s =>
               global_task_registration_barrier s = Some b /\
               can_register max_legion_task_id self task_id top_level_task s
               = true) states ->
     rtc (shard_step (Z.of_nat (length states)))
         (start_shards max_legion_task_id self task_id top_level_task states)
         w ->
     Exists (fun sh =>
               waited (phase_barrier_advance (phase_barrier_advance b)) sh
               = true) w ->
     Forall2 (fun s sh =>
                arrived (phase_barrier_advance b) sh = true /\
                registered_id sh
                = Some (assigned_task_id s task_id top_level_task))
             states w)
  /\
  (forall (states : list State) (w : list Shard) (i j : nat)
          (si sj : State) (shi shj : Shard),
     Forall (fun s =>
               global_task_registration_barrier s = Some b /\
               can_register max_legion_task_id self task_id top_level_task s
               = true) states ->
     rtc (shard_step (Z.of_nat (length states)))
         (start_shards max_legion_task_id self task_id top_level_task states)
         w ->
     Exists (fun sh =>
               waited (phase_barrier_advance (phase_barrier_advance b)) sh
               = true) w ->
     states !! i = Some si -> states !! j = Some sj ->
     w !! i = Some shi -> w !! j = Some shj ->
     (registered_id shi = registered_id shj
      <-> assigned_task_id si task_id top_level_task
          = assigned_task_id sj task_id top_level_task))
  /\
  (forall s1 s2 : State,
     assigned_task_id s1 task_id top_level_task
     = assigned_task_id s2 task_id top_level_task
     <-> (from_counter task_id top_level_task = true ->
          next_legion_task_id s1 = next_legion_task_id s2)).
Proof.
  assert (forall (states : list State) (w : list Shard),
     Forall (fun s =>
               global_task_registration_barrier s = Some b /\
               can_register max_legion_task_id self task_id top_level_task s
               = true) states ->
     rtc (shard_step (Z.of_nat (length states)))
         (start_shards max_legion_task_id self task_id top_level_task states)
         w ->
     Exists (fun sh =>
               waited (phase_barrier_advance (phase_barrier_advance b)) sh
               = true) w ->
     Forall2 (fun s sh =>
                arrived (phase_barrier_advance b) sh = true /\
                registered_id sh
                = Some (assigned_task_id s task_id top_level_task))
             states w) as Hsafe; [|split_and!; [|exact Hsafe| |]].
  4: { intros s1 s2. unfold assigned_task_id, from_counter.
       destruct (no_task_id task_id), top_level_task; simpl;
         split; try done; intros H; by apply H. }
  3: { intros states w i j si sj shi shj Hall Hsteps Hex Hsi Hsj Hshi Hshj.
       pose proof (Hsafe states w Hall Hsteps Hex) as H2.
       destruct (Forall2_lookup_lr _ _ _ _ _ _ H2 Hsi Hshi) as [_ Hi].
       destruct (Forall2_lookup_lr _ _ _ _ _ _ H2 Hsj Hshj) as [_ Hj].
       rewrite Hi, Hj. split; [by intros [= ->]|by intros ->]. }
  2: { intros s s' self' Hb H.
       apply Task_register_inv in H as (_ & q & Hq & _ & ->).
       exists q. split; [done|]. simpl. rewrite Hb. split; reflexivity. }
  intros states w Hall Hsteps Hex.
  destruct (body_qualname (body self)) as [q|e] eqn:Hq.
  - by apply (barrier_safety max_legion_task_id b self task_id
                top_level_task q states w).
  - destruct Hall as [|s states [_ Hcan] _].
    + apply rtc_inv in Hsteps as [<-|(w1 & Hstep & _)].
      * by apply Exists_nil in Hex.
      * inversion Hstep as [? i sh c Hi]. simpl in *.
        by rewrite lookup_nil in Hi.
    + unfold can_register in Hcan. rewrite Hq in Hcan. simpl in Hcan.
      rewrite ?andb_false_r in Hcan. discriminate.
Qed.

(** Two shards: the first cannot leave its first wait before the second
    has arrived, and once it has left its second wait both have
    registered the identifier 100. *)
Lemma barrier_registration_witness :
  Forall2 (fun s sh =>
             arrived (phase_barrier_advance
                        {| pb_id := 77; pb_generation := 0 |}) sh = true /\
             registered_id sh = Some (assigned_task_id s None false))
          two_states two_shards_late.
Proof.
  apply (proj1 (proj2 (barrier_registration
                         (100 + max_legion_python_tasks)
                         {| pb_id := 77; pb_generation := 0 |}
                         (sample_task 1) None false))
           two_states two_shards_late).
  - repeat constructor.
  - vm_compute.
    do 5 shard_returns 0%nat. do 5 shard_returns 1%nat.
    do 5 shard_returns 0%nat. do 4 shard_returns 1%nat.
    do 1 shard_returns 0%nat.
    apply rtc_refl.
  - apply Exists_cons_hd. reflexivity.
Defined.

(** C8, as stated, fails: the protocol does not make the identifiers
    identical.  Two shards whose counters stand at 100 and at 200 register
    the same task under the barrier; both can register, both return from
    every call, the second wait included, and they have registered 100
    and 200. *)
Lemma shards_register_different_ids :
  Forall (fun s =>
            global_task_registration_barrier s
            = Some {| pb_id := 77; pb_generation := 0 |} /\
            can_register (100 + max_legion_python_tasks) (sample_task 1)
              None false s = true)
         [state_with_barrier; state_ahead] /\
  rtc (shard_step 2)
      (start_shards (100 + max_legion_python_tasks) (sample_task 1) None
         false [state_with_barrier; state_ahead])
      two_shards_done /\
  Forall (fun sh =>
            waited (phase_barrier_advance
                      (phase_barrier_advance
                         {| pb_id := 77; pb_generation := 0 |})) sh = true)
         two_shards_done /\
  map registered_id two_shards_done = [Some 100; Some 200].
Proof.
  split; [repeat constructor|]. split.
  - vm_compute.
    do 5 shard_returns 0%nat. do 5 shard_returns 1%nat.
    do 5 shard_returns 0%nat. do 4 shard_returns 1%nat.
    do 3 shard_returns 0%nat. do 4 shard_returns 1%nat.
    apply rtc_refl.
  - split; [repeat constructor|reflexivity].
Defined.

(** * Properties of the rest of the module *)

(** ** Command-line arguments *)

Lemma filter_from_ind (P : list string -> Prop) :
  P [] ->
  (forall a, P [a]) ->
  (forall a b l, P l -> P (b :: l) -> P (a :: b :: l)) ->
  forall l, P l.
Proof.
  intros H0 H1 H2 l.
  assert (P l /\ forall a, P (a :: l)) as [? _]; [|done].
  induction l as [|b l [IH1 IH2]]; [by split|].
  split; [apply IH2|]. intros a. apply H2; [done|apply IH2].
Qed.

Lemma filter_from_cons (a : string) (rest : list string) :
  filter_from (a :: rest)
  = if is_runtime_option a then
      match rest with
      | [] => PopIndexError
      | _ :: rest' => filter_from rest'
      end
    else keep a (filter_from rest).
Proof. reflexivity. Qed.

Lemma filter_from_kept (rest kept : list string) :
  filter_from rest = Kept kept ->
  sublist kept rest /\
  Forall (fun arg => is_runtime_option arg = false) kept.
Proof.
  revert kept. induction rest as [|a|a b l IH1 IH2] using filter_from_ind;
    intros kept.
  - intros [= <-]. split; constructor.
  - rewrite filter_from_cons.
    destruct (is_runtime_option a) eqn:E; [discriminate|].
    intros [= <-]. split; [done|]. by repeat constructor.
  - rewrite filter_from_cons. destruct (is_runtime_option a) eqn:E.
    + intros H. apply IH1 in H as [Hs Hf]. split; [|done].
      by do 2 apply sublist_cons.
    + destruct (filter_from (b :: l)) as [k|] eqn:Hk; [|discriminate].
      intros [= <-]. destruct (IH2 k eq_refl) as [Hs Hf].
      split; [by apply sublist_skip|]. by constructor.
Qed.

Lemma filter_from_clean (l : list string) :
  Forall (fun arg => is_runtime_option arg = false) l ->
  filter_from l = Kept l.
Proof.
  induction 1 as [|a l Ha _ IH]; simpl; [done|]. by rewrite Ha, IH.
Qed.

(** X1.  When [input_args(True)] returns, what it returns is a
    subsequence of the argument vector that starts with the program name
    and holds no runtime option after it; filtering it again changes
    nothing. *)
Theorem input_args_filtered (raw_args kept : list string) :
  input_args raw_args true = Kept kept ->
  sublist kept raw_args /\
  head kept = head raw_args /\
  Forall (fun arg => is_runtime_option arg = false) (tail kept) /\
  input_args kept true = Kept kept.
Proof.
  unfold input_args. destruct raw_args as [|program rest].
  - intros [= <-]. split_and!; done.
  - destruct (filter_from rest) as [k|] eqn:Hk; [|discriminate].
    intros [= <-]. apply filter_from_kept in Hk as [Hs Hf].
    split_and!; [by apply sublist_skip|done|done|].
    simpl. by rewrite filter_from_clean.
Qed.

Lemma input_args_filtered_witness :
  sublist ["prog"; "-x"; "3"]%string
          ["prog"; "-ll:cpu"; "4"; "-x"; "-level"; "-lg:prof"; "3"]%string /\
  head ["prog"; "-x"; "3"]%string
  = head ["prog"; "-ll:cpu"; "4"; "-x"; "-level"; "-lg:prof"; "3"]%string /\
  Forall (fun arg => is_runtime_option arg = false)
         (tail ["prog"; "-x"; "3"]%string) /\
  input_args ["prog"; "-x"; "3"]%string true = Kept ["prog"; "-x"; "3"]%string.
Proof.
  apply (input_args_filtered
           ["prog"; "-ll:cpu"; "4"; "-x"; "-level"; "-lg:prof"; "3"]%string).
  reflexivity.
Defined.

Lemma filter_from_error (l : list string) :
  filter_from l = PopIndexError <->
  exists pre last,
    l = pre ++ [last] /\ is_runtime_option last = true /\
    exists kept, filter_from pre = Kept kept.
Proof.
  induction l as [|a|a b l IH1 IH2] using filter_from_ind.
  - split; [discriminate|]. intros (pre & last & H & _).
    by destruct pre.
  - rewrite filter_from_cons. destruct (is_runtime_option a) eqn:E.
    + split; [intros _|done]. exists [], a. split_and!; [done|done|].
      by exists [].
    + simpl. split; [discriminate|].
      intros (pre & last & H & Hl & _).
      destruct pre as [|x [|y pre]]; simplify_eq/=. congruence.
  - rewrite filter_from_cons. destruct (is_runtime_option a) eqn:E.
    + rewrite IH1. split.
      * intros (pre & last & -> & Hl & k & Hk).
        exists (a :: b :: pre), last. split_and!; [done|done|].
        exists k. by rewrite filter_from_cons, E.
      * intros (pre & last & H & Hl & k & Hk).
        destruct pre as [|x [|y pre]]; simplify_eq/=.
        -- rewrite E in Hk. discriminate.
        -- rewrite E in Hk. exists pre, last. eauto.
    + split.
      * intros H. destruct (filter_from (b :: l)) as [k|] eqn:Hk;
          [discriminate|].
        destruct (proj1 IH2 eq_refl) as (pre & last & Hpre & Hl & k & Hk').
        exists (a :: pre), last. rewrite Hpre. split_and!; [done|done|].
        exists (a :: k). by rewrite filter_from_cons, E, Hk'.
      * intros (pre & last & H & Hl & k & Hk).
        destruct pre as [|x pre]; [discriminate|].
        injection H as <- H.
        rewrite filter_from_cons, E in Hk.
        destruct (filter_from pre) as [k'|] eqn:Hk'; [|discriminate].
        assert (filter_from (b :: l) = PopIndexError) as ->; [|done].
        apply IH2. exists pre, last. eauto.
Qed.

(** X2.  [input_args(True)] raises [IndexError] exactly when the last
    argument is a runtime option that the scan reaches as an option (the
    arguments between the program name and it filter without error): its
    value is popped although there is none. *)
Theorem input_args_option_without_value (raw_args : list string) :
  input_args raw_args true = PopIndexError <->
  exists program pre last,
    raw_args = program :: pre ++ [last] /\
    is_runtime_option last = true /\
    exists kept, filter_from pre = Kept kept.
Proof.
  unfold input_args. destruct raw_args as [|program rest].
  - split; [discriminate|]. intros (? & ? & ? & [=] & _).
  - destruct (filter_from rest) as [k|] eqn:Hk; simpl.
    + split; [discriminate|].
      intros (p & pre & last & [= <- ->] & Hl & k' & Hk').
      assert (filter_from (pre ++ [last]) = PopIndexError) as He
        by (apply filter_from_error; exists pre, last; eauto).
      congruence.
    + split; [intros _|done].
      apply filter_from_error in Hk as (pre & last & -> & ? & ?).
      exists program, pre, last. done.
Qed.

(** ** Privileges *)

(** X3.  [_legion_privilege] fails exactly for a privilege that discards
    without writing.  Otherwise the result is one of 0, 1, 2 and 7: bit 1
    (write) is set exactly when the privilege writes, bit 0 (read) exactly
    when it reads or writes and does not discard, so that a write-only
    privilege is sent as read-write and a discarding one never reads.  The
    result depends on the triple only: restricting a privilege to fields
    gives an equal privilege with the same result. *)
Theorem legion_privilege_bits (p : Privilege) :
  (Privilege_legion_privilege p = Raise AssertionError <->
   discard p = true /\ write p = false)
  /\
  (forall bits,
     Privilege_legion_privilege p = Ok bits ->
     (bits = 0 \/ bits = 1 \/ bits = 2 \/ bits = 7) /\
     Z.testbit bits 0 = negb (discard p) && (read p || write p) /\
     Z.testbit bits 1 = write p /\
     Z.testbit bits 2 = negb (discard p) && write p)
  /\
  (forall q, Privilege_eq p q = true ->
             Privilege_legion_privilege p = Privilege_legion_privilege q)
  /\
  (forall fields,
     Privilege_eq (Privilege_call p fields) p = true /\
     Privilege_legion_privilege (Privilege_call p fields)
     = Privilege_legion_privilege p).
Proof.
  destruct p as [r w d f]. unfold Privilege_legion_privilege. simpl.
  split_and!.
  - destruct d, w, r; simpl; (split; [intros H|intros [H1 H2]]);
      first [discriminate | reflexivity | (split; reflexivity)].
  - intros bits. destruct d, w, r; simpl; intros [= <-]; split_and!; auto.
  - intros [r' w' d' f']. unfold Privilege_eq. simpl.
    intros [= -> -> ->]%bool_decide_eq_true. reflexivity.
  - intros fields. split; [|reflexivity].
    unfold Privilege_eq. simpl. by apply bool_decide_eq_true.
Qed.

Lemma legion_privilege_bits_witness :
  (7 = 0 \/ 7 = 1 \/ 7 = 2 \/ 7 = 7) /\
  Z.testbit 7 0 = negb false && (false || true) /\
  Z.testbit 7 1 = true /\
  Z.testbit 7 2 = negb false && true.
Proof.
  apply (proj1 (proj2 (legion_privilege_bits
                         (Privilege_init false true false))) 7).
  reflexivity.
Defined.

(** ** Points *)

Lemma store_coords_inv (l data : list Z) :
  rmapM store_coord l = Ok data ->
  data = l /\ Forall (fun z => coord_min <= z <= coord_max) l.
Proof.
  revert data. induction l as [|z l IH]; intros data; simpl.
  - intros [= <-]. done.
  - intros H. apply rbind_ok in H as (z' & Hz & H).
    apply store_coord_ok in Hz as [-> Hz].
    apply rbind_ok in H as (ys & Hys & [= <-]).
    apply IH in Hys as [-> Hl]. split; [done|]. by constructor.
Qed.

Lemma store_coords_ok (l : list Z) :
  Forall (fun z => coord_min <= z <= coord_max) l -> rmapM store_coord l = Ok l.
Proof.
  induction 1 as [|z l Hz _ IH]; simpl; [done|].
  rewrite store_coord_in_range by done. simpl. by rewrite IH.
Qed.

Lemma DomainPoint_create_inv (max_dim : nat) (v : IntOrSeq) (p : DomainPoint) :
  DomainPoint_create max_dim v = Ok p ->
  p = mk_point (as_seq v) /\
  dim_in_range max_dim (length (as_seq v)) = true /\
  Forall (fun z => coord_min <= z <= coord_max) (as_seq v).
Proof.
  unfold DomainPoint_create. intros H.
  apply rbind_ok in H as ([] & Hd%py_assert_ok & H).
  apply rbind_ok in H as (data & Hdata & [= <-]).
  apply store_coords_inv in Hdata as [-> Hl]. done.
Qed.

(** X4.  A point made by [DomainPoint.create] holds the values it was made
    from: [p[i]] is the [i]-th value for [0 <= i < dim] and an
    [AssertionError] for every other index (negative ones too), [int(p)]
    gives back the value of a one-dimensional point and fails for any
    other, and pickling it ([__reduce__], then [_DomainPoint_unpickle])
    yields the same point. *)
Theorem DomainPoint_create_read_back (max_dim : nat) (v : IntOrSeq)
  (p : DomainPoint) :
  DomainPoint_create max_dim v = Ok p ->
  (forall i : nat,
     (i < length (as_seq v))%nat ->
     exists z, as_seq v !! i = Some z /\
               DomainPoint_getitem p (Z.of_nat i) = Ok z)
  /\
  (forall i : Z,
     i < 0 \/ Z.of_nat (length (as_seq v)) <= i ->
     DomainPoint_getitem p i = Raise AssertionError)
  /\
  (forall z, DomainPoint_int p = Ok z <-> as_seq v = [z])
  /\
  (length (as_seq v) <> 1%nat -> DomainPoint_int p = Raise AssertionError)
  /\
  _DomainPoint_unpickle max_dim (DomainPoint_reduce p) = Ok p.
Proof.
  intros H. apply DomainPoint_create_inv in H as (-> & Hdim & Hl).
  unfold DomainPoint_getitem, DomainPoint_int, point_dim. simpl.
  split_and!.
  - intros i Hi.
    destruct (0 <=? Z.of_nat i) eqn:E1; [|apply Z.leb_gt in E1; lia].
    destruct (Z.of_nat i <? Z.of_nat (length (as_seq v))) eqn:E2;
      [|apply Z.ltb_ge in E2; lia].
    simpl. rewrite Nat2Z.id.
    destruct (lookup_lt_is_Some_2 (as_seq v) i Hi) as [x Hx].
    exists x. split; [done|]. f_equal. by apply nth_lookup_Some.
  - intros i Hi.
    destruct (0 <=? i) eqn:E1; [|reflexivity]. apply Z.leb_le in E1.
    destruct (i <? Z.of_nat (length (as_seq v))) eqn:E2; [|reflexivity].
    apply Z.ltb_lt in E2. lia.
  - intros z. destruct (as_seq v) as [|x [|y l]]; simpl; split;
      try discriminate; congruence.
  - intros Hne. destruct (as_seq v) as [|x [|y l]]; simpl; done.
  - unfold _DomainPoint_unpickle, DomainPoint_reduce, DomainPoint_create.
    simpl. rewrite Hdim. simpl. by rewrite store_coords_ok.
Qed.

Lemma DomainPoint_create_read_back_witness :
  DomainPoint_int (mk_point [5]) = Ok 5 /\
  DomainPoint_getitem (mk_point [4; 9]) (-1) = Raise AssertionError /\
  _DomainPoint_unpickle 3 (DomainPoint_reduce (mk_point [4; 9]))
  = Ok (mk_point [4; 9]).
Proof.
  split_and!.
  - apply (proj1 (proj2 (proj2 (DomainPoint_create_read_back
                                  3 (Scalar 5) (mk_point [5]) eq_refl)))).
    reflexivity.
  - apply (proj1 (proj2 (DomainPoint_create_read_back
                           3 (Seq [4; 9]) (mk_point [4; 9]) eq_refl))).
    left. lia.
  - apply (DomainPoint_create_read_back 3 (Seq [4; 9]) (mk_point [4; 9])
             eq_refl).
Defined.

(** ** Creation of domains *)

Lemma fill_rect_outcome (start extent : list Z) :
  length start = length extent ->
  match fill_rect start extent with
  | Ok _ =>
      Forall2 (fun s e => coord_min <= s <= coord_max /\
                          coord_min <= s + e - 1 <= coord_max) start extent
  | Raise err =>
      err = OverflowError /\
      ~ Forall2 (fun s e => coord_min <= s <= coord_max /\
                            coord_min <= s + e - 1 <= coord_max) start extent
  end.
Proof.
  revert extent. induction start as [|s start IH]; intros [|e extent] Hlen;
    try discriminate; simpl.
  - constructor.
  - specialize (IH extent ltac:(simpl in Hlen; lia)).
    unfold store_coord at 1. destruct (coord_ok s) eqn:Es; simpl.
    + unfold store_coord at 1. destruct (coord_ok (s + e - 1)) eqn:Ee; simpl.
      * apply andb_true_iff in Es as [?%Z.leb_le ?%Z.leb_le].
        apply andb_true_iff in Ee as [?%Z.leb_le ?%Z.leb_le].
        destruct (fill_rect start extent) as [r|err]; simpl.
        -- constructor; [lia|done].
        -- destruct IH as [-> Hn]. split; [done|].
           intros HF. inversion HF; subst. done.
      * split; [done|]. intros HF. inversion HF as [|? ? ? ? [_ Hr]]; subst.
        unfold coord_ok in Ee. apply andb_false_iff in Ee as [E|E];
          [apply Z.leb_gt in E|apply Z.leb_gt in E]; lia.
    + split; [done|]. intros HF. inversion HF as [|? ? ? ? [Hr _]]; subst.
      unfold coord_ok in Es. apply andb_false_iff in Es as [E|E];
        [apply Z.leb_gt in E|apply Z.leb_gt in E]; lia.
Qed.

(** X5.  [Domain.create] succeeds exactly when [start] (if given) is as
    long as [extent], the number of dimensions lies in [1, MAX_DIM], and
    every corner coordinate [start] and [start + extent - 1] fits a signed
    64-bit coordinate.  A wrong length or dimension is an
    [AssertionError]; otherwise a coordinate that does not fit is an
    [OverflowError]. *)
Theorem Domain_create_outcome (max_dim : nat) (extent : IntOrSeq)
  (start : option IntOrSeq) :
  let s := start_of extent start in
  let e := as_seq extent in
  let shape_ok :=
    length s = length e /\ (1 <= length e <= max_dim)%nat in
  let fits :=
    Forall2 (fun s e => coord_min <= s <= coord_max /\
                        coord_min <= s + e - 1 <= coord_max) s e in
  ((exists d, Domain_create max_dim extent start = Ok d) <-> shape_ok /\ fits)
  /\
  (~ shape_ok -> Domain_create max_dim extent start = Raise AssertionError)
  /\
  (shape_ok -> ~ fits ->
   Domain_create max_dim extent start = Raise OverflowError).
Proof.
  intros s e shape_ok fits.
  assert (Hcases :
    (~ shape_ok /\ Domain_create max_dim extent start = Raise AssertionError)
    \/ (shape_ok /\ fits /\ exists d, Domain_create max_dim extent start = Ok d)
    \/ (shape_ok /\ ~ fits /\
        Domain_create max_dim extent start = Raise OverflowError)).
  { unfold Domain_create, shape_ok, fits, s, e, start_of.
    destruct start as [st|]; simpl.
    - destruct (decide (length (as_seq st) = length (as_seq extent)))
        as [Hlen|Hlen].
      + rewrite bool_decide_eq_true_2 by done. simpl.
        unfold dim_in_range.
        destruct (1 <=? length (as_seq extent))%nat eqn:E1; simpl.
        * destruct (length (as_seq extent) <=? max_dim)%nat eqn:E2; simpl.
          -- apply Nat.leb_le in E1, E2.
             pose proof (fill_rect_outcome (as_seq st) (as_seq extent) Hlen)
               as Hf.
             destruct (fill_rect (as_seq st) (as_seq extent)) as [r|err];
               simpl.
             ++ right. left. split_and!; eauto.
             ++ destruct Hf as [-> Hn]. right. right. split_and!; done.
          -- apply Nat.leb_gt in E2. left. split; [lia|done].
        * apply Nat.leb_gt in E1. left. split; [lia|done].
      + rewrite bool_decide_eq_false_2 by done. simpl.
        left. split; [tauto|done].
    - assert (length (map (fun _ => 0) (as_seq extent))
              = length (as_seq extent)) as Hlen by apply length_map.
      unfold dim_in_range.
      destruct (1 <=? length (as_seq extent))%nat eqn:E1; simpl.
      + destruct (length (as_seq extent) <=? max_dim)%nat eqn:E2; simpl.
        * apply Nat.leb_le in E1, E2.
          pose proof (fill_rect_outcome _ (as_seq extent) Hlen) as Hf.
          destruct (fill_rect _ (as_seq extent)) as [r|err]; simpl.
          -- right. left. split_and!; eauto.
          -- destruct Hf as [-> Hn]. right. right. split_and!; done.
        * apply Nat.leb_gt in E2. left. split; [lia|done].
      + apply Nat.leb_gt in E1. left. split; [lia|done]. }
  split_and!.
  - destruct Hcases as [[Hn He]|[(Hs & Hf & Hd)|(Hs & Hn & He)]].
    + split; [intros [d Hd]; congruence|tauto].
    + tauto.
    + split; [intros [d Hd]; congruence|tauto].
  - intros Hn. destruct Hcases as [[_ He]|[(Hs & _)|(Hs & _)]]; tauto.
  - intros Hs Hn. destruct Hcases as [[? _]|[(_ & Hf & _)|(_ & _ & He)]]; tauto.
Qed.

Lemma Domain_create_outcome_witness :
  Domain_create 3 (Seq [2; 2; 2; 2]) None = Raise AssertionError /\
  Domain_create 3 (Seq [2 ^ 63]) (Some (Scalar 1)) = Raise OverflowError.
Proof.
  split.
  - apply (proj1 (proj2 (Domain_create_outcome 3 (Seq [2; 2; 2; 2]) None))).
    simpl. lia.
  - apply (proj2 (proj2 (Domain_create_outcome 3 (Seq [2 ^ 63])
                           (Some (Scalar 1))))).
    + simpl. lia.
    + intros H. inversion H as [|? ? ? ? [_ Hr]]; subst.
      unfold coord_max in Hr. lia.
Defined.

Lemma product_empty_range (rs : list (list Z)) :
  Exists (fun r => r = []) rs -> product rs = [].
Proof.
  induction 1 as [r rs ->|r rs _ IH]; simpl; [done|].
  rewrite IH. by induction r.
Qed.

Lemma product_first (rs : list (list Z)) (p : list Z) :
  Forall2 (fun x r => exists t, r = x :: t) p rs ->
  exists rest, product rs = p :: rest.
Proof.
  induction 1 as [|x r p rs [t ->] _ [rest IH]]; simpl; [eauto|].
  rewrite IH. simpl. eauto.
Qed.

Lemma xrange_empty (lo hi : Z) : hi <= lo -> xrange lo hi = [].
Proof.
  intros H. unfold xrange. by replace (Z.to_nat (hi - lo)) with 0%nat by lia.
Qed.

Lemma xrange_first (lo hi : Z) : lo < hi -> exists t, xrange lo hi = lo :: t.
Proof.
  intros H. unfold xrange.
  destruct (Z.to_nat (hi - lo)) as [|n] eqn:E; [lia|]. simpl.
  rewrite Z.add_0_r. eauto.
Qed.

Lemma ranges_empty (s e : list Z) :
  length s = length e ->
  Exists (fun e => e <= 0) e ->
  Exists (fun r => r = [])
    (zip_with (fun l h => xrange l (h + 1)) s
       (zip_with (fun s e => s + e - 1) s e)) /\
  fold_right Z.mul 1
    (zip_with (fun l h => Z.max 0 (h - l + 1)) s
       (zip_with (fun s e => s + e - 1) s e)) = 0.
Proof.
  intros Hlen Hex. revert s Hlen.
  induction Hex as [x e Hx|x e _ IH]; intros [|y s] Hlen;
    try discriminate; simpl.
  - split; [left; apply xrange_empty; lia|]. lia.
  - destruct (IH s ltac:(simpl in Hlen; lia)) as [IH1 IH2].
    split; [by right|]. rewrite IH2. lia.
Qed.

Lemma ranges_first (s e : list Z) :
  length s = length e ->
  Forall (fun e => 0 < e) e ->
  Forall2 (fun x r => exists t, r = x :: t) s
    (zip_with (fun l h => xrange l (h + 1)) s
       (zip_with (fun s e => s + e - 1) s e)).
Proof.
  intros Hlen Hpos. revert s Hlen.
  induction Hpos as [|x e Hx _ IH]; intros [|y s] Hlen;
    try discriminate; simpl; constructor.
  - apply xrange_first. lia.
  - apply IH. simpl in Hlen. lia.
Qed.

(** X6.  A created Domain with a non-positive extent on some axis is
    empty: iterating it yields no point and its volume is zero.  With
    positive extents on every axis the iteration starts at the low corner
    [start]. *)
Theorem Domain_empty_or_starts_low (max_dim : nat) (extent : IntOrSeq)
  (start : option IntOrSeq) (d : Domain) :
  Domain_create max_dim extent start = Ok d ->
  (Exists (fun e => e <= 0) (as_seq extent) ->
   Domain_iter max_dim d = Ok [] /\ Domain_volume d = 0)
  /\
  (Forall (fun e => 0 < e) (as_seq extent) ->
   exists pts,
     Domain_iter max_dim d = Ok (mk_point (start_of extent start) :: pts)).
Proof.
  intros Hd. pose proof Hd as Hd'.
  apply Domain_create_inv in Hd as (Hlen & Hdim & Hfit & Hh).
  set (s := start_of extent start) in *. set (e := as_seq extent) in *.
  assert (length s = length (zip_with (fun s e => s + e - 1) s e)) as Hlh.
  { rewrite length_zip_with. lia. }
  unfold Domain_iter, Domain_volume. rewrite Hh.
  rewrite domain_ranges_from_rect, volume_from_rect by done.
  clear Hh Hd' Hlh. split.
  - intros Hex.
    assert (Exists (fun r => r = [])
              (zip_with (fun l h => xrange l (h + 1)) s
                 (zip_with (fun s e => s + e - 1) s e)) /\
            fold_right Z.mul 1
              (zip_with (fun l h => Z.max 0 (h - l + 1)) s
                 (zip_with (fun s e => s + e - 1) s e)) = 0) as [H1 H2].
    { by apply ranges_empty. }
    rewrite (product_empty_range _ H1). done.
  - intros Hpos.
    assert (exists rest,
              product (zip_with (fun l h => xrange l (h + 1)) s
                         (zip_with (fun s e => s + e - 1) s e))
              = s :: rest) as [rest Hrest].
    { apply product_first. by apply ranges_first. }
    pose proof (product_elem
                  (zip_with (fun l h => xrange l (h + 1)) s
                     (zip_with (fun s e => s + e - 1) s e))) as Hel.
    assert (rmapM (fun t => DomainPoint_create max_dim (Seq t))
              (product (zip_with (fun l h => xrange l (h + 1)) s
                          (zip_with (fun s e => s + e - 1) s e)))
            = Ok (map mk_point
                    (product (zip_with (fun l h => xrange l (h + 1)) s
                                (zip_with (fun s e => s + e - 1) s e)))))
      as Hm.
    { apply rmapM_ext_ok. intros t Ht.
      apply (point_created max_dim s e); try done.
      apply rect_membership; [done|]. by apply Hel. }
    rewrite Hm, Hrest. simpl. eauto.
Qed.

Lemma Domain_empty_or_starts_low_witness :
  (Domain_iter 3 {| d_handle := {| dim := 2; rect_data := [0; 0; 2; -1] |} |}
   = Ok [] /\
   Domain_volume {| d_handle := {| dim := 2; rect_data := [0; 0; 2; -1] |} |}
   = 0)
  /\
  exists pts,
    Domain_iter 3 {| d_handle := {| dim := 2; rect_data := [5; 6; 6; 6] |} |}
    = Ok (mk_point [5; 6] :: pts).
Proof.
  split.
  - apply (proj1 (Domain_empty_or_starts_low 3 (Seq [3; 0]) None _ eq_refl)).
    right. left. lia.
  - apply (proj2 (Domain_empty_or_starts_low 3 (Seq [2; 1])
                    (Some (Seq [5; 6])) _ eq_refl)).
    repeat constructor.
Defined.

(** ** Privileges and instances are set once *)

(** X7.  On a region without parent, the privilege and the instance of a
    field are set at most once: after a successful [_set_privilege] or
    [_set_instance] for a field, a second one for that field raises
    [AssertionError] and changes nothing, while other fields are not
    touched: a successful [_set_privilege] changes the privilege of that
    field only and no instance, a successful [_set_instance] the instance
    of that field only and, when a privilege is given, the privilege of
    that field only.  On a subregion both raise and change nothing.
    [_set_instance] with a privilege for a field that already has a
    privilege raises too, but only after it has recorded the instance. *)
Theorem region_fields_set_once (self : Region) (k : string) :
  (forall p self',
     Region_set_privilege self k p = Ok self' ->
     privileges self' = <[k := p]> (privileges self) /\
     privileges self !! k = None /\
     privileges self' !! k = Some p /\
     (forall j, j <> k -> privileges self' !! j = privileges self !! j) /\
     instances self' = instances self /\
     forall q, Region_set_privilege self' k q = Raise AssertionError)
  /\
  (forall i p self',
     Region_set_instance self k i p = (self', Ok tt) ->
     (exists ins,
        instances self = Some ins /\ ins !! k = None /\
        instances self' = Some (<[k := i]> ins) /\
        forall j, j <> k -> <[k := i]> ins !! j = ins !! j) /\
     privileges self'
     = match p with
       | Some q => <[k := q]> (privileges self)
       | None => privileges self
       end /\
     (forall j, j <> k -> privileges self' !! j = privileges self !! j) /\
     forall i' p',
       Region_set_instance self' k i' p' = (self', Raise AssertionError))
  /\
  (forall parent i p,
     r_parent self = Some (Some parent) ->
     (forall q, Region_set_privilege self k q = Raise AssertionError) /\
     Region_set_instance self k i p = (self, Raise AssertionError))
  /\
  (forall ins i p q,
     r_parent self = Some None ->
     instances self = Some ins -> ins !! k = None ->
     privileges self !! k = Some q ->
     Region_set_instance self k i (Some p)
     = (Region_with_instances self (Some (<[k := i]> ins)),
        Raise AssertionError)).
Proof.
  split_and!.
  - intros p self' H. apply Region_set_privilege_inv in H as (Hp & Hk & ->).
    simpl. split_and!; try done.
    + apply lookup_insert_eq.
    + intros j Hj. by apply lookup_insert_ne.
    + intros q. unfold Region_set_privilege. simpl. rewrite Hp. simpl.
      rewrite lookup_insert_eq. reflexivity.
  - intros i p self'. unfold Region_set_instance.
    destruct (r_parent self) as [[g|]|] eqn:Hp; simpl; try discriminate.
    destruct (instances self) as [ins|] eqn:Hi; [|discriminate].
    destruct (ins !! k) as [x|] eqn:Hk; simpl; [discriminate|].
    assert (forall self1,
              r_parent self1 = Some None ->
              instances self1 = Some (<[k := i]> ins) ->
              forall i' p',
                Region_set_instance self1 k i' p'
                = (self1, Raise AssertionError)) as Hdone.
    { intros self1 Hp1 Hi1 i' p'. unfold Region_set_instance.
      rewrite Hp1, Hi1. simpl. rewrite lookup_insert_eq. reflexivity. }
    assert (forall j, j <> k -> <[k := i]> ins !! j = ins !! j) as Hother
      by (intros j Hj; by apply lookup_insert_ne).
    destruct p as [p|].
    + destruct (Region_set_privilege _ k p) as [self2|e] eqn:Hs;
        [|discriminate].
      intros [= <-]. apply Region_set_privilege_inv in Hs as (_ & _ & ->).
      split_and!.
      * by exists ins.
      * done.
      * intros j Hj. simpl. by apply lookup_insert_ne.
      * by apply Hdone.
    + intros [= <-]. split_and!.
      * by exists ins.
      * done.
      * done.
      * by apply Hdone.
  - intros parent i p Hp. split.
    + intros q. unfold Region_set_privilege. by rewrite Hp.
    + unfold Region_set_instance. by rewrite Hp.
  - intros ins i p q Hp Hi Hk Hq. unfold Region_set_instance.
    rewrite Hp, Hi. simpl. rewrite Hk. simpl.
    unfold Region_set_privilege. simpl. rewrite Hp. simpl. rewrite Hq.
    reflexivity.
Qed.

Lemma region_fields_set_once_witness :
  (forall q,
     Region_set_privilege (sample_region true false) "x" q
     = Raise AssertionError)
  /\
  Region_set_instance (sample_region true false) "x" 4 (Some R)
  = (Region_with_instances (sample_region true false)
       (Some (<["x"%string := 4]> ∅)),
     Raise AssertionError).
Proof.
  split.
  - intros q.
    assert (Region_set_privilege
              (Region_with_privileges (sample_region true false)
                 {[ "y"%string := RW ]}) "x" RW
            = Ok (sample_region true false)) as Hs
      by (vm_compute; reflexivity).
    destruct (proj1 (region_fields_set_once
                       (Region_with_privileges (sample_region true false)
                          {[ "y"%string := RW ]}) "x")
                RW (sample_region true false) Hs)
      as (_ & _ & _ & _ & _ & H).
    apply H.
  - apply (proj2 (proj2 (proj2 (region_fields_set_once
                                  (sample_region true false) "x")))
             ∅ 4 R RW); reflexivity.
Defined.

(** ** Tracking of owned objects *)

Lemma tracks_refl (s : State) : tracks s s [].
Proof. unfold tracks. rewrite app_nil_r. split_and!; [lia|done|constructor]. Qed.

Lemma tracks_trans (s1 s2 s3 : State) (n1 n2 : list nat) :
  tracks s1 s2 n1 -> tracks s2 s3 n2 -> tracks s1 s3 (n1 ++ n2).
Proof.
  intros (Hle1 & Ht1 & Hn1) (Hle2 & Ht2 & Hn2). split_and!; [lia| |].
  - by rewrite Ht2, Ht1, app_assoc.
  - apply Forall_app. split; (eapply Forall_impl; [eassumption|]);
      simpl; intros; lia.
Qed.

(** What a constructor with the [owned] protocol does to the state. *)
Lemma new_tracked_object (owned : bool) (s : State) :
  match bind new_object
          (fun oid => bind (if owned then track_object oid else ret tt)
                        (fun _ => ret oid)) s with
  | (Ok oid, s') =>
      oid = next_oid s /\
      tracks s s' (if owned then [oid] else []) /\
      engine_calls s' = engine_calls s /\
      (owned = true -> my_ctx s <> None)
  | (Raise e, _) => owned = true /\ my_ctx s = None /\ e = AttributeError
  end.
Proof.
  unfold bind, new_object, track_object, bind, get_ctx, ret, set_my_ctx,
    tracks, tracked. simpl.
  destruct owned; simpl.
  - destruct (my_ctx s) as [c|] eqn:Hc; simpl; [|done].
    split_and!; first [done | lia | (repeat constructor; lia)].
  - rewrite app_nil_r.
    split_and!; first [done | lia | constructor].
Qed.

Lemma Ispace_init_tracks (h : legion_index_space_t) (owned : bool)
  (s s' : State) (H : Ispace) :
  Ispace_init h owned s = (Ok H, s') ->
  i_oid H = next_oid s /\ i_owned H = owned /\ i_escaped H = false /\
  i_handle H = Some h /\
  tracks s s' (if owned then [i_oid H] else []) /\
  engine_calls s' = engine_calls s /\ next_oid s' = S (next_oid s).
Proof.
  pose proof (new_tracked_object owned s) as Hn. revert Hn.
  unfold Ispace_init, bind, new_object, track_object, bind, get_ctx, ret,
    set_my_ctx. simpl.
  destruct owned; simpl.
  - destruct (my_ctx s) as [c|]; simpl; [|discriminate].
    intros (_ & Ht & _) [= <- <-]. simpl. done.
  - intros (_ & Ht & _) [= <- <-]. simpl. done.
Qed.

Lemma Fspace_init_tracks (h : legion_field_space_t) (ids : list (string * Z))
  (types : list (string * Type_)) (owned : bool) (s s' : State) (F : Fspace) :
  Fspace_init h ids types owned s = (Ok F, s') ->
  f_oid F = next_oid s /\ f_owned F = owned /\ f_escaped F = false /\
  f_handle F = Some h /\ field_ids F = Some ids /\
  field_types F = Some types /\
  tracks s s' (if owned then [f_oid F] else []) /\
  engine_calls s' = engine_calls s /\ next_oid s' = S (next_oid s).
Proof.
  pose proof (new_tracked_object owned s) as Hn. revert Hn.
  unfold Fspace_init, bind, new_object, track_object, bind, get_ctx, ret,
    set_my_ctx. simpl.
  destruct owned; simpl.
  - destruct (my_ctx s) as [c|]; simpl; [|discriminate].
    intros (_ & Ht & _) [= <- <-]. simpl. done.
  - intros (_ & Ht & _) [= <- <-]. simpl. done.
Qed.

Lemma Region_init_tracks (h : legion_logical_region_t) (I : Ispace)
  (F : Fspace) (parent : option Region) (owned : bool) (s s' : State)
  (r : Region) :
  Region_init h I F parent owned s = (Ok r, s') ->
  r_oid r = next_oid s /\ r_owned r = owned /\ r_escaped r = false /\
  r_handle r = Some h /\ r_ispace r = Some I /\ r_fspace r = Some F /\
  r_parent r = Some parent /\
  tracks s s' (if owned then [r_oid r] else []) /\
  engine_calls s' = engine_calls s /\ next_oid s' = S (next_oid s).
Proof.
  pose proof (new_tracked_object owned s) as Hn. revert Hn.
  unfold Region_init, bind, new_object, track_object, bind, get_ctx, ret,
    set_my_ctx, lift. simpl.
  destruct owned; simpl.
  - destruct (my_ctx s) as [c|]; simpl; [|discriminate].
    destruct (field_ids F) as [ids|]; simpl; [|discriminate].
    destruct (rfoldM _ (dict_keys ids) _) as [r'|e] eqn:Hf; [|discriminate].
    intros (_ & Ht & _) [= <- <-].
    apply set_privileges_inv in Hf as [-> _]. simpl. done.
  - intros (_ & Ht & _) [= <- <-]. simpl. done.
Qed.

Lemma Handle_set_escaped_twice (obj : Handle) :
  Handle_set_escaped (Handle_set_escaped obj) = Handle_set_escaped obj.
Proof. by destruct obj. Qed.

(** The loop marks the object behind every reference that is alive, and
    nothing else. *)
Lemma mark_loop_lookup (refs : list nat) :
  forall (heap : gmap nat Handle) (oid : nat),
    foldl (fun heap ref =>
             match heap !! ref with
             | Some obj => <[ref := Handle_set_escaped obj]> heap
             | None => heap
             end) heap refs !! oid
    = if bool_decide (oid ∈ refs) then Handle_set_escaped <$> heap !! oid
      else heap !! oid.
Proof.
  induction refs as [|ref refs IH]; intros heap oid; cbn [foldl].
  - rewrite bool_decide_eq_false_2; [done|]. apply not_elem_of_nil.
  - rewrite IH. destruct (decide (oid = ref)) as [->|Hne].
    + rewrite (bool_decide_eq_true_2 (ref ∈ ref :: refs))
        by apply list_elem_of_here.
      destruct (heap !! ref) as [obj|] eqn:Hobj.
      * rewrite lookup_insert_eq. simpl.
        rewrite Handle_set_escaped_twice. by destruct (bool_decide _).
      * rewrite Hobj. simpl. by destruct (bool_decide _).
    + assert (match heap !! ref with
              | Some obj => <[ref := Handle_set_escaped obj]> heap
              | None => heap
              end !! oid = heap !! oid) as ->.
      { destruct (heap !! ref); [|done]. by rewrite lookup_insert_ne. }
      destruct (decide (oid ∈ refs)) as [Hin|Hin].
      * rewrite !bool_decide_eq_true_2; [done| |done]. by right.
      * rewrite !bool_decide_eq_false_2; [done| |done].
        by intros [?|?]%elem_of_cons.
Qed.

(** An object made in [s] is tracked later on exactly if it was made
    owned. *)
Lemma new_object_tracked (o : nat) (owned : bool) (s s' s'' : State)
  (new : list nat) (c : Context) :
  tracked_below s ->
  o = next_oid s ->
  next_oid s' = S (next_oid s) ->
  tracks s s' (if owned then [o] else []) ->
  tracks s' s'' new ->
  my_ctx s'' = Some c ->
  o ∈ owned_objects c <-> owned = true.
Proof.
  intros Hb -> Hn (_ & Ht1 & _) (_ & Ht2 & Hnew) Hc.
  assert (owned_objects c = tracked s'') as -> by (unfold tracked; by rewrite Hc).
  rewrite Ht2, Ht1. destruct owned.
  - split; [done|]. intros _. set_solver.
  - split; [|done]. rewrite app_nil_r.
    intros [Hin|Hin]%elem_of_app.
    + unfold tracked_below in Hb. rewrite Forall_forall in Hb.
      specialize (Hb _ Hin). lia.
    + rewrite Forall_forall in Hnew. specialize (Hnew _ Hin). lia.
Qed.

Lemma destroy_escaped_raises (h : Handle) (s : State) :
  Handle_escaped h = Some true ->
  Handle_destroy h s = (Raise AssertionError, s).
Proof.
  destruct h as [[? ? o ?]|[? ? ? ? o ?]|[? ? ? ? ? ? ? ? o ?]|?|?]; simpl;
    intros [= ->]; run_destroy; by destruct o.
Qed.

(** X8.  [Task.execute_task] refuses to run a body when a context is
    already set ([Exception], nothing changes); otherwise it stores a
    fresh context, runs the body, and then marks as escaped every object
    that the context tracks and that is still alive: the loop
    [for ref in ctx.owned_objects] changes exactly those objects, and in
    them only [escaped].  Inside a task the constructors of Ispace and
    Fspace always succeed, and that of Region without parent does with
    [owned=False] or when its field space has distinct field names; with
    [owned=True] outside a task they raise [AttributeError].  An object is
    tracked by the context, whatever is built and tracked afterwards,
    exactly when it was constructed with [owned=True]: so the loop marks
    the objects constructed owned and leaves the others alone, as for a
    body that makes one index space and keeps it.  Destroying a marked
    object by hand raises [AssertionError] before any engine call, and
    the pickle of a marked owned index space carries [owned = True]. *)
Theorem teardown_marks_owned :
  (forall (ctx : Context) (heap : gmap nat Handle) (oid : nat),
     mark_remaining ctx heap !! oid
     = if bool_decide (oid ∈ owned_objects ctx)
       then Handle_set_escaped <$> heap !! oid
       else heap !! oid)
  /\
  (forall (context runtime task : Z) (regions : list Z)
          (body : M (gmap nat Handle)) (s : State),
     my_ctx s <> None ->
     Task_run_body context runtime task regions body s
     = (Raise (PyException "thread-local context already set"), s))
  /\
  (forall (context runtime task : Z) (regions : list Z)
          (body : M (gmap nat Handle)) (s s1 : State)
          (heap : gmap nat Handle) (c : Context),
     my_ctx s = None ->
     body (State_with_ctx s (Context_init context runtime task regions))
     = (Ok heap, s1) ->
     my_ctx s1 = Some c ->
     Task_run_body context runtime task regions body s
     = (Ok (mark_remaining c heap), s1))
  /\
  (forall (s : State) (owned : bool),
     can_track s owned ->
     (forall h, exists H s',
        Ispace_init h owned s = (Ok H, s') /\
        i_oid H = next_oid s /\ i_owned H = owned /\ i_escaped H = false) /\
     (forall h ids types, exists F s',
        Fspace_init h ids types owned s = (Ok F, s') /\
        f_oid F = next_oid s /\ f_owned F = owned /\ f_escaped F = false) /\
     (forall h I F ids,
        field_ids F = Some ids -> NoDup (dict_keys ids) ->
        exists r s',
          Region_init h I F None owned s = (Ok r, s') /\
          r_oid r = next_oid s /\ r_owned r = owned /\ r_escaped r = false))
  /\
  (forall (s : State),
     my_ctx s = None ->
     (forall h, exists s',
        Ispace_init h true s = (Raise AttributeError, s')) /\
     (forall h ids types, exists s',
        Fspace_init h ids types true s = (Raise AttributeError, s')) /\
     (forall h I F parent, exists s',
        Region_init h I F parent true s = (Raise AttributeError, s')))
  /\
  (forall (s s' s'' : State) (new : list nat) (c : Context) (owned : bool),
     tracked_below s -> tracks s' s'' new -> my_ctx s'' = Some c ->
     (forall h H,
        Ispace_init h owned s = (Ok H, s') ->
        (i_oid H ∈ owned_objects c <-> owned = true) /\
        forall heap : gmap nat Handle,
          heap !! i_oid H = Some (HIspace H) ->
          mark_remaining c heap !! i_oid H
          = Some (if owned then Handle_set_escaped (HIspace H)
                  else HIspace H)) /\
     (forall h ids types F,
        Fspace_init h ids types owned s = (Ok F, s') ->
        (f_oid F ∈ owned_objects c <-> owned = true) /\
        forall heap : gmap nat Handle,
          heap !! f_oid F = Some (HFspace F) ->
          mark_remaining c heap !! f_oid F
          = Some (if owned then Handle_set_escaped (HFspace F)
                  else HFspace F)) /\
     (forall h I F parent r,
        Region_init h I F parent owned s = (Ok r, s') ->
        (r_oid r ∈ owned_objects c <-> owned = true) /\
        forall heap : gmap nat Handle,
          heap !! r_oid r = Some (HRegion r) ->
          mark_remaining c heap !! r_oid r
          = Some (if owned then Handle_set_escaped (HRegion r)
                  else HRegion r)))
  /\
  (forall (context runtime task : Z) (regions : list Z)
          (h : legion_index_space_t) (owned : bool) (s : State),
     my_ctx s = None ->
     exists s',
       Task_run_body context runtime task regions (ispace_body h owned) s
       = (Ok {[ next_oid s :=
                  HIspace {| i_oid := next_oid s; i_handle := Some h;
                             i_owned := owned; i_escaped := owned |} ]},
          s') /\
       tracked s' = if owned then [next_oid s] else [])
  /\
  (forall (obj : Handle) (s0 : State),
     Handle_escaped obj = Some true ->
     Handle_destroy obj s0 = (Raise AssertionError, s0))
  /\
  (forall (obj : Handle),
     Handle_escaped obj <> None ->
     Handle_escaped (Handle_set_escaped obj) = Some true /\
     Handle_owned (Handle_set_escaped obj) = Handle_owned obj)
  /\
  (forall (H : Ispace) (p : PIspace),
     i_owned H = true ->
     Ispace_reduce {| i_oid := i_oid H; i_handle := i_handle H;
                      i_owned := i_owned H; i_escaped := true |} = Ok p ->
     p_ispace_owned p = true).
Proof.
  assert (forall (o : nat) (obj : Handle) (owned : bool) (c : Context)
                 (heap : gmap nat Handle),
            (o ∈ owned_objects c <-> owned = true) ->
            heap !! o = Some obj ->
            mark_remaining c heap !! o
            = Some (if owned then Handle_set_escaped obj else obj)) as Hmark.
  { intros o obj owned c heap Hin Hobj. unfold mark_remaining.
    rewrite mark_loop_lookup, Hobj. destruct owned.
    - rewrite bool_decide_eq_true_2; [done|]. by apply Hin.
    - rewrite bool_decide_eq_false_2; [done|]. intros Ho.
      by apply Hin in Ho. }
  split_and!.
  - intros ctx heap oid. apply mark_loop_lookup.
  - intros context runtime task regions body s Hc.
    unfold Task_run_body. by destruct (my_ctx s).
  - intros context runtime task regions body s s1 heap c Hn Hb Hc.
    unfold Task_run_body. rewrite Hn.
    unfold bind at 1. unfold set_my_ctx.
    unfold State_with_ctx in Hb. rewrite (bind_ok _ _ _ _ _ Hb).
    by rewrite (bind_ok _ _ _ _ _ (get_ctx_some s1 c Hc)).
  - intros s owned Hct. split_and!.
    + intros h. destruct (Ispace_init_ok h owned s Hct)
        as (H & s' & Hi & _ & Ho & He & Hoid & _).
      by exists H, s'.
    + intros h ids types. destruct (Fspace_init_ok h ids types owned s Hct)
        as (F & s' & Hi & _ & _ & _ & Ho & He & Hoid & _).
      by exists F, s'.
    + intros h I F ids Hids Hnd. destruct owned.
      * destruct (Region_init_owned_ok h I F ids s (Hct eq_refl) Hids Hnd)
          as (r & s' & Hr).
        exists r, s'. split; [done|].
        apply Region_init_tracks in Hr as (? & ? & ? & _). done.
      * eexists _, _. split; [apply Region_init_borrowed|]. done.
  - intros s Hn. split_and!.
    + intros h. eexists.
      unfold Ispace_init, bind, new_object, track_object, bind, get_ctx.
      simpl. by rewrite Hn.
    + intros h ids types. eexists.
      unfold Fspace_init, bind, new_object, track_object, bind, get_ctx.
      simpl. by rewrite Hn.
    + intros h I F parent. eexists.
      unfold Region_init, bind, new_object, track_object, bind, get_ctx.
      simpl. by rewrite Hn.
  - intros s s' s'' new c owned Hb Ht Hc. split_and!.
    + intros h H Hi.
      apply Ispace_init_tracks in Hi as (Ho & Hown & He & _ & Htr & _ & Hn).
      assert (i_oid H ∈ owned_objects c <-> owned = true) as Hin
        by (by eapply new_object_tracked).
      split; [done|]. intros heap. by apply Hmark.
    + intros h ids types F Hi.
      apply Fspace_init_tracks
        in Hi as (Ho & Hown & He & _ & _ & _ & Htr & _ & Hn).
      assert (f_oid F ∈ owned_objects c <-> owned = true) as Hin
        by (by eapply new_object_tracked).
      split; [done|]. intros heap. by apply Hmark.
    + intros h I F parent r Hi.
      apply Region_init_tracks
        in Hi as (Ho & Hown & He & _ & _ & _ & _ & Htr & _ & Hn).
      assert (r_oid r ∈ owned_objects c <-> owned = true) as Hin
        by (by eapply new_object_tracked).
      split; [done|]. intros heap. by apply Hmark.
  - intros context runtime task regions h owned s Hn.
    unfold Task_run_body. rewrite Hn.
    unfold ispace_body, Ispace_init, bind, set_my_ctx, new_object,
      track_object, bind, get_ctx, set_my_ctx, ret, mark_remaining, tracked.
    destruct owned; simpl.
    + eexists. split.
      * rewrite lookup_singleton_eq. simpl. rewrite insert_singleton_eq.
        reflexivity.
      * reflexivity.
    + eexists. split; reflexivity.
  - intros obj s0. apply destroy_escaped_raises.
  - intros [?|?|?|?|?]; simpl; done.
  - intros H p Hown. unfold Ispace_reduce. simpl.
    destruct (i_handle H); simpl; [|done]. rewrite Hown.
    by intros [= <-].
Qed.

(** An owned index space that a task body makes and keeps, and one that
    was made in a state that tracks nothing. *)
Lemma teardown_marks_owned_witness :
  (exists s',
     Task_run_body 1 2 3 [] (ispace_body sample_index_space true)
       state_without_context
     = (Ok {[ 0%nat := HIspace (sample_ispace_at 0 true true) ]}, s')) /\
  Task_run_body 1 2 3 [] (ispace_body sample_index_space true) state_in_task
  = (Raise (PyException "thread-local context already set"), state_in_task)
  /\
  (forall s0,
     Handle_destroy (HIspace (sample_ispace_at 0 true true)) s0
     = (Raise AssertionError, s0)).
Proof.
  destruct teardown_marks_owned
    as (_ & Hset & _ & _ & _ & _ & Hrun & Hdestroy & _).
  split_and!.
  - destruct (Hrun 1 2 3 [] sample_index_space true state_without_context
                eq_refl) as (s' & Hr & _).
    by exists s'.
  - by apply Hset.
  - intros s0. by apply Hdestroy.
Defined.

(** ** Script detection *)

Lemma filter_from_pairs (pre rest : list string) :
  filter_from pre = Kept [] ->
  filter_from (pre ++ rest) = filter_from rest.
Proof.
  revert rest. induction pre as [|a|a b l IH1 IH2] using filter_from_ind;
    intros rest.
  - done.
  - rewrite filter_from_cons. destruct (is_runtime_option a); [done|].
    simpl. discriminate.
  - intros H. rewrite filter_from_cons in H.
    change ((a :: b :: l) ++ rest) with (a :: b :: (l ++ rest)).
    rewrite filter_from_cons. destruct (is_runtime_option a).
    + by apply IH1.
    + destruct (filter_from (b :: l)); simpl in H; discriminate.
Qed.

(** X9.  [execute_as_script] never reports a script outside
    [legion_python], and it looks for the script behind the runtime
    options: option-value pairs between the program name and the rest of
    the command line do not change its answer.  When it reports a script,
    the argument vector holds, after the program name, an argument that is
    not a flag and whose extension is longer than one character. *)
Theorem execute_as_script_skips_options
  (basename splitext_ext : string -> string)
  (program : string) (pre rest : list string) :
  filter_from pre = Kept [] ->
  execute_as_script basename splitext_ext (program :: pre ++ rest)
  = execute_as_script basename splitext_ext (program :: rest)
  /\
  execute_as_script basename splitext_ext (program :: pre ++ rest)
  <> Checked false true
  /\
  (execute_as_script basename splitext_ext (program :: pre ++ rest)
   = Checked true true ->
   basename program = "legion_python"%string /\
   exists script,
     script ∈ rest /\ String.prefix "-" script = false /\
     is_runtime_option script = false /\
     (1 < String.length (splitext_ext script))%nat).
Proof.
  intros Hpre.
  assert (execute_as_script basename splitext_ext (program :: pre ++ rest)
          = execute_as_script basename splitext_ext (program :: rest)) as ->.
  { unfold execute_as_script, input_args.
    by rewrite (filter_from_pairs pre rest Hpre). }
  split; [done|].
  unfold execute_as_script, input_args.
  destruct (filter_from rest) as [kept|] eqn:Hk; simpl; [|done].
  destruct (String.eqb (basename program) "legion_python") eqn:Hb; simpl;
    [|done].
  destruct kept as [|script kept]; [done|].
  destruct (String.prefix "-" script) eqn:Hf; [done|].
  split; [done|]. intros [= Hext].
  split; [by apply String.eqb_eq|].
  apply filter_from_kept in Hk as [Hs Ho].
  exists script. split_and!.
  - eapply elem_of_sublist; [|exact Hs]. by left.
  - done.
  - by inversion Ho.
  - apply Z.ltb_lt in Hext. lia.
Qed.

Lemma execute_as_script_skips_options_witness :
  execute_as_script (fun s => s) (fun _ => ".py"%string)
    (["legion_python"; "-ll:py"; "1"; "main.py"]%string)
  = Checked true true.
Proof.
  destruct (execute_as_script_skips_options (fun s => s)
              (fun _ => ".py"%string) "legion_python"
              ["-ll:py"; "1"]%string ["main.py"%string] eq_refl)
    as [-> _].
  reflexivity.
Defined.

(** ** Index launches: the loop and the launch *)

Lemma State_with_ctx_same (s : State) (c : Context) :
  my_ctx s = Some c -> State_with_ctx s c = s.
Proof. destruct s. simpl. by intros ->. Qed.

Lemma set_current_launch_same (c : Context) :
  set_current_launch c (current_launch c) = c.
Proof. by destruct c. Qed.

Lemma set_current_launch_twice (c : Context) (l l' : option nat) :
  set_current_launch (set_current_launch c l) l' = set_current_launch c l'.
Proof. done. Qed.

Lemma State_with_ctx_twice (s : State) (c c' : Context) :
  State_with_ctx (State_with_ctx s c) c' = State_with_ctx s c'.
Proof. done. Qed.

Lemma begin_launch_ok (self : IndexLaunch) (s : State) (c : Context) :
  my_ctx s = Some c -> current_launch c = None ->
  begin_launch self s
  = (Ok tt, State_with_ctx s (set_current_launch c (Some (launch_oid self)))).
Proof.
  intros Hc Hl. unfold begin_launch.
  rewrite (bind_ok _ _ _ _ _ (get_ctx_some s c Hc)).
  unfold Context_begin_launch. rewrite Hl. reflexivity.
Qed.

Lemma begin_launch_busy (self : IndexLaunch) (s : State) (c : Context) :
  my_ctx s = Some c -> current_launch c <> None ->
  begin_launch self s = (Raise AssertionError, s).
Proof.
  intros Hc Hl. unfold begin_launch.
  rewrite (bind_ok _ _ _ _ _ (get_ctx_some s c Hc)).
  unfold Context_begin_launch.
  rewrite bool_decide_eq_false_2 by done. reflexivity.
Qed.

Lemma end_launch_ok (self : IndexLaunch) (s : State) (c : Context) :
  my_ctx s = Some c -> current_launch c = Some (launch_oid self) ->
  end_launch self s = (Ok tt, State_with_ctx s (set_current_launch c None)).
Proof.
  intros Hc Hl. unfold end_launch.
  rewrite (bind_ok _ _ _ _ _ (get_ctx_some s c Hc)).
  unfold Context_end_launch. rewrite Hl.
  rewrite bool_decide_eq_true_2 by done. reflexivity.
Qed.

Lemma rmapM_nil_inv {A B} (f : A -> result B) (l : list A) :
  rmapM f l = Ok [] -> l = [].
Proof.
  destruct l as [|x l]; [done|]. simpl.
  destruct (f x); [|done]. simpl. destruct (rmapM f l); done.
Qed.

Lemma rmapM_cons_inv {A B} (f : A -> result B) (l : list A) (y : B)
  (ys : list B) :
  rmapM f l = Ok (y :: ys) ->
  exists x l', l = x :: l' /\ f x = Ok y /\ rmapM f l' = Ok ys.
Proof.
  destruct l as [|x l]; [done|]. simpl.
  destruct (f x) as [y'|] eqn:Hx; [|done]. simpl.
  destruct (rmapM f l) as [ys'|] eqn:Hl; [|done]. simpl.
  intros [= <- <-]. by exists x, l.
Qed.

(** X10.  A [for] loop over an IndexLaunch whose domain is empty never
    runs its body, closes the launch again, and then fails in [launch()]
    with an [AttributeError], because no launcher has been made; the
    state is as before the loop (no engine call, no launch active).  A
    domain made by [Domain.create] with a non-positive extent is such a
    domain. *)
Theorem empty_index_launch (engine : Engine) (max_dim : nat)
  (body : LoopBody) (self : IndexLaunch) (s : State) (c : Context) :
  my_ctx s = Some c -> current_launch c = None ->
  launcher self = None ->
  (Domain_iter max_dim (launch_domain self) = Ok [] ->
   IndexLaunch_iter engine max_dim body self s
   = (IndexLaunch_with_point self (Some {| iv_value := None |}),
      Raise AttributeError, s))
  /\
  (forall extent start,
     Domain_create max_dim extent start = Ok (launch_domain self) ->
     Exists (fun e => e <= 0) (as_seq extent) ->
     Domain_iter max_dim (launch_domain self) = Ok []).
Proof.
  intros Hc Hl Hn. split.
  - intros Hd. apply rmapM_nil_inv in Hd.
    unfold IndexLaunch_iter. rewrite (begin_launch_ok self s c Hc Hl).
    simpl launch_domain. rewrite Hd. simpl iterate_points. cbv beta iota.
    rewrite (end_launch_ok _ _ (set_current_launch c (Some (launch_oid self))))
      by done.
    rewrite State_with_ctx_twice, set_current_launch_twice, <- Hl,
      set_current_launch_same, (State_with_ctx_same s c Hc).
    unfold IndexLaunch_launch. simpl. rewrite Hn. reflexivity.
  - intros extent start Hd Hex.
    apply Domain_create_inv in Hd as (Hlen & _ & _ & Hh).
    unfold Domain_iter. rewrite Hh, domain_ranges_from_rect
      by (by rewrite length_zip_with, Hlen, Nat.min_id).
    destruct (ranges_empty _ _ Hlen Hex) as [He _].
    by rewrite (product_empty_range _ He).
Qed.

Lemma empty_index_launch_witness :
  exists d,
    Domain_create 3 (Seq [2; 0]) None = Ok d /\
    forall body,
      IndexLaunch_iter sample_engine 3 body (new_launch d) state_in_task
      = (IndexLaunch_with_point (new_launch d) (Some {| iv_value := None |}),
         Raise AttributeError, state_in_task).
Proof.
  eexists. split; [reflexivity|]. intros body.
  match goal with
  | |- IndexLaunch_iter _ _ _ (new_launch ?d) _ = _ =>
      destruct (empty_index_launch sample_engine 3 body (new_launch d)
                  state_in_task sample_context eq_refl eq_refl eq_refl)
        as [H1 H2]
  end.
  apply H1. apply (H2 (Seq [2; 0]) None); [reflexivity|].
  right. left. simpl. lia.
Defined.

Lemma State_with_calls_nil (s : State) : State_with_calls s [] = s.
Proof. destruct s. unfold State_with_calls. simpl. by rewrite app_nil_r. Qed.

Lemma State_with_calls_app (s : State) (a b : list EngineCall) :
  State_with_calls (State_with_calls s a) b = State_with_calls s (a ++ b).
Proof. unfold State_with_calls. simpl. by rewrite app_assoc. Qed.

Lemma engine_call_run (call : EngineCall) (s : State) :
  engine_call call s = (Ok tt, State_with_calls s [call]).
Proof. reflexivity. Qed.

Lemma zip_longest_fst {A B} (l : list A) (k : list B)
  (pair : option A * option B) :
  pair ∈ zip_longest l k ->
  match fst pair with Some x => x ∈ l | None => True end.
Proof.
  revert k. induction l as [|x l IH]; intros k; simpl.
  - intros (y & -> & _)%list_elem_of_fmap. done.
  - destruct k as [|y k].
    + intros [->|H]%elem_of_cons; simpl; [by left|].
      apply IH in H. destruct (fst pair); [by right|done].
    + intros [->|H]%elem_of_cons; simpl; [by left|].
      apply IH in H. destruct (fst pair); [by right|done].
Qed.

Lemma check_plain_arguments (args saved : list Arg) :
  Forall (fun a => is_plain a = true) args ->
  exists l, rmapM check_argument (zip_longest args saved) = Ok l.
Proof.
  intros Hp. exists (map (fun _ => tt) (zip_longest args saved)).
  apply rmapM_ext_ok. intros pair Hin%zip_longest_fst.
  unfold check_argument. destruct (fst pair) as [a|]; [|done].
  rewrite Forall_forall in Hp. specialize (Hp a Hin).
  by destruct a.
Qed.

Lemma check_compatibility_plain (self : IndexLaunch) (task : Task)
  (args : list Arg) :
  Task_ne task (default task (saved_task self)) = false ->
  Forall (fun a => is_plain a = true) args ->
  check_compatibility self task args
  = (IndexLaunch_with_saved self (Some (default task (saved_task self)))
       (Some (default args (saved_args self))), Ok tt).
Proof.
  intros Ht Hp. unfold check_compatibility. rewrite Ht.
  destruct (check_plain_arguments args (default args (saved_args self)))
    as [l ->]; [done|]. reflexivity.
Qed.

Lemma preprocess_plain (args : list Arg) :
  Forall (fun a => is_plain a = true) args ->
  Forall (fun a => is_plain a = true) (preprocess_args args).
Proof.
  unfold preprocess_args. induction 1 as [|a l Ha _ IH]; simpl; [done|].
  constructor; [|done]. destruct a as [| | |[[p|]]| | |]; done.
Qed.

Lemma gather_plain (engine : Engine) (args acc : list Arg)
  (futs : list Future) (s : State) :
  Forall (fun a => is_plain a = true) args ->
  foldM (fun acc arg =>
           match arg with
           | ArgFuture f =>
               let* f' := Future_init_copy engine f None
                            (Some (length (snd acc))) in
               ret (fst acc ++ [ArgFuture f'], snd acc ++ [f'])
           | _ => ret (fst acc ++ [arg], snd acc)
           end) args (acc, futs) s
  = (Ok (acc ++ args, futs), s).
Proof.
  intros Hp. revert acc. induction Hp as [|a l Ha _ IH]; intros acc; simpl.
  - by rewrite app_nil_r.
  - destruct a; try done; unfold bind, ret; simpl; rewrite IH;
      by rewrite <- app_assoc.
Qed.

Lemma gather_futures_plain (engine : Engine) (args : list Arg) (s : State) :
  Forall (fun a => is_plain a = true) args ->
  gather_futures engine args s = (Ok (args, []), s).
Proof. intros Hp. unfold gather_futures. by rewrite gather_plain. Qed.

Lemma encode_plain (task : Task) (args : list Arg) :
  calling_convention task = "python"%string ->
  Forall (fun a => is_plain a = true) args ->
  exists ta, encode_args task args = Ok ta.
Proof.
  intros Hc Hp. unfold encode_args. rewrite Hc. simpl.
  assert (exists l, rmapM pickle_arg args = Ok l) as [l ->]; [|by eexists].
  induction Hp as [|a l Ha _ [l' IH]]; simpl; [by eexists|].
  rewrite IH. destruct a; try done; simpl; by eexists.
Qed.

Lemma spawn_running (engine : Engine) (task : Task) (m : Z)
  (self : IndexLaunch) (p : DomainPoint) (args : list Arg) (s : State) :
  running task m self ->
  point self = Some {| iv_value := Some p |} ->
  calling_convention task = "python"%string ->
  Forall (fun a => is_plain a = true) args ->
  exists ta fp self',
    encode_args task (preprocess_args args) = Ok ta /\
    IndexLaunch_spawn_task engine self task args s
    = (self', Ok fp,
       State_with_calls s
         [legion_argument_map_set_point m (dp_handle p) ta]) /\
    running task m self' /\ point self' = point self /\
    launch_oid self' = launch_oid self /\
    launch_domain self' = launch_domain self.
Proof.
  intros [Hl Ht] Hp Hc Hplain.
  destruct (encode_plain task (preprocess_args args) Hc
              (preprocess_plain args Hplain)) as [ta Hta].
  exists ta. unfold IndexLaunch_spawn_task, ensure_launcher.
  rewrite Hl. unfold ret.
  rewrite (check_compatibility_plain self task args Ht Hplain).
  unfold attach_spawn, bind, lift. simpl. rewrite Hl. simpl.
  rewrite (gather_futures_plain engine _ s (preprocess_plain args Hplain)).
  simpl. unfold attach_local_args, bind, lift. simpl.
  rewrite Hta, Hp. simpl.
  eexists _, _. split_and!; try reflexivity.
  - split; simpl; [done|].
    destruct (saved_task self); simpl in *; [done|].
    unfold Task_ne. by rewrite Nat.eqb_refl.
  - done.
Qed.

Lemma iterate_running (engine : Engine) (max_dim : nat) (task : Task)
  (m : Z) (args : _IndexValue -> list Arg) :
  calling_convention task = "python"%string ->
  (forall idx, Forall (fun a => is_plain a = true) (args idx)) ->
  forall (tuples : list (list Z)) (pts : list DomainPoint)
         (self : IndexLaunch) (s : State),
    rmapM (fun t => DomainPoint_create max_dim (Seq t)) tuples = Ok pts ->
    running task m self -> point self <> None ->
    exists tas self',
      Forall2 (fun p ta =>
                 encode_args task
                   (preprocess_args (args {| iv_value := Some p |})) = Ok ta)
              pts tas /\
      iterate_points max_dim (spawn_body engine task args) self tuples s
      = (self', Ok tt,
         State_with_calls s
           (zip_with (fun p ta =>
                        legion_argument_map_set_point m (dp_handle p) ta)
                     pts tas)) /\
      running task m self' /\ point self' <> None /\
      launch_oid self' = launch_oid self /\
      launch_domain self' = launch_domain self.
Proof.
  intros Hc Hplain. induction tuples as [|t tuples IH]; intros pts self s.
  - intros [= <-] Hr Hp. exists [], self. simpl.
    rewrite State_with_calls_nil. split_and!; done.
  - simpl. destruct (DomainPoint_create max_dim (Seq t)) as [p|] eqn:Ht;
      [|done]. simpl.
    destruct (rmapM _ tuples) as [pts'|] eqn:Hpts; [|done]. simpl.
    intros [= <-] Hr Hp.
    destruct (point self) as [old|] eqn:Hold; [|done].
    set (index := {| iv_value := Some p |}).
    set (self1 := IndexLaunch_with_point self (Some index)).
    assert (running task m self1) as Hr1 by exact Hr.
    destruct (spawn_running engine task m self1 p (args index) s Hr1
                eq_refl Hc (Hplain index))
      as (ta & fp & self2 & Hta & Hspawn & Hr2 & Hp2 & Ho2 & Hd2).
    unfold spawn_body at 1. rewrite Hspawn.
    destruct (IH pts' self2
                (State_with_calls s
                   [legion_argument_map_set_point m (dp_handle p) ta])
                eq_refl Hr2)
      as (tas & self' & Htas & Hit & Hr' & Hp' & Ho' & Hd').
    { by rewrite Hp2. }
    exists (ta :: tas), self'. rewrite Hit, State_with_calls_app.
    split_and!; try done.
    + by constructor.
    + by rewrite Ho'.
    + by rewrite Hd'.
Qed.

Lemma launch_running (engine : Engine) (task : Task) (tid m : Z)
  (self : IndexLaunch) (s : State) (c : Context) :
  running task m self -> task_id task = Some tid ->
  uint32_ok tid = true -> my_ctx s = Some c ->
  let create :=
    legion_index_launcher_create tid (d_handle (launch_domain self)) m in
  let r := index_launcher_execute_reply engine
             (engine_calls s ++ [legion_predicate_true; create]) in
  let fm :=
    future_map_copy_reply engine
      (engine_calls s
       ++ [legion_predicate_true; create; legion_index_launcher_execute;
           legion_index_launcher_destroy]) r in
  IndexLaunch_launch engine self s
  = (Ok (IndexLaunch_with_launcher self
           (Some {| il_task := task; il_domain := launch_domain self;
                    local_args := m; future_args := [];
                    future_map := Some fm |})),
     State_with_calls s
       [legion_predicate_true; create; legion_index_launcher_execute;
        legion_index_launcher_destroy;
        legion_future_map_copy r; legion_future_map_destroy r]).
Proof.
  intros [Hl _] Htid Hfit Hc. simpl.
  unfold IndexLaunch_launch. rewrite Hl.
  unfold _IndexLauncher_launch, Task_task_id. simpl. rewrite Htid.
  unfold pass_uint32. rewrite Hfit.
  unfold bind, lift, engine_call, get_ctx, get_trace, ret. simpl.
  rewrite Hc. simpl.
  unfold State_with_calls, _IndexLauncher_with_future_map. simpl.
  rewrite <- !app_assoc. simpl. rewrite <- Hc. reflexivity.
Qed.

(** X11.  A complete [for] loop over a fresh IndexLaunch whose body spawns
    one task with arguments that are neither regions nor futures: the
    engine is asked for one argument map, then, for each point of the
    domain in the order of iteration, to set the pickled arguments of that
    point in the map, then for the true predicate, to create, execute and
    destroy one index launcher for the task, the domain and the map, and
    to copy and destroy the future map that the execution returned.  These
    are all the engine calls that the statements of the loop make (the
    argument map is destroyed later, when the launcher is collected), and
    nothing else changes: in particular no launch is active afterwards. *)
Theorem index_launch_loop (engine : Engine) (max_dim : nat) (task : Task)
  (tid : Z) (args : _IndexValue -> list Arg) (self : IndexLaunch)
  (s : State) (c : Context) (pts : list DomainPoint) :
  my_ctx s = Some c -> current_launch c = None ->
  launcher self = None -> saved_task self = None ->
  Domain_iter max_dim (launch_domain self) = Ok pts -> pts <> [] ->
  task_id task = Some tid -> 0 <= tid <= uint32_max ->
  calling_convention task = "python"%string ->
  (forall idx, Forall (fun a => is_plain a = true) (args idx)) ->
  exists tas self',
    Forall2 (fun p ta =>
               encode_args task
                 (preprocess_args (args {| iv_value := Some p |})) = Ok ta)
            pts tas /\
    let m := argument_map_create_reply engine (engine_calls s) in
    let sets :=
      zip_with (fun p ta => legion_argument_map_set_point m (dp_handle p) ta)
               pts tas in
    let create :=
      legion_index_launcher_create tid (d_handle (launch_domain self)) m in
    let before :=
      engine_calls s
      ++ legion_argument_map_create :: sets
      ++ [legion_predicate_true; create] in
    let r := index_launcher_execute_reply engine before in
    IndexLaunch_iter engine max_dim (spawn_body engine task args) self s
    = (self', Ok tt,
       State_with_calls s
         (legion_argument_map_create :: sets
          ++ [legion_predicate_true; create; legion_index_launcher_execute;
              legion_index_launcher_destroy;
              legion_future_map_copy r; legion_future_map_destroy r])) /\
    exists l,
      launcher self' = Some l /\ il_task l = task /\ local_args l = m /\
      future_args l = [] /\
      future_map l
      = Some (future_map_copy_reply engine
                (before ++ [legion_index_launcher_execute;
                            legion_index_launcher_destroy]) r).
Proof.
  intros Hc Hl Hn Hst Hd Hne Htid Hfit Hconv Hplain.
  assert (uint32_ok tid = true) as Hfit'.
  { unfold uint32_ok. apply andb_true_iff. split; apply Z.leb_le; lia. }
  unfold Domain_iter in Hd.
  destruct pts as [|p pts]; [done|].
  apply rmapM_cons_inv in Hd as (t & tuples & Htuples & Ht & Hpts).
  set (m := argument_map_create_reply engine (engine_calls s)).
  set (c1 := set_current_launch c (Some (launch_oid self))).
  set (s1 := State_with_ctx s c1).
  set (index := {| iv_value := Some p |}).
  set (self0 := IndexLaunch_with_point self (Some {| iv_value := None |})).
  set (self1 := IndexLaunch_with_point self0 (Some index)).
  (* The first turn makes the launcher. *)
  set (self1' := IndexLaunch_with_launcher self1
                   (Some {| il_task := task; il_domain := launch_domain self;
                            local_args := m; future_args := [];
                            future_map := None |})).
  assert (running task m self1') as Hr1.
  { split; [done|]. simpl. rewrite Hst. simpl.
    unfold Task_ne. by rewrite Nat.eqb_refl. }
  destruct (spawn_running engine task m self1' p (args index)
              (State_with_calls s1 [legion_argument_map_create]) Hr1
              eq_refl Hconv (Hplain index))
    as (ta & fp & self2 & Hta & Hspawn & Hr2 & Hp2 & Ho2 & Hd2).
  assert (IndexLaunch_spawn_task engine self1 task (args index) s1
          = IndexLaunch_spawn_task engine self1' task (args index)
              (State_with_calls s1 [legion_argument_map_create])) as Hfirst.
  { unfold IndexLaunch_spawn_task at 1 2, ensure_launcher. simpl.
    rewrite Hn. reflexivity. }
  destruct (iterate_running engine max_dim task m args Hconv Hplain
              tuples pts self2
              (State_with_calls
                 (State_with_calls s1 [legion_argument_map_create])
                 [legion_argument_map_set_point m (dp_handle p) ta])
              Hpts Hr2)
    as (tas & self3 & Htas & Hit & Hr3 & Hp3 & Ho3 & Hd3).
  { by rewrite Hp2. }
  exists (ta :: tas). eexists. split; [by constructor|].
  cbv zeta. unfold IndexLaunch_iter.
  rewrite (begin_launch_ok self s c Hc Hl).
  fold c1 s1 self0. simpl launch_domain. rewrite Htuples.
  simpl iterate_points. rewrite Ht. simpl point. cbv beta iota zeta.
  fold index self1. unfold spawn_body at 1. rewrite Hfirst, Hspawn.
  rewrite Hit. rewrite !State_with_calls_app.
  rewrite (end_launch_ok self3 _ c1) by (by rewrite ?Ho3, ?Ho2).
  unfold c1 at 1. rewrite set_current_launch_twice, <- Hl,
    set_current_launch_same.
  match goal with
  | |- context [IndexLaunch_launch engine self3 ?st] =>
      rewrite (launch_running engine task tid m self3 st c Hr3 Htid Hfit'
                 eq_refl)
  end.
  rewrite Hd3, Hd2. simpl launch_domain.
  split.
  - f_equal. unfold State_with_calls, State_with_ctx, s1. simpl.
    rewrite <- !app_assoc. simpl. by rewrite Hc.
  - eexists. split; [reflexivity|]. simpl.
    split_and!; try done.
    rewrite <- !app_assoc. simpl. by rewrite <- ?app_assoc.
Qed.

Lemma index_launch_loop_witness :
  exists self' s',
    IndexLaunch_iter sample_engine 3
      (spawn_body sample_engine registered_task index_and_number)
      (new_launch sample_domain) state_in_task
    = (self', Ok tt, s') /\
    length (engine_calls s') = 11%nat /\ my_ctx s' = my_ctx state_in_task.
Proof.
  assert (Domain_iter 3 (launch_domain (new_launch sample_domain))
          = Ok (map mk_point [[0]; [1]; [2]; [3]])) as Hd
    by (vm_compute; reflexivity).
  assert (map mk_point [[0]; [1]; [2]; [3]] <> []) as Hne by discriminate.
  assert (forall idx,
            Forall (fun a => is_plain a = true) (index_and_number idx))
    as Hplain by (intros idx; repeat constructor).
  assert (0 <= 42 <= uint32_max) as Hfit by (by vm_compute).
  destruct (index_launch_loop sample_engine 3 registered_task 42
              index_and_number (new_launch sample_domain) state_in_task
              sample_context _ eq_refl eq_refl eq_refl eq_refl Hd Hne
              eq_refl Hfit eq_refl Hplain)
    as (tas & self' & Htas & Hrun & _).
  apply Forall2_length in Htas. simpl in Htas.
  do 5 (destruct tas as [|? tas]; try discriminate Htas).
  eexists _, _. split; [exact Hrun|]. split; reflexivity.
Defined.

Lemma keeps_ret {A} (a : A) : keeps_ctx (ret a).
Proof. done. Qed.

Lemma keeps_raise {A} (e : PyError) : keeps_ctx (@raise A e).
Proof. done. Qed.

Lemma keeps_lift {A} (r : result A) : keeps_ctx (lift r).
Proof. done. Qed.

Lemma keeps_engine_call (call : EngineCall) : keeps_ctx (engine_call call).
Proof. done. Qed.

Lemma keeps_new_object : keeps_ctx new_object.
Proof. done. Qed.

Lemma keeps_get_ctx : keeps_ctx get_ctx.
Proof. done. Qed.

Lemma keeps_get_trace : keeps_ctx get_trace.
Proof. done. Qed.

Lemma keeps_bind {A B} (m : M A) (k : A -> M B) :
  keeps_ctx m -> (forall a, keeps_ctx (k a)) -> keeps_ctx (bind m k).
Proof.
  intros Hm Hk s. unfold bind. specialize (Hm s).
  destruct (m s) as [[a|e] s1]; simpl in *; [|done].
  by rewrite Hk.
Qed.

Lemma keeps_foldM {A B} (f : B -> A -> M B) (l : list A) (b : B) :
  (forall b a, keeps_ctx (f b a)) -> keeps_ctx (foldM f l b).
Proof.
  intros Hf. revert b. induction l as [|x l IH]; intros b; simpl.
  - apply keeps_ret.
  - apply keeps_bind; [apply Hf|]. intros b'. apply IH.
Qed.

Lemma keeps_forM {A} (f : A -> M unit) (l : list A) :
  (forall a, keeps_ctx (f a)) -> keeps_ctx (forM_ l f).
Proof.
  intros Hf. induction l as [|x l IH]; simpl.
  - apply keeps_ret.
  - apply keeps_bind; [apply Hf|]. intros _. apply IH.
Qed.

Create HintDb keeps.

#[local] Hint Resolve keeps_ret keeps_raise keeps_lift keeps_engine_call
  keeps_new_object keeps_get_ctx keeps_get_trace : keeps.

Ltac keeps :=
  repeat first
    [ progress eauto with keeps
    | apply keeps_bind; [|intros ?]
    | apply keeps_foldM; intros ? ?
    | apply keeps_forM; intros ?
    | match goal with
      | |- keeps_ctx (match ?x with _ => _ end) => destruct x
      end ].

Lemma keeps_resolve_handle (engine : Engine) (f : Future) :
  keeps_ctx (Future_resolve_handle engine f).
Proof. unfold Future_resolve_handle. keeps. Qed.

#[local] Hint Resolve keeps_resolve_handle : keeps.

Lemma keeps_init_copy (engine : Engine) (f : Future) (t : option Type_)
  (n : option nat) :
  keeps_ctx (Future_init_copy engine f t n).
Proof. unfold Future_init_copy. keeps. Qed.

#[local] Hint Resolve keeps_init_copy : keeps.

Lemma keeps_gather_futures (engine : Engine) (args : list Arg) :
  keeps_ctx (gather_futures engine args).
Proof.
  unfold gather_futures. apply keeps_foldM. intros acc [| | | | | |f]; keeps.
Qed.

#[local] Hint Resolve keeps_gather_futures : keeps.

Lemma keeps_attach_spawn (engine : Engine) (self : IndexLaunch)
  (args : list Arg) :
  keeps_ctx (attach_spawn engine self args).
Proof.
  unfold attach_spawn, attach_local_args. keeps.
Qed.

Lemma keeps_ensure_launcher (engine : Engine) (self : IndexLaunch)
  (task : Task) :
  keeps_ctx (ensure_launcher engine self task).
Proof. unfold ensure_launcher. keeps. Qed.

Lemma spawn_body_keeps_ctx (engine : Engine) (task : Task)
  (args : _IndexValue -> list Arg) :
  body_keeps_ctx (spawn_body engine task args).
Proof.
  intros index self s. unfold spawn_body, IndexLaunch_spawn_task.
  pose proof (keeps_ensure_launcher engine self task s) as H1.
  destruct (ensure_launcher engine self task s) as [[self1|e] s1];
    simpl in *; [|done].
  destruct (check_compatibility self1 task (args index)) as [self2 [[]|e]];
    simpl; [|done].
  pose proof (keeps_attach_spawn engine self2 (args index) s1) as H2.
  destruct (attach_spawn engine self2 (args index) s1)
    as [[[self3 fp]|e] s2]; simpl in *; congruence.
Qed.

Lemma iterate_keeps_ctx (max_dim : nat) (body : LoopBody) :
  body_keeps_ctx body ->
  forall tuples self s,
    my_ctx (snd (iterate_points max_dim body self tuples s)) = my_ctx s.
Proof.
  intros Hb. induction tuples as [|t tuples IH]; intros self s; simpl;
    [done|].
  destruct (DomainPoint_create max_dim (Seq t)) as [p|]; [|done].
  destruct (point self); [|done].
  match goal with
  | |- context [body ?i ?l s] =>
      pose proof (Hb i l s) as H; destruct (body i l s) as [[self2 [[]|e]] s2]
  end; simpl in *; [|done].
  by rewrite IH.
Qed.

Lemma forM_add_future_raises (l : list Future) (s s' : State) (e : PyError) :
  forM_ l (fun arg =>
             match fut_handle arg with
             | Some h => engine_call (legion_index_launcher_add_future h)
             | None => raise TypeError
             end) s = (Raise e, s') ->
  e = TypeError.
Proof.
  revert s. induction l as [|f l IH]; intros s; simpl; [done|].
  unfold bind. destruct (fut_handle f); simpl.
  - apply IH.
  - by intros [= <- _].
Qed.

Lemma bind_raise_inv {A B} (m : M A) (k : A -> M B) (s s' : State)
  (e : PyError) :
  bind m k s = (Raise e, s') ->
  m s = (Raise e, s') \/
  exists a s1, m s = (Ok a, s1) /\ k a s1 = (Raise e, s').
Proof.
  unfold bind. destruct (m s) as [[a|e'] s1]; intros H.
  - right. by exists a, s1.
  - injection H as -> ->. by left.
Qed.

Lemma launch_raises (engine : Engine) (self : IndexLaunch) (s s' : State)
  (e : PyError) :
  IndexLaunch_launch engine self s = (Raise e, s') ->
  e = AttributeError \/ e = TypeError \/ e = OverflowError.
Proof.
  unfold IndexLaunch_launch. destruct (launcher self) as [l|];
    [|intros [= <- _]; by left].
  intros [H|(l' & s1 & _ & H)]%bind_raise_inv; [|by unfold ret in H].
  unfold _IndexLauncher_launch in H.
  apply bind_raise_inv in H as [H|([] & s0 & _ & H)];
    [by unfold engine_call in H|].
  destruct (Task_task_id (il_task l)) as [tid|];
    [|injection H as <- _; right; by left].
  apply bind_raise_inv in H as [H|(tid' & s1 & _ & H)].
  { unfold lift, pass_uint32 in H. destruct (uint32_ok tid); [done|].
    injection H as <- _. right. by right. }
  apply bind_raise_inv in H as [H|([] & s2 & _ & H)];
    [by unfold engine_call in H|].
  apply bind_raise_inv in H as [H|([] & s3 & _ & H)].
  { apply forM_add_future_raises in H as ->. right. by left. }
  apply bind_raise_inv in H as [H|(ctx & s4 & _ & H)].
  { unfold get_ctx, get_slot in H. destruct (my_ctx s3); [discriminate|].
    injection H as <- _. by left. }
  by unfold bind, get_trace, engine_call, ret in H.
Qed.

(** X12.  An exception in the body of a loop over an IndexLaunch leaves
    the launch active: when the loop ends with an [Exception] (what
    [spawn_task] raises for a second task, a region argument or another
    future), [end_launch] has not run, so the context still names the
    launch and every later loop over an IndexLaunch in the task fails at
    once with an [AssertionError], before its body runs.  This holds for
    every body that leaves [_my.ctx] alone, as the bodies that spawn a task
    do. *)
Theorem failed_loop_blocks_launches (engine : Engine) (max_dim : nat)
  (body : LoopBody) (self self' : IndexLaunch) (s s' : State)
  (c : Context) (msg : string) :
  my_ctx s = Some c -> current_launch c = None ->
  body_keeps_ctx body ->
  IndexLaunch_iter engine max_dim body self s
  = (self', Raise (PyException msg), s') ->
  my_ctx s' = Some (set_current_launch c (Some (launch_oid self))) /\
  (forall body' other,
     IndexLaunch_iter engine max_dim body' other s'
     = (other, Raise AssertionError, s')) /\
  (forall task args, body_keeps_ctx (spawn_body engine task args)).
Proof.
  intros Hc Hl Hb Hrun.
  assert (my_ctx s'
          = Some (set_current_launch c (Some (launch_oid self)))) as Hs'.
  { unfold IndexLaunch_iter in Hrun.
    rewrite (begin_launch_ok self s c Hc Hl) in Hrun.
    match type of Hrun with
    | context [iterate_points max_dim body ?l ?ts ?st] =>
        pose proof (iterate_keeps_ctx max_dim body Hb ts l st) as Hk;
        destruct (iterate_points max_dim body l ts st)
          as [[self2 [[]|e]] s2]
    end; simpl in Hk.
    - unfold end_launch, bind, get_ctx, lift, Context_end_launch in Hrun.
      rewrite Hk in Hrun. simpl in Hrun.
      destruct (bool_decide _); simpl in Hrun; [|discriminate].
      destruct (IndexLaunch_launch engine self2 _) as [[self3|e] s4] eqn:Hla;
        [discriminate|].
      apply launch_raises in Hla as [->|[->| ->]]; discriminate.
    - injection Hrun as _ _ <-. exact Hk. }
  split; [done|]. split; [|intros; apply spawn_body_keeps_ctx].
  intros body' other. unfold IndexLaunch_iter.
  by rewrite (begin_launch_busy other s' _ Hs').
Qed.

Lemma failed_loop_blocks_launches_witness :
  let out :=
    IndexLaunch_iter sample_engine 3
      (spawn_body sample_engine registered_task region_argument)
      (new_launch sample_domain) state_in_task in
  snd (fst out)
  = Raise (PyException "TODO: Support region arguments to an IndexLaunch") /\
  forall body' other,
    IndexLaunch_iter sample_engine 3 body' other (snd out)
    = (other, Raise AssertionError, snd out).
Proof.
  intros out.
  assert (out = (fst (fst out),
                 Raise (PyException
                          "TODO: Support region arguments to an IndexLaunch"),
                 snd out)) as Hout by (vm_compute; reflexivity).
  split; [by rewrite Hout|].
  apply (failed_loop_blocks_launches sample_engine 3
           (spawn_body sample_engine registered_task region_argument)
           (new_launch sample_domain) (fst (fst out)) state_in_task (snd out)
           sample_context _ eq_refl eq_refl
           (spawn_body_keeps_ctx _ _ _) Hout).
Defined.

(** ** Registration and the bound on task identifiers *)

Lemma register_exhausted (max_legion_task_id : Z) (self : Task)
  (task_id : option Z) (s : State) :
  max_legion_task_id <= next_legion_task_id s ->
  no_task_id task_id = true ->
  exists s',
    Task_register max_legion_task_id self task_id false s
    = (Raise AssertionError, s') /\
    engine_calls s' = engine_calls s /\
    next_legion_task_id s <= next_legion_task_id s'.
Proof.
  intros Hmax Hno. unfold Task_register.
  destruct (Task_task_id self) as [tid|] eqn:Htid.
  - exists s. rewrite bool_decide_eq_false_2 by done. by split_and!.
  - rewrite Hno. simpl.
    unfold bind, lift, get_next_legion_task_id, set_next_legion_task_id.
    simpl.
    assert ((next_legion_task_id s <? max_legion_task_id) = false) as ->
      by (apply Z.ltb_ge; lia).
    simpl. eexists. split; [reflexivity|]. simpl. split; [done|lia].
Qed.

(** An explicit identifier that is no unsigned 32-bit integer stops the
    registration at the engine's registration call, after the first pass
    of the barrier and the call for the runtime. *)
Lemma register_overflow (max_legion_task_id : Z) (self : Task) (id : Z)
  (top_level_task : bool) (s : State) (qualname : list string) :
  uint32_ok id = false ->
  Task_task_id self = None ->
  body_qualname (body self) = Ok qualname ->
  global_task_registration_barrier s = None \/ my_ctx s <> None ->
  Task_register max_legion_task_id self (Some id) top_level_task s
  = (Raise OverflowError,
     {| my_ctx := my_ctx s;
        next_legion_task_id := next_legion_task_id s;
        global_task_registration_barrier :=
          phase_barrier_advance <$> global_task_registration_barrier s;
        engine_calls :=
          engine_calls s
          ++ [legion_execution_constraint_set_create;
              legion_execution_constraint_set_add_processor_constraint;
              legion_task_layout_constraint_set_create]
          ++ barrier_calls (global_task_registration_barrier s)
          ++ [legion_runtime_get_runtime];
        next_oid := next_oid s |}).
Proof.
  intros Hfit Hnone Hq Hb.
  assert ((id =? 0) = false) as Hid.
  { apply Z.eqb_neq. intros ->. discriminate. }
  destruct s as [ctx next barrier calls oid]. simpl in *.
  unfold Task_register. rewrite Hnone, Hq. simpl. rewrite Hid.
  unfold barrier_phase, bind, lift, ret, get_ctx, get_barrier, set_barrier,
    engine_call, py_assert, get_slot, pass_uint32, barrier_calls.
  simpl. rewrite Hfit.
  destruct barrier as [b|]; simpl.
  - destruct ctx as [c|]; [|by destruct Hb]. simpl.
    rewrite <- !app_assoc. reflexivity.
  - rewrite <- !app_assoc. reflexivity.
Qed.

(** X13.  The bound [max_legion_task_id] applies to the identifiers that
    [register] draws from the counter, and to nothing else.  Once the
    counter has reached the bound, every later registration without an
    explicit identifier of a task that is not the top-level task fails
    with an [AssertionError] before any engine call, however many
    registrations lie in between.  A registration with an explicit
    non-zero identifier that is an unsigned 32-bit integer takes that
    identifier as it is, whatever the bound and the counter, and leaves
    the counter alone: a reuse of the identifier is not checked.  An
    explicit identifier that is negative or above [2^32 - 1] raises an
    [OverflowError] when it is passed to the engine's registration call:
    the engine registers nothing, the task keeps no identifier and the
    counter is left alone. *)
Theorem registration_bound (max_legion_task_id : Z) :
  (forall (s s' : State) (self : Task) (task_id : option Z),
     max_legion_task_id <= next_legion_task_id s ->
     rtc (registration_step max_legion_task_id) s s' ->
     no_task_id task_id = true ->
     exists s'',
       Task_register max_legion_task_id self task_id false s'
       = (Raise AssertionError, s'') /\
       engine_calls s'' = engine_calls s')
  /\
  (forall (self other : Task) (id : Z) (top_level_task : bool)
          (s : State) (qualname : list string),
     id <> 0 -> 0 <= id <= uint32_max ->
     Task_task_id self = None ->
     body_qualname (body self) = Ok qualname ->
     global_task_registration_barrier s = None \/ my_ctx s <> None ->
     exists s',
       Task_register max_legion_task_id self (Some id) top_level_task s
       = (Ok (Task_with_task_id self (Some id)), s') /\
       next_legion_task_id s' = next_legion_task_id s /\
       my_ctx s' = my_ctx s /\
       (Task_task_id other = None ->
        body_qualname (body other) = Ok qualname ->
        exists s'',
          Task_register max_legion_task_id other (Some id) top_level_task s'
          = (Ok (Task_with_task_id other (Some id)), s'')))
  /\
  (forall (self : Task) (id : Z) (top_level_task : bool)
          (s : State) (qualname : list string),
     id < 0 \/ uint32_max < id ->
     Task_task_id self = None ->
     body_qualname (body self) = Ok qualname ->
     global_task_registration_barrier s = None \/ my_ctx s <> None ->
     exists s',
       Task_register max_legion_task_id self (Some id) top_level_task s
       = (Raise OverflowError, s') /\
       next_legion_task_id s' = next_legion_task_id s /\
       engine_calls s'
       = engine_calls s
         ++ [legion_execution_constraint_set_create;
             legion_execution_constraint_set_add_processor_constraint;
             legion_task_layout_constraint_set_create]
         ++ barrier_calls (global_task_registration_barrier s)
         ++ [legion_runtime_get_runtime]).
Proof.
  split_and!.
  - intros s s' self task_id Hmax Hsteps Hno.
    apply registration_steps_counter in Hsteps.
    destruct (register_exhausted max_legion_task_id self task_id s')
      as (s'' & Hr & Hc & _); [lia|done|].
    by exists s''.
  - assert (forall (self : Task) (id : Z) (top_level_task : bool)
                   (s : State) (qualname : list string),
              id <> 0 -> 0 <= id <= uint32_max ->
              Task_task_id self = None ->
              body_qualname (body self) = Ok qualname ->
              global_task_registration_barrier s = None \/ my_ctx s <> None ->
              Task_register max_legion_task_id self (Some id)
                top_level_task s
              = (Ok (Task_with_task_id self (Some id)),
                 registered_state self (Some id) top_level_task qualname s))
      as Hrun.
    { intros self id top s qualname Hid Hfit Hnone Hq Hb.
      rewrite (Task_register_run max_legion_task_id self (Some id) top s
                 qualname); [|  |done].
      - unfold assigned_task_id, no_task_id.
        apply Z.eqb_neq in Hid. by rewrite Hid.
      - unfold can_register, from_counter, assigned_task_id, no_task_id.
        apply Z.eqb_neq in Hid. rewrite Hid, Hq. simpl.
        rewrite bool_decide_eq_true_2 by done. simpl.
        assert (uint32_ok id = true) as ->.
        { unfold uint32_ok. apply andb_true_iff.
          split; apply Z.leb_le; lia. }
        simpl.
        destruct Hb as [Hb|Hb].
        + by rewrite (bool_decide_eq_true_2 _ Hb).
        + rewrite (bool_decide_eq_true_2 (my_ctx s <> None) Hb).
          by rewrite orb_true_r. }
    intros self other id top s qualname Hid Hfit Hnone Hq Hb.
    eexists. split; [by apply Hrun|].
    assert (from_counter (Some id) top = false) as Hfc.
    { unfold from_counter, no_task_id. apply Z.eqb_neq in Hid.
      by rewrite Hid. }
    simpl. rewrite Hfc. split_and!; try done.
    intros Hnone' Hq'. eexists. apply Hrun; try done. simpl.
    destruct Hb as [Hb|Hb]; [left; by rewrite Hb|by right].
  - intros self id top s qualname Hout Hnone Hq Hb.
    eexists. split.
    + apply (register_overflow max_legion_task_id self id top s qualname);
        try done.
      unfold uint32_ok. apply andb_false_iff.
      destruct Hout as [Hout|Hout]; [left|right]; apply Z.leb_gt; lia.
    + by simpl.
Qed.

Lemma registration_bound_witness :
  (exists s'',
     Task_register 100 (sample_task 1) None false state_in_task
     = (Raise AssertionError, s'') /\
     engine_calls s'' = engine_calls state_in_task)
  /\
  (exists s',
     Task_register 100 (sample_task 1) (Some 5000) false state_in_task
     = (Ok (Task_with_task_id (sample_task 1) (Some 5000)), s'))
  /\
  (exists s',
     Task_register 100 (sample_task 1) (Some (-1)) false state_in_task
     = (Raise OverflowError, s') /\
     next_legion_task_id s' = next_legion_task_id state_in_task).
Proof.
  split_and!.
  - apply (proj1 (registration_bound 100) state_in_task state_in_task
             (sample_task 1) None); [simpl; lia|constructor|reflexivity].
  - destruct (proj1 (proj2 (registration_bound 100)) (sample_task 1)
                (sample_task 2) 5000 false state_in_task
                ["main"; "step"]%string)
      as (s' & Hr & _);
      [lia|by vm_compute|reflexivity|reflexivity|by left|].
    by exists s'.
  - destruct (proj2 (proj2 (registration_bound 100)) (sample_task 1)
                (-1) false state_in_task ["main"; "step"]%string)
      as (s' & Hr & Hn & _); [left; lia|reflexivity|reflexivity|by left|].
    by exists s'.
Defined.

(** ** Futures among the arguments *)

Lemma init_copy_inv (engine : Engine) (f f' : Future) (t : option Type_)
  (n : option nat) (s s' : State) :
  Future_init_copy engine f t n s = (Ok f', s') ->
  fut_oid f' = next_oid s /\ next_oid s' = S (next_oid s) /\
  my_ctx s' = my_ctx s /\ fut_handle f' <> None /\
  argument_number f' = n /\
  Future_value_type f'
  = match t with None => Future_value_type f | Some t => Some t end /\
  copyable s f.
Proof.
  unfold Future_init_copy, Future_resolve_handle, copyable.
  destruct f as [o [h|] vt [k|]], s as [[c|] nid b calls oid];
    unfold bind, new_object, get_ctx, get_trace, engine_call, ret, raise;
    simpl; try discriminate;
    intros [= <- <-]; simpl; split_and!; try done;
    first [by left | by right].
Qed.

Lemma init_copy_ok (engine : Engine) (f : Future) (t : option Type_)
  (n : option nat) (s : State) :
  copyable s f ->
  exists f' s', Future_init_copy engine f t n s = (Ok f', s').
Proof.
  unfold Future_init_copy, Future_resolve_handle, copyable.
  destruct f as [o [h|] vt [k|]], s as [[c|] nid b calls oid];
    unfold bind, new_object, get_ctx, get_trace, engine_call, ret, raise;
    simpl; intros [Hc|[Hc Hc']]; try done; by eexists _, _.
Qed.

Lemma futures_of_cons (arg : Arg) (args : list Arg) :
  futures_of (arg :: args) = futures_of [arg] ++ futures_of args.
Proof. unfold futures_of. by destruct arg. Qed.

Lemma gather_inv (engine : Engine) (args : list Arg) :
  forall (acc : list Arg) (futs : list Future) (s s' : State)
         (args' : list Arg) (futs' : list Future),
    foldM (fun acc arg =>
             match arg with
             | ArgFuture f =>
                 let* f' := Future_init_copy engine f None
                              (Some (length (snd acc))) in
                 ret (fst acc ++ [ArgFuture f'], snd acc ++ [f'])
             | _ => ret (fst acc ++ [arg], snd acc)
             end) args (acc, futs) s
    = (Ok (args', futs'), s') ->
    exists new_args new_futs,
      args' = acc ++ new_args /\ futs' = futs ++ new_futs /\
      Forall2 (gathered s s') args new_args /\
      futures_of new_args = new_futs /\
      map argument_number new_futs
      = map Some (seq (length futs) (length new_futs)) /\
      StronglySorted lt (map fut_oid new_futs) /\
      (next_oid s <= next_oid s')%nat /\ my_ctx s' = my_ctx s /\
      Forall (copyable s) (futures_of args).
Proof.
  induction args as [|arg args IH]; intros acc futs s s' args' futs'; simpl.
  - intros [= <- <- <-]. exists [], []. rewrite !app_nil_r.
    split_and!; try done; constructor.
  - intros (acc1 & s1 & Hstep & Hrest)%bind_inv.
    assert (exists arg' fs,
               acc1 = (acc ++ [arg'], futs ++ fs) /\
               gathered s s1 arg arg' /\
               futures_of [arg'] = fs /\
               map argument_number fs
               = map Some (seq (length futs) (length fs)) /\
               Forall (fun f => (next_oid s <= fut_oid f < next_oid s1)%nat)
                      fs /\
               (next_oid s <= next_oid s1)%nat /\ my_ctx s1 = my_ctx s /\
               Forall (copyable s) (futures_of [arg]))
      as (arg' & fs & -> & Hg & Hfs & Hnum & Hoid & Hle & Hctx & Hcp).
    { destruct arg as [| | | | | |f]; simpl in Hstep;
        try (injection Hstep as <- <-; eexists _, [];
             rewrite app_nil_r; split_and!; try done; constructor).
      apply bind_inv in Hstep as (f' & s2 & Hcopy & Hret).
      injection Hret as <- <-.
      apply init_copy_inv in Hcopy as (Ho & Hn & Hc & Hh & Ha & Hvt & Hcp).
      exists (ArgFuture f'), [f']. split_and!; try done.
      - exists f'. split_and!; try done; lia.
      - simpl. by rewrite Ha.
      - repeat constructor; lia.
      - lia.
      - constructor; [done|constructor]. }
    apply IH in Hrest
      as (new_args & new_futs & -> & -> & HF & Hfut & Hnum' & Hsort & Hle'
          & Hctx' & Hcp').
    exists (arg' :: new_args), (fs ++ new_futs).
    rewrite <- !app_assoc. change ([arg'] ++ new_args) with (arg' :: new_args).
    split_and!; try done.
    + constructor.
      * unfold gathered in *. destruct arg; try done.
        destruct Hg as (f' & -> & ? & ? & ?). exists f'.
        split_and!; try done; lia.
      * eapply Forall2_impl; [exact HF|]. intros a a' Ha.
        unfold gathered in *. destruct a; try done.
        destruct Ha as (f' & -> & ? & ? & ?). exists f'.
        split_and!; try done; lia.
    + by rewrite futures_of_cons, Hfs, Hfut.
    + rewrite map_app, Hnum, Hnum'.
      by rewrite (length_app fs new_futs), seq_app, map_app,
        (length_app futs fs).
    + rewrite map_app. apply StronglySorted_app_2; [| | done].
      2:{ destruct fs as [|f1 [|f2 fs]]; try (by repeat constructor).
          unfold futures_of in Hfs. simpl in Hfs.
          destruct arg'; simpl in Hfs; discriminate. }
      intros o1 o2 (f1 & -> & H1)%list_elem_of_fmap
          (f2 & -> & H2)%list_elem_of_fmap.
        rewrite Forall_forall in Hoid. specialize (Hoid _ H1).
        assert (Forall (fun f => (next_oid s1 <= fut_oid f)%nat) new_futs)
          as Hlow.
        { subst new_futs. clear -HF. induction HF as [|a a' l l' Ha _ IHF];
            simpl; [constructor|].
          unfold futures_of in *. simpl.
          destruct a'; simpl; try done.
          constructor; [|done].
          unfold gathered in Ha. destruct a; try done.
          destruct Ha as (f' & [= <-] & _ & _ & ?). lia. }
      rewrite Forall_forall in Hlow. specialize (Hlow _ H2). lia.
    + lia.
    + congruence.
    + change (Forall (copyable s) (futures_of (arg :: args))).
      rewrite futures_of_cons. apply Forall_app. split; [done|].
      eapply Forall_impl; [exact Hcp'|]. intros f [Hf|[Hf Hc]];
        [by left|right]. split; [done|congruence].
Qed.

Lemma gather_ok (engine : Engine) (args : list Arg) :
  forall (acc : list Arg * list Future) (s : State),
    Forall (copyable s) (futures_of args) ->
    exists r s',
      foldM (fun acc arg =>
               match arg with
               | ArgFuture f =>
                   let* f' := Future_init_copy engine f None
                                (Some (length (snd acc))) in
                   ret (fst acc ++ [ArgFuture f'], snd acc ++ [f'])
               | _ => ret (fst acc ++ [arg], snd acc)
               end) args acc s
      = (Ok r, s').
Proof.
  induction args as [|arg args IH]; intros acc s Hcp.
  - by eexists _, _.
  - rewrite futures_of_cons in Hcp. apply Forall_app in Hcp as [Hf Hcp].
    simpl foldM.
    destruct arg as [| | | | | |f];
      try (unfold bind, ret; simpl; by apply IH).
    apply Forall_inv in Hf.
    destruct (init_copy_ok engine f None (Some (length (snd acc))) s Hf)
      as (f' & s1 & Hcopy).
    rewrite (bind_ok _ _ _ _ _
               (bind_ok _ (fun f' => ret (acc.1 ++ [ArgFuture f'],
                                           acc.2 ++ [f'])) _ _ _ Hcopy)).
    apply IH. apply init_copy_inv in Hcopy as (_ & _ & Hc & _).
    eapply Forall_impl; [exact Hcp|]. intros g [Hg|[Hg Hg']]; [by left|right].
    split; [done|congruence].
Qed.

Lemma sorted_lt_NoDup (l : list nat) : StronglySorted lt l -> NoDup l.
Proof.
  induction 1 as [|x l _ IH Hx]; constructor; [|done].
  intros Hin. rewrite Forall_forall in Hx. specialize (Hx _ Hin). lia.
Qed.

(** X14.  [gather_futures] passes futures by position.  It succeeds
    exactly when every Future among the arguments can be copied (it has a
    handle, or it is a task argument and a context is set).  It then
    leaves the other arguments as they are and replaces each Future by a
    new Future object with a handle and the same value type; the list of
    futures it returns holds these new objects in the order of the
    arguments, and the k-th of them carries [argument_number = k].  Hence
    each of them can be pickled, whether or not the original could. *)
Theorem gather_futures_numbers (engine : Engine) (args : list Arg)
  (s : State) :
  ((exists r s', gather_futures engine args s = (Ok r, s'))
   <-> Forall (copyable s) (futures_of args))
  /\
  (forall (args' : list Arg) (futs : list Future) (s' : State),
     gather_futures engine args s = (Ok (args', futs), s') ->
     Forall2 (gathered s s') args args' /\
     futures_of args' = futs /\
     map argument_number futs = map Some (seq 0 (length futs)) /\
     NoDup (map fut_oid futs) /\
     Forall (fun f => exists p,
                 Future_reduce f = Ok p /\
                 exists k, futs !! k = Some f /\ p_argument_number p = k)
            futs /\
     my_ctx s' = my_ctx s).
Proof.
  split.
  - split.
    + intros ([args' futs] & s' & Hg). unfold gather_futures in Hg.
      by apply gather_inv in Hg as (_ & _ & _ & _ & _ & _ & _ & _ & _ & _ & H).
    + intros Hcp. unfold gather_futures. apply gather_ok. exact Hcp.
  - intros args' futs s' Hg. unfold gather_futures in Hg.
    apply gather_inv in Hg
      as (na & nf & -> & -> & HF & Hfut & Hnum & Hsort & _ & Hctx & _).
    simpl in *. split_and!; try done.
    + by apply sorted_lt_NoDup.
    + apply Forall_lookup_2. intros k f Hk.
      assert (argument_number f = Some k) as Hn.
      { apply (f_equal (fun l => l !! k)) in Hnum.
        rewrite !list_lookup_fmap, Hk in Hnum. simpl in Hnum.
        rewrite lookup_seq_lt in Hnum by (by eapply lookup_lt_Some).
        simpl in Hnum. by injection Hnum as ->. }
      unfold Future_reduce. rewrite Hn. eexists. split; [reflexivity|].
      by exists k.
Qed.

Lemma gather_futures_numbers_witness :
  exists args' f1 f2 s',
    gather_futures sample_engine
      [ArgValue 1; ArgFuture (future_seven 3); ArgNone;
       ArgFuture (future_seven 3)] state_in_task
    = (Ok (args', [f1; f2]), s') /\
    argument_number f1 = Some 0%nat /\ argument_number f2 = Some 1%nat /\
    fut_oid f1 <> fut_oid f2.
Proof.
  destruct (gather_futures sample_engine
              [ArgValue 1; ArgFuture (future_seven 3); ArgNone;
               ArgFuture (future_seven 3)] state_in_task)
    as [[[args' futs]|e] s'] eqn:Hg; [|vm_compute in Hg; discriminate].
  destruct (proj2 (gather_futures_numbers sample_engine _ state_in_task)
              args' futs s' Hg) as (_ & _ & Hnum & Hnd & _).
  assert (length futs = 2%nat) as Hlen
    by (vm_compute in Hg; by injection Hg as _ <- _).
  destruct futs as [|f1 [|f2 [|]]]; try discriminate.
  exists args', f1, f2, s'. simpl in Hnum. injection Hnum as H1 H2.
  split_and!; try done.
  apply NoDup_cons in Hnd as [Hnd _]. set_solver.
Defined.

(** ** The engine calls of [Fspace.create] *)

Lemma dict_set_fresh {V} (k : string) (v : V) (d : list (string * V)) :
  k ∉ dict_keys d -> dict_set k v d = d ++ [(k, v)].
Proof.
  induction d as [|[k' v'] d IH]; simpl; [done|].
  intros Hk. destruct (decide (k = k')) as [->|Hne].
  - exfalso. apply Hk. left.
  - rewrite IH; [done|]. intros Hin. apply Hk. by right.
Qed.

Lemma create_field_run (engine : Engine) (h : legion_field_space_t)
  (acc : list (string * Z) * list (string * Type_))
  (item : string * FieldEntry) (s : State) :
  my_ctx s <> None ->
  uint32_ok (requested_field_id (snd item)) = true ->
  let id := allocate_field_reply engine (engine_calls s) h
              (Type_size (fst (snd item))) (requested_field_id (snd item)) in
  Fspace_create_field engine h acc item s
  = (Ok (dict_set (fst item) id (fst acc),
         dict_set (fst item) (fst (snd item)) (snd acc)),
     State_with_calls s (field_calls h item (fst item, id))).
Proof.
  intros Hc Hfit. destruct (my_ctx s) as [c|] eqn:Hctx; [|done].
  unfold requested_field_id in Hfit.
  unfold Fspace_create_field, pass_uint32. rewrite Hfit.
  unfold bind, lift, get_trace, engine_call, get_ctx, get_slot, ret. simpl.
  rewrite Hctx. simpl.
  unfold State_with_calls, field_calls, requested_field_id. simpl.
  rewrite <- app_assoc, Hctx. reflexivity.
Qed.

(** A field id that is no unsigned 32-bit integer stops [Fspace.create]
    at the allocation of that field. *)
Lemma create_field_overflow (engine : Engine) (h : legion_field_space_t)
  (acc : list (string * Z) * list (string * Type_))
  (item : string * FieldEntry) (s : State) :
  uint32_ok (requested_field_id (snd item)) = false ->
  Fspace_create_field engine h acc item s = (Raise OverflowError, s).
Proof.
  intros Hfit. unfold requested_field_id in Hfit.
  unfold Fspace_create_field, pass_uint32. rewrite Hfit. reflexivity.
Qed.

Lemma create_fields_run (engine : Engine) (h : legion_field_space_t)
  (fields : list (string * FieldEntry)) :
  forall (ids : list (string * Z)) (types : list (string * Type_))
         (s : State),
    my_ctx s <> None ->
    field_ids_fit fields ->
    dict_keys types = dict_keys ids ->
    NoDup (dict_keys ids ++ map fst fields) ->
    exists new s',
      foldM (Fspace_create_field engine h) fields (ids, types) s
      = (Ok (ids ++ new,
             types ++ map (fun item => (fst item, fst (snd item))) fields),
         s') /\
      map fst new = map fst fields /\
      s' = State_with_calls s (concat (zip_with (field_calls h) fields new)) /\
      forall k item id,
        fields !! k = Some item -> new !! k = Some id ->
        snd id
        = allocate_field_reply engine
            (engine_calls s
             ++ concat (zip_with (field_calls h) (take k fields) (take k new)))
            h (Type_size (fst (snd item))) (requested_field_id (snd item)).
Proof.
  induction fields as [|item fields IH]; intros ids types s Hc Hfit Hk Hnd.
  - exists [], s. simpl. rewrite !app_nil_r, State_with_calls_nil.
    split_and!; try done.
  - simpl foldM. apply Forall_cons in Hfit as [Hfit1 Hfit].
    rewrite (bind_ok _ _ _ _ _
               (create_field_run engine h (ids, types) item s Hc Hfit1)).
    set (id := allocate_field_reply engine (engine_calls s) h
                 (Type_size (fst (snd item)))
                 (requested_field_id (snd item))).
    assert (fst item ∉ dict_keys ids) as Hfresh.
    { apply NoDup_app in Hnd as (_ & Hd & _). intros Hin.
      apply (Hd _ Hin). simpl. left. }
    simpl fst. simpl snd.
    rewrite (dict_set_fresh (fst item) id ids Hfresh).
    rewrite (dict_set_fresh (fst item) (fst (snd item)) types)
      by (by rewrite Hk).
    destruct (IH (ids ++ [(fst item, id)])
                (types ++ [(fst item, fst (snd item))])
                (State_with_calls s (field_calls h item (fst item, id))))
      as (new & s' & Hrun & Hkeys & Hs' & Hrep).
    { done. }
    { done. }
    { unfold dict_keys in *. by rewrite !map_app, Hk. }
    { unfold dict_keys in *. rewrite map_app, <- app_assoc. exact Hnd. }
    exists ((fst item, id) :: new), s'.
    rewrite Hrun, <- !app_assoc. split_and!.
    + done.
    + simpl. by rewrite Hkeys.
    + rewrite Hs', State_with_calls_app. reflexivity.
    + intros [|k] item' idk.
      * intros [= <-] [= <-]. simpl. by rewrite app_nil_r.
      * intros Hi Hn. simpl in Hi, Hn. rewrite (Hrep k item' idk Hi Hn).
        simpl. by rewrite <- !app_assoc.
Qed.

Lemma create_fields_overflow (engine : Engine) (h : legion_field_space_t)
  (fields : list (string * FieldEntry)) :
  forall (k : nat) (item : string * FieldEntry) (ids : list (string * Z))
         (types : list (string * Type_)) (s : State),
    my_ctx s <> None ->
    dict_keys types = dict_keys ids ->
    NoDup (dict_keys ids ++ map fst fields) ->
    fields !! k = Some item ->
    uint32_ok (requested_field_id (snd item)) = false ->
    field_ids_fit (take k fields) ->
    exists new,
      length new = k /\
      foldM (Fspace_create_field engine h) fields (ids, types) s
      = (Raise OverflowError,
         State_with_calls s
           (concat (zip_with (field_calls h) (take k fields) new))).
Proof.
  induction fields as [|item0 fields IH];
    intros k item ids types s Hc Hk Hnd Hi Hout Hfit; [done|].
  destruct k as [|k].
  - injection Hi as ->. exists []. split; [done|]. simpl foldM.
    rewrite (bind_raise _ _ _ _ _
               (create_field_overflow engine h (ids, types) item s Hout)).
    simpl. by rewrite State_with_calls_nil.
  - simpl in Hi. simpl take in Hfit.
    apply Forall_cons in Hfit as [Hfit1 Hfit].
    simpl foldM.
    rewrite (bind_ok _ _ _ _ _
               (create_field_run engine h (ids, types) item0 s Hc Hfit1)).
    set (id := allocate_field_reply engine (engine_calls s) h
                 (Type_size (fst (snd item0)))
                 (requested_field_id (snd item0))).
    assert (fst item0 ∉ dict_keys ids) as Hfresh.
    { apply NoDup_app in Hnd as (_ & Hd & _). intros Hin.
      apply (Hd _ Hin). simpl. left. }
    simpl fst. simpl snd.
    rewrite (dict_set_fresh (fst item0) id ids Hfresh).
    rewrite (dict_set_fresh (fst item0) (fst (snd item0)) types)
      by (by rewrite Hk).
    destruct (IH k item (ids ++ [(fst item0, id)])
                (types ++ [(fst item0, fst (snd item0))])
                (State_with_calls s (field_calls h item0 (fst item0, id))))
      as (new & Hlen & Hrun); try done.
    { unfold dict_keys in *. by rewrite !map_app, Hk. }
    { unfold dict_keys in *. rewrite map_app, <- app_assoc. exact Hnd. }
    exists ((fst item0, id) :: new). split; [simpl; by rewrite Hlen|].
    rewrite Hrun, State_with_calls_app. reflexivity.
Qed.

(** The fields fit whenever the loop of [Fspace.create] ends. *)
Lemma create_fields_fit (engine : Engine) (h : legion_field_space_t)
  (fields : list (string * FieldEntry)) :
  forall (acc dicts : list (string * Z) * list (string * Type_))
         (s s' : State),
    foldM (Fspace_create_field engine h) fields acc s = (Ok dicts, s') ->
    field_ids_fit fields.
Proof.
  induction fields as [|item fields IH]; intros acc dicts s s' H;
    [constructor|].
  simpl in H. apply bind_inv in H as (acc' & s1 & H1 & H2).
  constructor; [|by eapply IH].
  destruct (uint32_ok (requested_field_id (snd item))) eqn:Hfit; [done|].
  by rewrite (create_field_overflow engine h acc item s Hfit) in H1.
Qed.

Lemma Fspace_create_run (engine : Engine)
  (fields : list (string * FieldEntry)) (s : State) :
  my_ctx s <> None -> NoDup (map fst fields) -> field_ids_fit fields ->
  exists F s' ids,
    Fspace_create engine fields s = (Ok F, s') /\
    let h := field_space_create_reply engine (engine_calls s) in
    let before :=
      engine_calls s
      ++ [legion_field_space_create; legion_field_allocator_create h] in
    f_handle F = Some h /\ field_ids F = Some ids /\
    field_types F
    = Some (map (fun item => (fst item, fst (snd item))) fields) /\
    map fst ids = map fst fields /\
    engine_calls s'
    = before ++ concat (zip_with (field_calls h) fields ids)
      ++ [legion_field_allocator_destroy h] /\
    forall k item id,
      fields !! k = Some item -> ids !! k = Some id ->
      snd id
      = allocate_field_reply engine
          (before
           ++ concat (zip_with (field_calls h) (take k fields) (take k ids)))
          h (Type_size (fst (snd item))) (requested_field_id (snd item)).
Proof.
  intros Hc Hnd Hfit. unfold Fspace_create.
  destruct (my_ctx s) as [c|] eqn:Hctx; [|done].
  set (h := field_space_create_reply engine (engine_calls s)).
  set (s1 := State_with_calls s [legion_field_space_create]).
  set (s2 := State_with_calls s1 [legion_field_allocator_create h]).
  assert (my_ctx s2 <> None) as Hc2 by (simpl; by rewrite Hctx).
  destruct (create_fields_run engine h fields [] [] s2 Hc2 Hfit eq_refl Hnd)
    as (ids & s3 & Hrun & Hkeys & Hs3 & Hrep).
  simpl in Hrun.
  destruct (Fspace_init_ok h ids
              (map (fun item => (fst item, fst (snd item))) fields) true
              (State_with_calls s3 [legion_field_allocator_destroy h]))
    as (F & s' & Hinit & Hh & Hids & Htypes & _ & _ & _ & Hcalls & _).
  { unfold can_track. rewrite Hs3. simpl. by rewrite Hctx. }
  exists F, s', ids. split.
  + rewrite (bind_ok _ _ _ _ _ (get_ctx_some s c Hctx)).
    rewrite (bind_ok get_trace _ s s (engine_calls s) eq_refl).
    rewrite (bind_ok _ _ _ _ _ (engine_call_run legion_field_space_create s)).
    fold h s1.
    rewrite (bind_ok _ _ _ _ _ (get_ctx_some s1 c Hctx)).
    rewrite (bind_ok _ _ _ _ _
               (engine_call_run (legion_field_allocator_create h) s1)).
    fold s2. rewrite (bind_ok _ _ _ _ _ Hrun).
    rewrite (bind_ok _ _ _ _ _
               (engine_call_run (legion_field_allocator_destroy h) s3)).
    exact Hinit.
  + cbv zeta. fold h. split_and!; try done.
    * rewrite Hcalls, Hs3. simpl. by rewrite <- !app_assoc.
    * intros k item id Hi Hn. rewrite (Hrep k item id Hi Hn).
      simpl. by rewrite <- !app_assoc.
Qed.

(** X17.  [Fspace.create] outside a task raises [AttributeError] before
    any engine call.  Inside a task, for a dictionary of fields (distinct
    names) whose explicit field ids are unsigned 32-bit integers, it
    succeeds and makes exactly these engine calls: create the field space,
    create an allocator for it, then for each field in the order of the
    dictionary allocate the field (with the size of its type and the id of
    its entry, or [AUTO_GENERATE_ID]) and attach its name to the id that
    the engine returned, and finally destroy the allocator.  The field
    space records the fields in that order, each with the id that the
    engine returned for it and with its type.  At the first field whose
    explicit id is negative or above [2^32 - 1] it raises an
    [OverflowError] instead, after the engine calls for the fields before
    that one: the field is not allocated and the allocator is not
    destroyed. *)
Theorem Fspace_create_trace (engine : Engine)
  (fields : list (string * FieldEntry)) (s : State) :
  (my_ctx s = None ->
   Fspace_create engine fields s = (Raise AttributeError, s))
  /\
  (my_ctx s <> None -> NoDup (map fst fields) -> field_ids_fit fields ->
   exists F s' ids,
     Fspace_create engine fields s = (Ok F, s') /\
     let h := field_space_create_reply engine (engine_calls s) in
     let before :=
       engine_calls s
       ++ [legion_field_space_create; legion_field_allocator_create h] in
     f_handle F = Some h /\ field_ids F = Some ids /\
     field_types F
     = Some (map (fun item => (fst item, fst (snd item))) fields) /\
     map fst ids = map fst fields /\
     engine_calls s'
     = before ++ concat (zip_with (field_calls h) fields ids)
       ++ [legion_field_allocator_destroy h] /\
     forall k item id,
       fields !! k = Some item -> ids !! k = Some id ->
       snd id
       = allocate_field_reply engine
           (before
            ++ concat (zip_with (field_calls h) (take k fields) (take k ids)))
           h (Type_size (fst (snd item))) (requested_field_id (snd item)))
  /\
  (forall (k : nat) (item : string * FieldEntry),
     my_ctx s <> None -> NoDup (map fst fields) ->
     fields !! k = Some item ->
     requested_field_id (snd item) < 0
     \/ uint32_max < requested_field_id (snd item) ->
     field_ids_fit (take k fields) ->
     exists s' ids,
       Fspace_create engine fields s = (Raise OverflowError, s') /\
       let h := field_space_create_reply engine (engine_calls s) in
       length ids = k /\
       engine_calls s'
       = engine_calls s
         ++ [legion_field_space_create; legion_field_allocator_create h]
         ++ concat (zip_with (field_calls h) (take k fields) ids)).
Proof.
  split_and!.
  - intros Hc. unfold Fspace_create.
    by rewrite (bind_raise _ _ _ _ _ (get_ctx_none s Hc)).
  - intros Hc Hnd Hfit. by apply Fspace_create_run.
  - intros k item Hc Hnd Hi Hout Hfit. unfold Fspace_create.
    destruct (my_ctx s) as [c|] eqn:Hctx; [|done].
    set (h := field_space_create_reply engine (engine_calls s)).
    set (s1 := State_with_calls s [legion_field_space_create]).
    set (s2 := State_with_calls s1 [legion_field_allocator_create h]).
    assert (my_ctx s2 <> None) as Hc2 by (simpl; by rewrite Hctx).
    assert (uint32_ok (requested_field_id (snd item)) = false) as Hout'.
    { unfold uint32_ok. apply andb_false_iff.
      destruct Hout as [Hout|Hout]; [left|right]; apply Z.leb_gt; lia. }
    destruct (create_fields_overflow engine h fields k item [] [] s2 Hc2
                eq_refl Hnd Hi Hout' Hfit)
      as (ids & Hlen & Hrun).
    eexists. exists ids. split.
    + rewrite (bind_ok _ _ _ _ _ (get_ctx_some s c Hctx)).
      rewrite (bind_ok get_trace _ s s (engine_calls s) eq_refl).
      rewrite (bind_ok _ _ _ _ _ (engine_call_run legion_field_space_create s)).
      fold h s1.
      rewrite (bind_ok _ _ _ _ _ (get_ctx_some s1 c Hctx)).
      rewrite (bind_ok _ _ _ _ _
                 (engine_call_run (legion_field_allocator_create h) s1)).
      fold s2. rewrite (bind_raise _ _ _ _ _ Hrun). reflexivity.
    + cbv zeta. fold h. split; [done|]. simpl. by rewrite <- !app_assoc.
Qed.

Lemma Fspace_create_trace_witness :
  Fspace_create sample_engine sample_fields state_without_context
  = (Raise AttributeError, state_without_context) /\
  (exists F s',
     Fspace_create sample_engine sample_fields state_in_task = (Ok F, s') /\
     length (engine_calls s') = (3 + 2 * length sample_fields)%nat) /\
  (exists s',
     Fspace_create sample_engine
       [("x"%string, (float64, None)); ("y"%string, (int64, Some (-5)))]
       state_in_task
     = (Raise OverflowError, s') /\
     length (engine_calls s') = (length (engine_calls state_in_task) + 4)%nat).
Proof.
  split_and!.
  - apply (proj1 (Fspace_create_trace sample_engine sample_fields
                    state_without_context)). reflexivity.
  - destruct (proj1 (proj2 (Fspace_create_trace sample_engine sample_fields
                              state_in_task)))
      as (F & s' & ids & Hrun & _ & _ & _ & Hk & Hcalls & _).
    + done.
    + apply (bool_decide_unpack _). vm_compute. reflexivity.
    + repeat constructor.
    + exists F, s'. split; [done|]. rewrite Hcalls.
      apply (f_equal length) in Hk. rewrite !length_map in Hk.
      simpl in Hk. do 3 (destruct ids as [|? ids]; try discriminate Hk).
      reflexivity.
  - destruct (proj2 (proj2 (Fspace_create_trace sample_engine
                              [("x"%string, (float64, None));
                               ("y"%string, (int64, Some (-5)))]
                              state_in_task))
                1%nat ("y"%string, (int64, Some (-5))))
      as (s' & ids & Hrun & Hlen & Hcalls).
    + done.
    + apply (bool_decide_unpack _). vm_compute. reflexivity.
    + reflexivity.
    + left. by vm_compute.
    + repeat constructor.
    + exists s'. split; [done|]. rewrite Hcalls.
      destruct ids as [|? [|? ids]]; try discriminate Hlen.
      rewrite !length_app. simpl. lia.
Defined.

(** ** What [Region.create] creates *)

Lemma oid_ret {A} (a : A) : keeps_oid (ret a).
Proof. done. Qed.

Lemma oid_raise {A} (e : PyError) : keeps_oid (@raise A e).
Proof. done. Qed.

Lemma oid_lift {A} (r : result A) : keeps_oid (lift r).
Proof. done. Qed.

Lemma oid_engine_call (call : EngineCall) : keeps_oid (engine_call call).
Proof. done. Qed.

Lemma oid_get_ctx : keeps_oid get_ctx.
Proof. done. Qed.

Lemma oid_get_trace : keeps_oid get_trace.
Proof. done. Qed.

Lemma oid_bind {A B} (m : M A) (k : A -> M B) :
  keeps_oid m -> (forall a, keeps_oid (k a)) -> keeps_oid (bind m k).
Proof.
  intros Hm Hk s. unfold bind. specialize (Hm s).
  destruct (m s) as [[a|e] s1]; simpl in *; [|done].
  by rewrite Hk.
Qed.

Lemma oid_foldM {A B} (f : B -> A -> M B) (l : list A) (b : B) :
  (forall b a, keeps_oid (f b a)) -> keeps_oid (foldM f l b).
Proof.
  intros Hf. revert b. induction l as [|x l IH]; intros b; simpl.
  - apply oid_ret.
  - apply oid_bind; [apply Hf|]. intros b'. apply IH.
Qed.

#[local] Hint Resolve oid_ret oid_raise oid_lift oid_engine_call oid_get_ctx
  oid_get_trace : keeps.

Ltac keeps_oid :=
  repeat first
    [ progress eauto with keeps
    | apply oid_bind; [|intros ?]
    | apply oid_foldM; intros ? ? ].

Lemma create_fields_quiet (engine : Engine) (h : legion_field_space_t)
  (fields : list (string * FieldEntry))
  (acc : list (string * Z) * list (string * Type_)) :
  keeps_ctx (foldM (Fspace_create_field engine h) fields acc) /\
  keeps_oid (foldM (Fspace_create_field engine h) fields acc).
Proof.
  split.
  - apply keeps_foldM. intros b a. unfold Fspace_create_field. keeps.
  - apply oid_foldM. intros b a. unfold Fspace_create_field. keeps_oid.
Qed.

Lemma Ispace_create_inv (engine : Engine) (max_dim : nat)
  (extent : IntOrSeq) (start : option IntOrSeq) (s s' : State) (I : Ispace) :
  Ispace_create engine max_dim extent start s = (Ok I, s') ->
  i_oid I = next_oid s /\ i_owned I = true /\ i_escaped I = false /\
  i_handle I <> None /\
  tracks s s' [i_oid I] /\ next_oid s' = S (next_oid s).
Proof.
  unfold Ispace_create.
  intros (d & s1 & [_ ->]%lift_inv & H)%bind_inv.
  apply bind_inv in H as (c & s2 & Hc & H).
  pose proof (keeps_get_ctx s) as Hc1. pose proof (oid_get_ctx s) as Ho1.
  rewrite Hc in Hc1, Ho1. simpl in Hc1, Ho1.
  apply bind_inv in H as (tr & s3 & [= <- <-] & H).
  apply bind_inv in H as ([] & s4 & [= <-] & H).
  apply Ispace_init_tracks in H as (Ho & Hw & He & Hh & Ht & _ & Hn).
  simpl in *. split_and!; try congruence.
  unfold tracks, tracked in *. simpl in *. by rewrite Hc1, Ho1 in Ht.
Qed.

Lemma Fspace_create_inv (engine : Engine)
  (fields : list (string * FieldEntry)) (s s' : State) (F : Fspace) :
  Fspace_create engine fields s = (Ok F, s') ->
  f_oid F = next_oid s /\ f_owned F = true /\ f_escaped F = false /\
  f_handle F <> None /\
  tracks s s' [f_oid F] /\ next_oid s' = S (next_oid s).
Proof.
  unfold Fspace_create.
  intros (c & s1 & Hc & H)%bind_inv.
  pose proof (keeps_get_ctx s) as Hc1. pose proof (oid_get_ctx s) as Ho1.
  rewrite Hc in Hc1, Ho1. simpl in Hc1, Ho1.
  apply bind_inv in H as (tr & s2 & [= <- <-] & H).
  apply bind_inv in H as ([] & s3 & [= <-] & H).
  apply bind_inv in H as (c' & s4 & Hc' & H).
  injection Hc' as _ <-.
  apply bind_inv in H as ([] & s5 & [= <-] & H).
  apply bind_inv in H as (dicts & s6 & Hfold & H).
  match type of Hfold with
  | foldM ?f ?l ?b ?st = _ =>
      destruct (create_fields_quiet engine
                  (field_space_create_reply engine (engine_calls s1))
                  fields ([], [])) as [Hk1 Hk2];
      specialize (Hk1 st); specialize (Hk2 st);
      rewrite Hfold in Hk1, Hk2; simpl in Hk1, Hk2
  end.
  apply bind_inv in H as ([] & s7 & [= <-] & H).
  apply Fspace_init_tracks in H
    as (Ho & Hw & He & Hh & _ & _ & Ht & _ & Hn).
  simpl in *. split_and!; try congruence.
  unfold tracks, tracked in *. simpl in *.
  by rewrite Hk1, Hk2, Hc1, Ho1 in Ht.
Qed.

(** [Ispace.create] on a raw extent: what it makes, and that it makes
    it. *)
Lemma Ispace_create_made (engine : Engine) (max_dim : nat)
  (extent : IntOrSeq) (s s' : State) (I : Ispace) :
  Ispace_create engine max_dim extent None s = (Ok I, s') ->
  Ispace_made_from engine max_dim extent (engine_calls s) I /\
  engine_calls s'
  = engine_calls s ++ ispace_calls max_dim (ARawExtent extent) /\
  my_ctx s <> None.
Proof.
  unfold Ispace_create.
  intros (d & s1 & [Hd ->]%lift_inv & H)%bind_inv.
  apply bind_inv in H as (c & s2 & Hc & H).
  unfold get_ctx in Hc. destruct (my_ctx s) as [c0|] eqn:Hctx; [|done].
  injection Hc as <- <-.
  apply bind_inv in H as (tr & s3 & [= <- <-] & H).
  apply bind_inv in H as ([] & s4 & [= <-] & H).
  apply Ispace_init_tracks in H as (_ & Hw & He & Hh & _ & Hcalls & _).
  simpl in Hcalls. split_and!; [|by rewrite Hcalls; simpl; rewrite Hd|done].
  by exists d.
Qed.

Lemma Ispace_create_run (engine : Engine) (max_dim : nat)
  (extent : IntOrSeq) (d : Domain) (s : State) :
  my_ctx s <> None -> Domain_create max_dim extent None = Ok d ->
  exists I s',
    Ispace_create engine max_dim extent None s = (Ok I, s') /\
    Ispace_live I /\ my_ctx s' <> None.
Proof.
  intros Hc Hd. unfold Ispace_create. rewrite Hd.
  destruct (my_ctx s) as [c|] eqn:Hctx; [|done].
  unfold lift at 1. erewrite bind_ok by reflexivity.
  erewrite bind_ok by (apply get_ctx_some; exact Hctx).
  unfold get_trace at 1. erewrite bind_ok by reflexivity.
  unfold engine_call at 1. erewrite bind_ok by reflexivity.
  match goal with
  | |- context [Ispace_init ?h true ?st] =>
      destruct (Ispace_init_ok h true st)
        as (I & s' & Hi & Hh & _ & _ & _ & _ & Hctx')
  end.
  { intros _. simpl. by rewrite Hctx. }
  exists I, s'. split; [exact Hi|]. split.
  - unfold Ispace_live. by rewrite Hh.
  - apply Hctx'. simpl. by rewrite Hctx.
Qed.

(** [Fspace.create] on a dictionary of fields: what a successful call has
    made. *)
Lemma Fspace_create_made (engine : Engine)
  (fields : list (string * FieldEntry)) (s s' : State) (F : Fspace) :
  Fspace_create engine fields s = (Ok F, s') ->
  my_ctx s <> None /\ field_ids_fit fields /\
  (NoDup (map fst fields) ->
   Fspace_made_from engine fields (engine_calls s) F).
Proof.
  intros H.
  assert (my_ctx s <> None) as Hc.
  { intros Hn. unfold Fspace_create in H.
    by rewrite (bind_raise _ _ _ _ _ (get_ctx_none s Hn)) in H. }
  assert (field_ids_fit fields) as Hfit.
  { unfold Fspace_create in H.
    apply bind_inv in H as (c & s1 & _ & H).
    apply bind_inv in H as (tr & s2 & _ & H).
    apply bind_inv in H as ([] & s3 & _ & H).
    apply bind_inv in H as (c' & s4 & _ & H).
    apply bind_inv in H as ([] & s5 & _ & H).
    apply bind_inv in H as (dicts & s6 & Hfold & _).
    by eapply create_fields_fit. }
  split_and!; try done.
  intros Hnd.
  destruct (Fspace_create_run engine fields s Hc Hnd Hfit)
    as (F' & s'' & ids & Hrun & Hh & Hids & Hty & Hk & _).
  rewrite H in Hrun. injection Hrun as <- <-.
  apply Fspace_create_inv in H as (_ & Hw & He & _).
  by exists ids.
Qed.

(** The loop of [Fspace.create] on fields that do not all fit. *)
Lemma create_fields_unfit (engine : Engine) (h : legion_field_space_t)
  (fields : list (string * FieldEntry)) :
  forall (acc : list (string * Z) * list (string * Type_)) (s : State),
    my_ctx s <> None -> ~ field_ids_fit fields ->
    exists s',
      foldM (Fspace_create_field engine h) fields acc s
      = (Raise OverflowError, s').
Proof.
  induction fields as [|item fields IH]; intros acc s Hc Hun.
  - exfalso. apply Hun. constructor.
  - simpl.
    destruct (uint32_ok (requested_field_id (snd item))) eqn:Hfit.
    + destruct (Fspace_create_field_ok engine h acc item s Hc Hfit)
        as (fid & s1 & H1 & Hc1 & _).
      rewrite (bind_ok _ _ _ _ _ H1).
      apply IH; [by rewrite Hc1|].
      intros Hrest. apply Hun. by constructor.
    + exists s.
      by rewrite (bind_raise _ _ _ _ _
                    (create_field_overflow engine h acc item s Hfit)).
Qed.

Lemma Fspace_create_unfit (engine : Engine)
  (fields : list (string * FieldEntry)) (s : State) :
  my_ctx s <> None -> ~ field_ids_fit fields ->
  exists s', Fspace_create engine fields s = (Raise OverflowError, s').
Proof.
  intros Hc Hun. unfold Fspace_create.
  destruct (my_ctx s) as [c|] eqn:Hctx; [|done].
  erewrite bind_ok by (apply get_ctx_some; exact Hctx).
  unfold get_trace at 1. erewrite bind_ok by reflexivity.
  unfold engine_call at 1. erewrite bind_ok by reflexivity.
  erewrite bind_ok by (apply get_ctx_some; exact Hctx).
  unfold engine_call at 1. erewrite bind_ok by reflexivity.
  match goal with
  | |- context [bind (foldM _ fields ?acc) _ ?st] =>
      destruct (create_fields_unfit engine
                  (field_space_create_reply engine (engine_calls s))
                  fields acc st) as (s' & Hf)
  end; [simpl; by rewrite Hctx|done|].
  exists s'. by rewrite (bind_raise _ _ _ _ _ Hf).
Qed.

(** What a successful [Region.create] has made, from what. *)
Lemma Region_create_made (engine : Engine) (max_dim : nat)
  (ispace : IspaceArg) (fspace : FspaceArg) (s s' : State) (r : Region) :
  Region_create engine max_dim ispace fspace s = (Ok r, s') ->
  exists I F,
    r_ispace r = Some I /\ r_fspace r = Some F /\
    r_owned r = true /\ r_escaped r = false /\ r_parent r = Some None /\
    match ispace with
    | AnIspace i => I = i
    | ARawExtent extent =>
        Ispace_made_from engine max_dim extent (engine_calls s) I
    end /\
    match fspace with
    | AnFspace f => F = f
    | ARawFields fields =>
        f_owned F = true /\ f_escaped F = false /\ field_ids_fit fields /\
        (NoDup (map fst fields) ->
         Fspace_made_from engine fields
           (engine_calls s ++ ispace_calls max_dim ispace) F)
    end /\
    tracks s s' (created_by_Region_create ispace fspace I F r) /\
    StronglySorted lt (created_by_Region_create ispace fspace I F r) /\
    exists ih fh pre,
      i_handle I = Some ih /\ f_handle F = Some fh /\
      engine_calls s' = pre ++ [legion_logical_region_create ih fh] /\
      r_handle r = Some (logical_region_create_reply engine pre ih fh).
Proof.
  unfold Region_create.
  intros (I & s1 & HI & H)%bind_inv.
  apply bind_inv in H as (F & s2 & HF & H).
  apply bind_inv in H as (c & s3 & Hc & H). injection Hc as _ <-.
  apply bind_inv in H as (ih & s4 & [Hih ->]%lift_inv & H).
  apply bind_inv in H as (fh & s5 & [Hfh ->]%lift_inv & H).
  apply bind_inv in H as (tr & s6 & [= <- <-] & H).
  apply bind_inv in H as ([] & s7 & [= <-] & H).
  apply Region_init_tracks in H
    as (Hor & Hw & He & Hh & Hri & Hrf & Hp & Htr & Hcalls & Hn).
  simpl in Hor, Htr, Hcalls, Hn.
  assert (tracks s2 s' [r_oid r]) as Htr'.
  { unfold tracks, tracked in *. by simpl in *. }
  assert (exists li,
             tracks s s1 li /\ (next_oid s <= next_oid s1)%nat /\
             Forall (fun o => (next_oid s <= o < next_oid s1)%nat) li /\
             li = match ispace with
                  | ARawExtent _ => [i_oid I] | AnIspace _ => []
                  end /\
             engine_calls s1 = engine_calls s ++ ispace_calls max_dim ispace /\
             match ispace with
             | AnIspace i => I = i
             | ARawExtent extent =>
                 Ispace_made_from engine max_dim extent (engine_calls s) I
             end) as (li & Ht1 & Hle1 & Hin1 & Hli & Hc1 & HmI).
  { destruct ispace as [i|extent].
    - injection HI as <- <-. exists []. split_and!; try done.
      + apply tracks_refl.
      + simpl. by rewrite app_nil_r.
    - pose proof (Ispace_create_made _ _ _ _ _ _ HI) as (Hm & Hcs & _).
      apply Ispace_create_inv in HI as (Ho & Hw1 & He1 & _ & Ht & Hn1).
      exists [i_oid I]. split_and!; try done; [lia|].
      repeat constructor; lia. }
  assert (exists lf,
             tracks s1 s2 lf /\ (next_oid s1 <= next_oid s2)%nat /\
             Forall (fun o => (next_oid s1 <= o < next_oid s2)%nat) lf /\
             lf = match fspace with
                  | ARawFields _ => [f_oid F] | AnFspace _ => []
                  end /\
             match fspace with
             | AnFspace f => F = f
             | ARawFields fields =>
                 f_owned F = true /\ f_escaped F = false /\
                 field_ids_fit fields /\
                 (NoDup (map fst fields) ->
                  Fspace_made_from engine fields
                    (engine_calls s ++ ispace_calls max_dim ispace) F)
             end) as (lf & Ht2 & Hle2 & Hin2 & Hlf & HmF).
  { destruct fspace as [f|fields].
    - injection HF as <- <-. exists []. split_and!; try done.
      apply tracks_refl.
    - pose proof (Fspace_create_made _ _ _ _ _ HF) as (_ & Hfit & Hm).
      rewrite Hc1 in Hm.
      apply Fspace_create_inv in HF as (Ho & Hw1 & He1 & _ & Ht & Hn1).
      exists [f_oid F]. split_and!; try done; [lia|].
      repeat constructor; lia. }
  exists I, F. split_and!; try done.
  - unfold created_by_Region_create. rewrite <- Hli, <- Hlf.
    eapply tracks_trans; [exact Ht1|].
    eapply tracks_trans; [exact Ht2|exact Htr'].
  - unfold created_by_Region_create. rewrite <- Hli, <- Hlf.
    apply StronglySorted_app_2; [| |apply StronglySorted_app_2].
    + intros o1 o2 H1 [H2|H2]%elem_of_app.
      * rewrite Forall_forall in Hin1, Hin2.
        specialize (Hin1 _ H1). specialize (Hin2 _ H2). lia.
      * apply list_elem_of_singleton in H2 as ->.
        rewrite Forall_forall in Hin1. specialize (Hin1 _ H1). lia.
    + subst li. destruct ispace; repeat constructor.
    + intros o1 o2 H1 ->%list_elem_of_singleton.
      rewrite Forall_forall in Hin2. specialize (Hin2 _ H1). lia.
    + subst lf. destruct fspace; repeat constructor.
    + repeat constructor.
  - exists ih, fh, (engine_calls s2). split_and!.
    + unfold get_slot in Hih. destruct (i_handle I); [|done].
      by injection Hih as ->.
    + unfold get_slot in Hfh. destruct (f_handle F); [|done].
      by injection Hfh as ->.
    + by rewrite Hcalls.
    + done.
Qed.

(** When [Region.create] succeeds. *)
Lemma Region_create_succeeds (engine : Engine) (max_dim : nat)
  (ispace : IspaceArg) (fspace : FspaceArg) (s : State) :
  my_ctx s <> None ->
  match ispace with
  | AnIspace i => Ispace_live i
  | ARawExtent extent => is_ok (Domain_create max_dim extent None) = true
  end ->
  match fspace with
  | AnFspace F =>
      Fspace_live F /\
      exists ids, field_ids F = Some ids /\ NoDup (dict_keys ids)
  | ARawFields fields => field_ids_fit fields
  end ->
  exists r s',
    Region_create engine max_dim ispace fspace s = (Ok r, s').
Proof.
  intros Hc Hi Hf.
  destruct ispace as [I|extent]; [by apply Region_create_ok|].
  destruct (Domain_create max_dim extent None) as [d|e] eqn:Hd; [|done].
  destruct (Ispace_create_run engine max_dim extent d s Hc Hd)
    as (I & s1 & HI & Hlive & Hc1).
  destruct (Region_create_ok engine max_dim I fspace s1 Hc1 Hlive Hf)
    as (r & s' & Hr).
  exists r, s'. unfold Region_create in *.
  rewrite (bind_ok _ _ _ _ _ HI).
  unfold ret at 1 in Hr. by rewrite (bind_ok _ _ s1 s1 I eq_refl) in Hr.
Qed.

(** X15.  [Region.create] owns exactly what it creates.  Inside a task it
    succeeds on an index space with a handle or a raw extent that makes a
    domain, and a field space with a handle and distinct field names or a
    dictionary of fields whose explicit ids are unsigned 32-bit integers.
    The region it returns is owned, has no parent, and refers to the index
    space and the field space it was given or has made: from a raw extent,
    an owned index space whose handle is the engine's reply for the domain
    of that extent; from a dictionary of fields (which is returned only if
    every explicit field id fits), an owned field space whose handle is
    the engine's reply and which records the names and the types of the
    dictionary in their order.  The context tracks, in this order, the
    index space (if made here), the field space (if made here) and the
    region, and nothing else: spaces that were handed in are not tracked
    by this call.  The last engine call creates the logical region from
    the handles of these two spaces, and its reply is the handle of the
    region. *)
Theorem Region_create_tracks (engine : Engine) (max_dim : nat)
  (ispace : IspaceArg) (fspace : FspaceArg) (s : State) :
  (my_ctx s <> None ->
   match ispace with
   | AnIspace i => Ispace_live i
   | ARawExtent extent => is_ok (Domain_create max_dim extent None) = true
   end ->
   match fspace with
   | AnFspace F =>
       Fspace_live F /\
       exists ids, field_ids F = Some ids /\ NoDup (dict_keys ids)
   | ARawFields fields => field_ids_fit fields
   end ->
   exists r s',
     Region_create engine max_dim ispace fspace s = (Ok r, s'))
  /\
  (forall (s' : State) (r : Region),
     Region_create engine max_dim ispace fspace s = (Ok r, s') ->
     exists I F,
       r_ispace r = Some I /\ r_fspace r = Some F /\
       r_owned r = true /\ r_escaped r = false /\ r_parent r = Some None /\
       match ispace with
       | AnIspace i => I = i
       | ARawExtent extent =>
           Ispace_made_from engine max_dim extent (engine_calls s) I
       end /\
       match fspace with
       | AnFspace f => F = f
       | ARawFields fields =>
           f_owned F = true /\ f_escaped F = false /\ field_ids_fit fields /\
           (NoDup (map fst fields) ->
            Fspace_made_from engine fields
              (engine_calls s ++ ispace_calls max_dim ispace) F)
       end /\
       tracks s s' (created_by_Region_create ispace fspace I F r) /\
       StronglySorted lt (created_by_Region_create ispace fspace I F r) /\
       exists ih fh pre,
         i_handle I = Some ih /\ f_handle F = Some fh /\
         engine_calls s' = pre ++ [legion_logical_region_create ih fh] /\
         r_handle r = Some (logical_region_create_reply engine pre ih fh)).
Proof.
  split.
  - apply Region_create_succeeds.
  - intros s' r. apply Region_create_made.
Qed.

Lemma Region_create_tracks_witness :
  exists r s' I F,
    Region_create sample_engine 3 (ARawExtent (Seq [4]))
      (ARawFields sample_fields) state_in_task = (Ok r, s') /\
    Ispace_made_from sample_engine 3 (Seq [4])
      (engine_calls state_in_task) I /\
    field_types F = Some [("x"%string, float64); ("y"%string, int64)] /\
    tracks state_in_task s' [i_oid I; f_oid F; r_oid r].
Proof.
  destruct (proj1 (Region_create_tracks sample_engine 3
                     (ARawExtent (Seq [4])) (ARawFields sample_fields)
                     state_in_task))
    as (r & s' & Hr); [done|reflexivity|repeat constructor|].
  destruct (proj2 (Region_create_tracks sample_engine 3 _ _ _) _ _ Hr)
    as (I & F & _ & _ & _ & _ & _ & HI & (_ & _ & _ & HF) & Ht & _).
  destruct HF as (ids & _ & _ & _ & Hty & _).
  { apply (bool_decide_unpack _). vm_compute. reflexivity. }
  exists r, s', I, F. split_and!; [exact Hr|exact HI|exact Hty|exact Ht].
Defined.

(** ** Subregions *)

(** X16.  Indexing a Partition makes two engine calls, for the index
    subspace and for the logical subregion of the same point, and returns
    a region that is not owned, over an index space that is not owned
    either, with the field space of the partition's parent region.
    Neither object is tracked by the context, and neither can be
    destroyed: [destroy()] fails on both.  The parent of the subregion is
    the parent's parent if there is one, else the parent: when that region
    has no parent, the subregion's parent is a region without parent too,
    so parent chains never grow beyond one step. *)
Theorem subregion_of_partition (engine : Engine) (max_dim : nat)
  (self : Partition) (point : PointArg) (s s' : State) (r : Region) :
  Partition_getitem engine max_dim self point s = (Ok r, s') ->
  exists parent ipartition h ih p sub,
    part_parent self = Some parent /\
    part_ipartition self = Some ipartition /\
    part_handle self = Some h /\ ipart_handle ipartition = Some ih /\
    as_point max_dim point = Ok p /\
    engine_calls s'
    = engine_calls s
      ++ [legion_index_partition_get_index_subspace_domain_point
            ih (dp_handle p);
          legion_logical_partition_get_logical_subregion_by_color_domain_point
            h (dp_handle p)] /\
    r_ispace r = Some sub /\ i_owned sub = false /\
    r_owned r = false /\ r_fspace r = r_fspace parent /\
    r_parent r = Some (Some (subregion_parent parent)) /\
    (flat parent -> r_parent (subregion_parent parent) = Some None) /\
    tracks s s' [] /\
    (forall s0, fails (Handle_destroy (HRegion r)) s0 /\
                fails (Handle_destroy (HIspace sub)) s0).
Proof.
  unfold Partition_getitem.
  intros (p & s1 & [Hp ->]%lift_inv & H)%bind_inv.
  apply bind_inv in H as (ip & s2 & [Hip ->]%lift_inv & H).
  apply bind_inv in H as (sub & s3 & Hsub & H).
  unfold Ipartition_getitem in Hsub.
  apply bind_inv in Hsub as (p' & t1 & [Hp' ->]%lift_inv & Hsub).
  injection Hp' as <-.
  apply bind_inv in Hsub as (c1 & t2 & Hc1 & Hsub). injection Hc1 as _ <-.
  apply bind_inv in Hsub as (ih & t3 & [Hih ->]%lift_inv & Hsub).
  apply bind_inv in Hsub as (tr1 & t4 & [= <- <-] & Hsub).
  apply bind_inv in Hsub as ([] & t5 & [= <-] & Hsub).
  apply Ispace_init_tracks in Hsub as (Hos & Hws & Hes & Hhs & Hts & Hcs & Hns).
  apply bind_inv in H as (c2 & s4 & Hc2 & H). injection Hc2 as _ <-.
  apply bind_inv in H as (h & s5 & [Hh ->]%lift_inv & H).
  apply bind_inv in H as (tr2 & s6 & [= <- <-] & H).
  apply bind_inv in H as ([] & s7 & [= <-] & H).
  apply bind_inv in H as (parent & s8 & [Hpar ->]%lift_inv & H).
  apply bind_inv in H as (fspace & s9 & [Hfs ->]%lift_inv & H).
  apply bind_inv in H as (gp & s10 & [Hgp ->]%lift_inv & H).
  apply Region_init_tracks in H
    as (Hor & Hwr & Her & Hhr & Hri & Hrf & Hrp & Htr & Hcr & Hnr).
  simpl in *.
  assert (forall {A} (o : option A) (a : A), get_slot o = Ok a -> o = Some a)
    as Hslot.
  { intros A [x|] a; simpl; [by intros [= ->]|done]. }
  apply Hslot in Hip, Hih, Hh, Hpar, Hfs, Hgp.
  exists parent, ip, h, ih, p, sub. split_and!; try done.
  - rewrite Hcr. simpl. rewrite Hcs. by rewrite <- app_assoc.
  - by rewrite Hrf, Hfs.
  - rewrite Hrp. unfold subregion_parent. rewrite Hgp. by destruct gp.
  - unfold subregion_parent. rewrite Hgp.
    intros [Hflat|(g & Hg & Hflat)].
    + rewrite Hgp in Hflat. injection Hflat as ->. exact Hgp.
    + rewrite Hgp in Hg. injection Hg as ->. exact Hflat.
  - unfold tracks, tracked in *. simpl in *.
    destruct Hts as (? & Hts & _), Htr as (? & Htr & _).
    rewrite app_nil_r in *. split_and!; [lia|congruence|constructor].
  - intros s0. split.
    + apply (destroy_not_owned (HRegion r)). simpl. by f_equal.
    + apply (destroy_not_owned (HIspace sub)). simpl. by f_equal.
Qed.

Lemma subregion_of_partition_witness :
  exists r s',
    Partition_getitem sample_engine 3 sample_partition (ARawPoint (Scalar 1))
      state_in_task = (Ok r, s') /\
    r_parent r = Some (Some (subregion_parent (sample_region true false))) /\
    tracks state_in_task s' [].
Proof.
  destruct (Partition_getitem sample_engine 3 sample_partition
              (ARawPoint (Scalar 1)) state_in_task)
    as [[r|e] s'] eqn:Hr; [|vm_compute in Hr; discriminate].
  destruct (subregion_of_partition sample_engine 3 _ _ _ _ _ Hr)
    as (parent & ip & h & ih & p & sub & Hpar & _ & _ & _ & _ & _ & _ & _ & _
        & _ & Hp & _ & Ht & _).
  injection Hpar as <-. exists r, s'.
  split; [reflexivity|]. split; [exact Hp|exact Ht].
Defined.


(** ** Privileges of created regions *)

(** C9.  A region built by [Region.__init__] with [owned=True], and so
    every region that [Region.create] returns, holds the privilege [RW]
    for exactly the field names of its field space; a region built with
    [owned=False], and so every subregion obtained by indexing a
    Partition, starts with an empty privilege map.  The region that
    [Region.create] returns is the engine's reply for the handles of its
    index space and its field space, which are the ones it was given or
    the ones it has made from the raw extent and from the dictionary of
    fields: in the latter case the privileges are [RW] for exactly the
    names of the dictionary.  [Region.create] succeeds inside a task on an
    index space with a handle or an extent that makes a domain, and a
    field space with a handle and distinct field names or a dictionary of
    fields whose explicit ids are unsigned 32-bit integers; with a
    dictionary that has another explicit id it raises [OverflowError]. *)
Theorem owned_region_privileges :
  (forall (h : legion_logical_region_t) (I : Ispace) (F : Fspace)
          (parent : option Region) (s s' : State) (r : Region),
     Region_init h I F parent true s = (Ok r, s') ->
     exists ids,
       field_ids F = Some ids /\
       r_owned r = true /\ r_fspace r = Some F /\
       forall k, privileges r !! k
                 = if decide (k ∈ dict_keys ids) then Some RW else None)
  /\
  (forall (engine : Engine) (max_dim : nat) (ispace : IspaceArg)
          (fspace : FspaceArg) (s s' : State) (r : Region),
     Region_create engine max_dim ispace fspace s = (Ok r, s') ->
     exists I F ids ih fh pre,
       r_owned r = true /\
       r_ispace r = Some I /\ r_fspace r = Some F /\
       field_ids F = Some ids /\
       (forall k, privileges r !! k
                  = if decide (k ∈ dict_keys ids) then Some RW else None) /\
       match ispace with
       | AnIspace i => I = i
       | ARawExtent extent =>
           Ispace_made_from engine max_dim extent (engine_calls s) I
       end /\
       match fspace with
       | AnFspace f => F = f
       | ARawFields fields =>
           field_ids_fit fields /\
           (NoDup (map fst fields) ->
            Fspace_made_from engine fields
              (engine_calls s ++ ispace_calls max_dim ispace) F /\
            forall k, privileges r !! k
                      = if decide (k ∈ map fst fields) then Some RW
                        else None)
       end /\
       i_handle I = Some ih /\ f_handle F = Some fh /\
       engine_calls s' = pre ++ [legion_logical_region_create ih fh] /\
       r_handle r = Some (logical_region_create_reply engine pre ih fh))
  /\
  (forall (engine : Engine) (max_dim : nat) (ispace : IspaceArg)
          (fspace : FspaceArg) (s : State),
     my_ctx s <> None ->
     match ispace with
     | AnIspace i => Ispace_live i
     | ARawExtent extent => is_ok (Domain_create max_dim extent None) = true
     end ->
     match fspace with
     | AnFspace F =>
         Fspace_live F /\
         exists ids, field_ids F = Some ids /\ NoDup (dict_keys ids)
     | ARawFields fields => field_ids_fit fields
     end ->
     exists r s',
       Region_create engine max_dim ispace fspace s = (Ok r, s'))
  /\
  (forall (engine : Engine) (max_dim : nat) (i : Ispace)
          (fields : list (string * FieldEntry)) (s : State),
     my_ctx s <> None -> ~ field_ids_fit fields ->
     exists s',
       Region_create engine max_dim (AnIspace i) (ARawFields fields) s
       = (Raise OverflowError, s'))
  /\
  (forall (h : legion_logical_region_t) (I : Ispace) (F : Fspace)
          (parent : option Region) (s : State),
     exists r s',
       Region_init h I F parent false s = (Ok r, s') /\ privileges r = ∅)
  /\
  (forall (engine : Engine) (max_dim : nat) (self : Partition)
          (point : PointArg) (s s' : State) (r : Region),
     Partition_getitem engine max_dim self point s = (Ok r, s') ->
     r_owned r = false /\ privileges r = ∅).
Proof.
  split_and!.
  - intros h I F parent s s' r H.
    apply Region_init_owned_inv in H
      as (ids & ? & _ & ? & _ & _ & ? & _ & ? & _).
    exists ids. done.
  - intros engine max_dim ispace fspace s s' r H.
    pose proof (Region_create_inv _ _ _ _ _ _ _ H)
      as (F & ids & HF & Hids & Hpriv & Hown & _).
    apply Region_create_made in H
      as (I & F' & HI & HF' & _ & _ & _ & HmI & HmF & _ & _
          & ih & fh & pre & Hih & Hfh & Hcalls & Hh).
    rewrite HF in HF'. injection HF' as <-.
    exists I, F, ids, ih, fh, pre. split_and!; try done.
    destruct fspace as [f|fields]; [done|].
    destruct HmF as (_ & _ & Hfit & Hmade). split; [done|].
    intros Hnd. specialize (Hmade Hnd). split; [done|].
    destruct Hmade as (ids' & _ & Hids' & Hk & _).
    rewrite Hids in Hids'. injection Hids' as <-.
    intros k. rewrite Hpriv. unfold dict_keys. by rewrite Hk.
  - intros engine max_dim ispace fspace s. apply Region_create_succeeds.
  - intros engine max_dim i fields s Hc Hun.
    destruct (Fspace_create_unfit engine fields s Hc Hun) as (s' & Hf).
    exists s'. unfold Region_create.
    unfold ret at 1. rewrite (bind_ok _ _ s s i eq_refl).
    by rewrite (bind_raise _ _ _ _ _ Hf).
  - intros h I F parent s. eexists _, _.
    split; [apply Region_init_borrowed|reflexivity].
  - intros engine max_dim self point s s' r H.
    apply Partition_getitem_inv in H as (? & ? & _). done.
Qed.

(** A region created from an extent and a dictionary of two fields, a
    dictionary with a field id that does not fit, and a subregion of a
    partition of a region. *)
Lemma owned_region_privileges_witness :
  (exists r s',
     Region_create sample_engine 3 (ARawExtent (Seq [4]))
       (ARawFields sample_fields) state_in_task = (Ok r, s') /\
     r_owned r = true /\
     forall k, privileges r !! k
               = if decide (k ∈ ["x"; "y"]%string) then Some RW else None)
  /\
  (exists s',
     Region_create sample_engine 3 (AnIspace (sample_ispace true false))
       (ARawFields [("x"%string, (float64, Some (2 ^ 32)))]) state_in_task
     = (Raise OverflowError, s'))
  /\
  (exists r s',
     Partition_getitem sample_engine 3 sample_partition
       (ARawPoint (Scalar 1)) state_in_task = (Ok r, s') /\
     r_owned r = false /\ privileges r = ∅).
Proof.
  destruct owned_region_privileges
    as (_ & Hmade & Hok & Hfail & _ & Hsub).
  split_and!.
  - destruct (Hok sample_engine 3%nat (ARawExtent (Seq [4]))
                (ARawFields sample_fields) state_in_task)
      as (r & s' & Hr); [done|reflexivity|repeat constructor|].
    destruct (Hmade _ _ _ _ _ _ _ Hr)
      as (I & F & ids & ih & fh & pre & Hown & _ & _ & _ & _ & _
          & (_ & Hfields) & _).
    destruct Hfields as [_ Hpriv].
    { apply (bool_decide_unpack _). vm_compute. reflexivity. }
    exists r, s'. split_and!; [exact Hr|exact Hown|exact Hpriv].
  - apply Hfail; [done|].
    intros Hfit. apply Forall_cons in Hfit as [Hfit _].
    vm_compute in Hfit. discriminate.
  - destruct (Partition_getitem sample_engine 3 sample_partition
                (ARawPoint (Scalar 1)) state_in_task)
      as [[r|e] s'] eqn:Hr; [|vm_compute in Hr; discriminate].
    exists r, s'. split; [reflexivity|].
    exact (Hsub _ _ _ _ _ _ _ Hr).
Defined.

(** ** An index launch with one Future at every point *)

Lemma State_with_objects_calls (s : State) (calls : list EngineCall)
  (n : nat) :
  State_with_calls (State_with_objects s n) calls
  = State_with_objects (State_with_calls s calls) n.
Proof. reflexivity. Qed.

Lemma State_with_objects_zero (s : State) : State_with_objects s 0 = s.
Proof. by destruct s. Qed.

Lemma State_with_objects_succ (s : State) (n : nat) :
  State_with_objects (State_with_objects s 1) n = State_with_objects s (S n).
Proof.
  unfold State_with_objects. simpl. f_equal. lia.
Qed.

Section SameFuture.

Variable engine : Engine.
Variable max_dim : nat.
Variable task : Task.
Variable f : Future.
Variable h : legion_future_t.
Variable m : Z.

Hypothesis python_task : calling_convention task = "python"%string.
Hypothesis future_handle : fut_handle f = Some h.

Lemma check_compatibility_same_future (self : IndexLaunch)
  (index : _IndexValue) :
  Task_ne task (default task (saved_task self)) = false ->
  saved_future f self ->
  exists a,
    check_compatibility self task (index_and_future f index)
    = (IndexLaunch_with_saved self (Some (default task (saved_task self)))
         (Some [a; ArgFuture f]), Ok tt).
Proof.
  intros Ht Hs. unfold check_compatibility. rewrite Ht.
  destruct Hs as [Hs|[a Hs]]; rewrite Hs; simpl.
  - exists (ArgIndexValue index).
    unfold check_argument, Future_ne. simpl. by rewrite Nat.eqb_refl.
  - exists a. unfold check_argument, Future_ne. simpl.
    by rewrite Nat.eqb_refl.
Qed.

(** One spawn with the Future: it copies the Future, sets the arguments
    of the point, and leaves the copy as the Future argument of the
    launcher. *)
Lemma spawn_same_future (self : IndexLaunch) (futs : list Future)
  (p : DomainPoint) (s : State) :
  running_with task m futs self -> saved_future f self ->
  point self = Some {| iv_value := Some p |} ->
  exists fp self' f',
    IndexLaunch_spawn_task engine self task
      (index_and_future f {| iv_value := Some p |}) s
    = (self', Ok fp,
       State_with_objects (State_with_calls s (spawn_calls m h f p)) 1) /\
    running_with task m [f'] self' /\ saved_future f self' /\
    fut_handle f' = Some (future_copy_reply engine (engine_calls s) h) /\
    point self' = point self /\
    launch_oid self' = launch_oid self /\
    launch_domain self' = launch_domain self.
Proof.
  intros [Hl Ht] Hs Hp.
  destruct (check_compatibility_same_future self {| iv_value := Some p |}
              Ht Hs) as [a Hcheck].
  unfold IndexLaunch_spawn_task, ensure_launcher.
  rewrite Hl. unfold ret. rewrite Hcheck.
  unfold attach_spawn, bind, lift. simpl. rewrite Hl. simpl.
  unfold gather_futures. simpl.
  unfold bind, ret, Future_init_copy, bind, new_object, Future_resolve_handle.
  rewrite future_handle. simpl. rewrite ?future_handle.
  unfold ret, get_trace, engine_call. simpl.
  unfold attach_local_args, bind, lift, encode_args, engine_call. simpl.
  rewrite python_task. simpl.
  rewrite Hp. simpl.
  eexists _, _, _. split.
  { unfold State_with_objects, State_with_calls, spawn_calls,
      point_and_future_args, Future_value_type. simpl.
    rewrite <- app_assoc. reflexivity. }
  split_and!; try reflexivity; try (right; by exists a); done.
Qed.

Lemma iterate_same_future :
  forall (tuples : list (list Z)) (pts : list DomainPoint)
         (self : IndexLaunch) (futs : list Future) (s : State),
    rmapM (fun t => DomainPoint_create max_dim (Seq t)) tuples = Ok pts ->
    running_with task m futs self -> saved_future f self ->
    point self <> None ->
    exists self' futs',
      iterate_points max_dim (spawn_body engine task (index_and_future f))
        self tuples s
      = (self', Ok tt,
         State_with_objects
           (State_with_calls s (concat (map (spawn_calls m h f) pts)))
           (length pts)) /\
      running_with task m futs' self' /\ point self' <> None /\
      (pts = [] /\ futs' = futs \/
       exists f' pre,
         futs' = [f'] /\
         fut_handle f' = Some (future_copy_reply engine pre h)) /\
      launch_oid self' = launch_oid self /\
      launch_domain self' = launch_domain self.
Proof.
  induction tuples as [|t tuples IH]; intros pts self futs s.
  - intros [= <-] Hr Hs Hp. exists self, futs. simpl.
    rewrite State_with_calls_nil, State_with_objects_zero.
    split_and!; try done. by left.
  - simpl. destruct (DomainPoint_create max_dim (Seq t)) as [p|] eqn:Ht;
      [|done]. simpl.
    destruct (rmapM _ tuples) as [pts'|] eqn:Hpts; [|done]. simpl.
    intros [= <-] Hr Hs Hp.
    destruct (point self) as [old|] eqn:Hold; [|done].
    set (self1 := IndexLaunch_with_point self
                    (Some {| iv_value := Some p |})).
    assert (running_with task m futs self1) as Hr1 by exact Hr.
    assert (saved_future f self1) as Hs1 by exact Hs.
    destruct (spawn_same_future self1 futs p s Hr1 Hs1 eq_refl)
      as (fp & self2 & f' & Hspawn & Hr2 & Hs2 & Hf' & Hp2 & Ho2 & Hd2).
    unfold spawn_body at 1. rewrite Hspawn.
    destruct (IH pts' self2 [f']
                (State_with_objects
                   (State_with_calls s (spawn_calls m h f p)) 1)
                eq_refl Hr2 Hs2)
      as (self' & futs' & Hit & Hr' & Hp' & Hfuts & Ho' & Hd').
    { by rewrite Hp2. }
    exists self', futs'. rewrite Hit.
    rewrite State_with_objects_calls, State_with_calls_app,
      State_with_objects_succ.
    split_and!; try done.
    + right. destruct Hfuts as [[_ ->]|(f'' & pre & -> & Hf'')].
      * by exists f', (engine_calls s).
      * by exists f'', pre.
    + by rewrite Ho'.
    + by rewrite Hd'.
Qed.

(** The launch at the end of the loop, with the Future argument of the
    last spawn. *)
Lemma launch_same_future (tid : Z) (self : IndexLaunch) (f' : Future)
  (hl : legion_future_t) (s : State) (c : Context) :
  running_with task m [f'] self -> fut_handle f' = Some hl ->
  task_id task = Some tid -> uint32_ok tid = true -> my_ctx s = Some c ->
  let create :=
    legion_index_launcher_create tid (d_handle (launch_domain self)) m in
  let before :=
    engine_calls s
    ++ [legion_predicate_true; create; legion_index_launcher_add_future hl] in
  let r := index_launcher_execute_reply engine before in
  let fm :=
    future_map_copy_reply engine
      (before ++ [legion_index_launcher_execute;
                  legion_index_launcher_destroy]) r in
  IndexLaunch_launch engine self s
  = (Ok (IndexLaunch_with_launcher self
           (Some {| il_task := task; il_domain := launch_domain self;
                    local_args := m; future_args := [f'];
                    future_map := Some fm |})),
     State_with_calls s
       [legion_predicate_true; create; legion_index_launcher_add_future hl;
        legion_index_launcher_execute; legion_index_launcher_destroy;
        legion_future_map_copy r; legion_future_map_destroy r]).
Proof.
  intros [Hl _] Hf' Htid Hfit Hc. simpl.
  unfold IndexLaunch_launch. rewrite Hl.
  unfold _IndexLauncher_launch, Task_task_id. simpl. rewrite Htid.
  unfold pass_uint32. rewrite Hfit. rewrite Hf'.
  unfold bind, lift, engine_call, get_ctx, get_trace, ret. simpl.
  rewrite Hc. simpl.
  unfold State_with_calls, _IndexLauncher_with_future_map. simpl.
  rewrite <- !app_assoc. simpl. rewrite <- Hc. reflexivity.
Qed.

End SameFuture.

(** The whole loop: one task, one Future object, at every point. *)
Lemma loop_same_future (engine : Engine) (max_dim : nat) (task : Task)
  (tid : Z) (f : Future) (h : legion_future_t) (self : IndexLaunch)
  (s : State) (c : Context) (pts : list DomainPoint) :
  my_ctx s = Some c -> current_launch c = None ->
  launcher self = None -> saved_task self = None -> saved_args self = None ->
  Domain_iter max_dim (launch_domain self) = Ok pts -> pts <> [] ->
  task_id task = Some tid -> 0 <= tid <= uint32_max ->
  calling_convention task = "python"%string ->
  fut_handle f = Some h ->
  exists self' l pre,
    let m := argument_map_create_reply engine (engine_calls s) in
    let create :=
      legion_index_launcher_create tid (d_handle (launch_domain self)) m in
    let hl := future_copy_reply engine pre h in
    let before :=
      engine_calls s
      ++ legion_argument_map_create
         :: concat (map (spawn_calls m h f) pts)
      ++ [legion_predicate_true; create;
          legion_index_launcher_add_future hl] in
    let r := index_launcher_execute_reply engine before in
    IndexLaunch_iter engine max_dim
      (spawn_body engine task (index_and_future f)) self s
    = (self', Ok tt,
       State_with_objects
         (State_with_calls s
            (legion_argument_map_create
             :: concat (map (spawn_calls m h f) pts)
             ++ [legion_predicate_true; create;
                 legion_index_launcher_add_future hl;
                 legion_index_launcher_execute;
                 legion_index_launcher_destroy;
                 legion_future_map_copy r; legion_future_map_destroy r]))
         (length pts)) /\
    launcher self' = Some l /\ il_task l = task /\ local_args l = m /\
    future_map l
    = Some (future_map_copy_reply engine
              (before ++ [legion_index_launcher_execute;
                          legion_index_launcher_destroy]) r).
Proof.
  intros Hc Hl Hn Hst Hsa Hd Hne Htid Hfit Hconv Hh.
  assert (uint32_ok tid = true) as Hfit'.
  { unfold uint32_ok. apply andb_true_iff. split; apply Z.leb_le; lia. }
  unfold Domain_iter in Hd.
  destruct pts as [|p pts]; [done|].
  apply rmapM_cons_inv in Hd as (t & tuples & Htuples & Ht & Hpts).
  set (m := argument_map_create_reply engine (engine_calls s)).
  set (c1 := set_current_launch c (Some (launch_oid self))).
  set (s1 := State_with_ctx s c1).
  set (self0 := IndexLaunch_with_point self (Some {| iv_value := None |})).
  set (self1 := IndexLaunch_with_point self0
                  (Some {| iv_value := Some p |})).
  (* The first spawn makes the launcher. *)
  set (self1' := IndexLaunch_with_launcher self1
                   (Some {| il_task := task; il_domain := launch_domain self;
                            local_args := m; future_args := [];
                            future_map := None |})).
  assert (running_with task m [] self1') as Hr1.
  { split; [done|]. simpl. rewrite Hst. simpl.
    unfold Task_ne. by rewrite Nat.eqb_refl. }
  assert (saved_future f self1') as Hs1 by (by left).
  destruct (spawn_same_future engine task f h m Hconv Hh self1' [] p
              (State_with_calls s1 [legion_argument_map_create]) Hr1 Hs1
              eq_refl)
    as (fp & self2 & f1 & Hspawn & Hr2 & Hs2 & Hf1 & Hp2 & Ho2 & Hd2).
  assert (IndexLaunch_spawn_task engine self1 task
            (index_and_future f {| iv_value := Some p |}) s1
          = IndexLaunch_spawn_task engine self1' task
              (index_and_future f {| iv_value := Some p |})
              (State_with_calls s1 [legion_argument_map_create])) as Hfirst.
  { unfold IndexLaunch_spawn_task at 1 2, ensure_launcher. simpl.
    rewrite Hn. reflexivity. }
  destruct (iterate_same_future engine max_dim task f h m Hconv Hh
              tuples pts self2 [f1]
              (State_with_objects
                 (State_with_calls
                    (State_with_calls s1 [legion_argument_map_create])
                    (spawn_calls m h f p)) 1)
              Hpts Hr2 Hs2)
    as (self3 & futs & Hit & Hr3 & Hp3 & Hfuts & Ho3 & Hd3).
  { by rewrite Hp2. }
  assert (exists f' pre,
             futs = [f'] /\
             fut_handle f' = Some (future_copy_reply engine pre h))
    as (f' & pre & -> & Hf').
  { destruct Hfuts as [[_ ->]|Hfuts]; [|done]. by eexists _, _. }
  eexists. eexists. exists pre. cbv zeta. fold m.
  unfold IndexLaunch_iter.
  rewrite (begin_launch_ok self s c Hc Hl).
  fold c1 s1 self0. simpl launch_domain. rewrite Htuples.
  simpl iterate_points. rewrite Ht. simpl point. cbv beta iota zeta.
  fold self1. unfold spawn_body at 1. rewrite Hfirst, Hspawn.
  rewrite Hit.
  rewrite !State_with_objects_calls, !State_with_calls_app,
    State_with_objects_succ.
  rewrite (end_launch_ok self3 _ c1) by (by rewrite ?Ho3, ?Ho2).
  unfold c1 at 1. rewrite set_current_launch_twice, <- Hl,
    set_current_launch_same.
  match goal with
  | |- context [IndexLaunch_launch engine self3 ?st] =>
      rewrite (launch_same_future engine task m tid self3 f'
                 (future_copy_reply engine pre h) st c Hr3 Hf' Htid Hfit'
                 eq_refl)
  end.
  rewrite Hd3, Hd2. simpl launch_domain.
  split.
  - f_equal. unfold State_with_calls, State_with_objects, State_with_ctx, s1.
    simpl. rewrite <- !app_assoc. simpl. by rewrite Hc.
  - split; [reflexivity|]. simpl. split_and!; try done.
    rewrite <- !app_assoc. simpl. by rewrite <- ?app_assoc.
Qed.

(** C3, as amended.  [check_compatibility] refuses a spawn exactly when it
    names another task object than the first spawn of the launch, or
    passes a Region or a RegionField at some position, or passes a Future
    at a position where the first spawn did not pass that very Future
    object (futures are compared by identity, not by the value they hold;
    a Future where the first spawn passed something else, or nothing, is
    refused too).  The first spawn is the one that saves its task and its
    arguments; they stay.  A refused spawn raises before it attaches
    anything: the only engine call it can have made is the creation of the
    argument map.  In particular, a loop over a launch whose body spawns
    one registered task with one and the same Future object at every
    point succeeds and produces one FutureMap: every spawn is accepted,
    copies the Future and sets the pickled arguments of its point, which
    name the Future as argument 0 of the task; the launch is then created
    and executed once, with the copy of the Future that the last spawn has
    made as its future argument, and the future map of the launcher is the
    copy of the map that this execution returned.  (The destructors of
    the copies that later spawns replace are left to the garbage
    collector.) *)
Theorem index_launch_compatibility :
  (forall (self : IndexLaunch) (task : Task) (args : list Arg),
     (exists e, snd (check_compatibility self task args) = Raise e)
     <-> rejection self task args)
  /\
  (forall (self : IndexLaunch) (task : Task) (args : list Arg),
     saved_task self = None -> saved_args self = None ->
     saved_task (fst (check_compatibility self task args)) = Some task /\
     saved_args (fst (check_compatibility self task args)) = Some args)
  /\
  (forall (self : IndexLaunch) (task t : Task) (args a : list Arg),
     saved_task self = Some t -> saved_args self = Some a ->
     saved_task (fst (check_compatibility self task args)) = Some t /\
     saved_args (fst (check_compatibility self task args)) = Some a)
  /\
  (forall (engine : Engine) (self : IndexLaunch) (task : Task)
          (args : list Arg) (s : State) (e : PyError),
     snd (check_compatibility self task args) = Raise e ->
     exists self' s',
       IndexLaunch_spawn_task engine self task args s = (self', Raise e, s') /\
       engine_calls s'
       = engine_calls s ++ match launcher self with
                           | None => [legion_argument_map_create]
                           | Some _ => []
                           end)
  /\
  (forall (engine : Engine) (max_dim : nat) (task : Task) (tid : Z)
          (f : Future) (h : legion_future_t) (self : IndexLaunch)
          (s : State) (c : Context) (pts : list DomainPoint),
     my_ctx s = Some c -> current_launch c = None ->
     launcher self = None -> saved_task self = None ->
     saved_args self = None ->
     Domain_iter max_dim (launch_domain self) = Ok pts -> pts <> [] ->
     task_id task = Some tid -> 0 <= tid <= uint32_max ->
     calling_convention task = "python"%string ->
     fut_handle f = Some h ->
     exists self' l pre,
       let m := argument_map_create_reply engine (engine_calls s) in
       let create :=
         legion_index_launcher_create tid (d_handle (launch_domain self)) m in
       let hl := future_copy_reply engine pre h in
       let before :=
         engine_calls s
         ++ legion_argument_map_create
            :: concat (map (spawn_calls m h f) pts)
         ++ [legion_predicate_true; create;
             legion_index_launcher_add_future hl] in
       let r := index_launcher_execute_reply engine before in
       IndexLaunch_iter engine max_dim
         (spawn_body engine task (index_and_future f)) self s
       = (self', Ok tt,
          State_with_objects
            (State_with_calls s
               (legion_argument_map_create
                :: concat (map (spawn_calls m h f) pts)
                ++ [legion_predicate_true; create;
                    legion_index_launcher_add_future hl;
                    legion_index_launcher_execute;
                    legion_index_launcher_destroy;
                    legion_future_map_copy r; legion_future_map_destroy r]))
            (length pts)) /\
       launcher self' = Some l /\ il_task l = task /\ local_args l = m /\
       future_map l
       = Some (future_map_copy_reply engine
                 (before ++ [legion_index_launcher_execute;
                             legion_index_launcher_destroy]) r)).
Proof.
  split_and!.
  - apply check_compatibility_raises.
  - intros self task args Ht Ha.
    destruct (check_compatibility_saved self task args) as (H1 & _ & H2 & _).
    rewrite H1, H2, Ht, Ha by done. done.
  - intros self task t args a Ht Ha.
    destruct (check_compatibility_saved self task args) as (H1 & H2 & _).
    rewrite H1, H2, Ht, Ha by (rewrite Ha; done). done.
  - apply spawn_rejected_early.
  - apply loop_same_future.
Qed.

(** The first spawn of a launch saves its task and arguments; a second
    spawn with a Region is refused before anything is attached; a loop
    over four points that spawns the registered task with the same Future
    object at every point succeeds, with one launch and one future map. *)
Lemma index_launch_compatibility_witness :
  (saved_task (fst (check_compatibility (new_launch sample_domain)
                      (sample_task 1) [ArgFuture (future_seven 30)]))
   = Some (sample_task 1) /\
   saved_args (fst (check_compatibility (new_launch sample_domain)
                      (sample_task 1) [ArgFuture (future_seven 30)]))
   = Some [ArgFuture (future_seven 30)])
  /\
  (exists self' s',
     IndexLaunch_spawn_task sample_engine (new_launch sample_domain)
       (sample_task 1) [ArgRegion (sample_region true false)] state_in_task
     = (self',
        Raise (PyException "TODO: Support region arguments to an IndexLaunch"),
        s') /\
     engine_calls s'
     = engine_calls state_in_task ++ [legion_argument_map_create])
  /\
  (exists self' l fm s',
     IndexLaunch_iter sample_engine 3
       (spawn_body sample_engine registered_task
          (index_and_future (future_seven 30)))
       (new_launch sample_domain) state_in_task
     = (self', Ok tt, s') /\
     launcher self' = Some l /\ future_map l = Some fm /\
     length (List.filter is_execute_call (engine_calls s')) = 1%nat).
Proof.
  pose proof index_launch_compatibility as (_ & Hfirst & _ & Hearly & Hloop).
  split; [|split].
  - apply Hfirst; reflexivity.
  - exact (Hearly sample_engine (new_launch sample_domain) (sample_task 1)
             [ArgRegion (sample_region true false)] state_in_task _ eq_refl).
  - assert (Domain_iter 3 (launch_domain (new_launch sample_domain))
            = Ok (map mk_point [[0]; [1]; [2]; [3]])) as Hd
      by (vm_compute; reflexivity).
    assert (map mk_point [[0]; [1]; [2]; [3]] <> []) as Hne by discriminate.
    assert (0 <= 42 <= uint32_max) as Hfit by (by vm_compute).
    destruct (Hloop sample_engine 3%nat registered_task 42
                (future_seven 30) {| payload := 7 |}
                (new_launch sample_domain) state_in_task sample_context _
                eq_refl eq_refl eq_refl eq_refl eq_refl Hd Hne eq_refl Hfit
                eq_refl eq_refl)
      as (self' & l & pre & Hrun & Hl & _ & _ & Hfm).
    eexists self', l, _, _. split; [exact Hrun|].
    split; [exact Hl|]. split; [exact Hfm|]. reflexivity.
Defined.

(** C3, as stated, fails: two Future objects that hold the same value 7,
    passed at the same position by two spawns of the same task, are not
    compatible for the code, which compares the objects; and a Future is
    refused at a position where the first spawn passed a plain value,
    although no Future was seen there before. *)
Lemma equal_valued_futures_rejected :
  let first :=
    check_compatibility (new_launch sample_domain) (sample_task 1)
      [ArgFuture (future_seven 30)] in
  let plain :=
    check_compatibility (new_launch sample_domain) (sample_task 1)
      [ArgValue 5] in
  (snd first = Ok tt /\
   snd (check_compatibility (fst first) (sample_task 1)
          [ArgFuture (future_seven 31)])
   = Raise (PyException
              "Future argument to IndexLaunch does not match previous value at this position") /\
   Future_value (future_seven 30) = Some 7 /\
   Future_value (future_seven 31) = Some 7 /\
   ~ stated_rejection (fst first) (sample_task 1)
       [ArgFuture (future_seven 31)])
  /\
  (snd plain = Ok tt /\
   snd (check_compatibility (fst plain) (sample_task 1)
          [ArgFuture (future_seven 30)])
   = Raise (PyException
              "Future argument to IndexLaunch does not match previous value at this position") /\
   ~ stated_rejection (fst plain) (sample_task 1)
       [ArgFuture (future_seven 30)]).
Proof.
  simpl. split; split_and!; try reflexivity.
  - unfold stated_rejection. simpl.
    intros [(t & [= <-] & Hne)|[H|H]].
    + by apply Hne.
    + apply Exists_cons in H as [[r Hr]|H]; [discriminate|].
      by apply Exists_nil in H.
    + apply Exists_cons in H as [(f & g & [= <- <-] & Hv)|H]; [by apply Hv|].
      by apply Exists_nil in H.
  - unfold stated_rejection. simpl.
    intros [(t & [= <-] & Hne)|[H|H]].
    + by apply Hne.
    + apply Exists_cons in H as [[r Hr]|H]; [discriminate|].
      by apply Exists_nil in H.
    + apply Exists_cons in H as [(f & g & [=] & Hv)|H].
      by apply Exists_nil in H.
Qed.
